(** * Multichat server (Complex_Server.py): a shallow embedding

    The development follows the layout of the Python module: the line
    transport ([Client]), the account registry ([OutsideMenu]), the channel
    registry and the forgiveness trap ([InsideMenu]) and the channel server
    ([ChannelServer], [ChannelAdmin]).

    Conventions.
    - Python [str] is [string], [bytes] is [list byte], [int] is [Z].
    - [OutsideMenu.ACCOUNTS] and the channel objects (the class attributes
      [InsideMenu.CHANNEL_<index>]) are [gmap]s: the code only looks entries
      up, inserts and deletes, or updates every value independently.
    - [CHANNEL_NAMES], [muted_to_muter] and [connected_clients] are
      insertion-ordered association lists ([PyDict]): the code iterates over
      them and the order is observable; for [muted_to_muter] it deletes keys
      while iterating, which Python reports with a [RuntimeError] at the next
      step of the iterator.
    - A handler that can raise returns its state together with an outcome;
      [sys.exit()] (raised by [Client.close]) and [RuntimeError] are outcomes,
      not results. *)

From Stdlib Require Import Strings.Byte Strings.Ascii.
From stdpp Require Import base option list strings gmap.

Open Scope Z_scope.

(* ===================================================================== *)
(** ** Python helpers *)
(* ===================================================================== *)

#[global] Instance byte_eq_decision : EqDecision byte := byte_eq_dec.

(** [x in l] on a Python list. *)
Definition py_in `{EqDecision A} (x : A) (l : list A) : bool :=
  bool_decide (x ∈ l).

(** [l.remove(x)]: removes the first occurrence only.  Python raises
    [ValueError] when [x] is absent; every call site in the server guards the
    call with [x in l], so the absent case (returned unchanged here) is never
    exercised. *)
Fixpoint list_remove_first `{EqDecision A} (x : A) (l : list A) : list A :=
  match l with
  | [] => []
  | y :: l' => if decide (x = y) then l' else y :: list_remove_first x l'
  end.

(** [while x in l: l.remove(x)]. *)
Definition list_remove_all `{EqDecision A} (x : A) (l : list A) : list A :=
  filter (λ y, y ≠ x) l.

(** [range(n, 0, -1)] = [n, n-1, ..., 1]. *)
Fixpoint range_down (n : nat) : list nat :=
  match n with
  | O => []
  | S k => n :: range_down k
  end.

(* ===================================================================== *)
(** ** Line transport: [class Client] *)
(* ===================================================================== *)

Module Client.

Definition CR : byte := x0d.
Definition LF : byte := x0a.

(** [SEPARATOR = b'\r\n'] *)
Definition SEPARATOR : list byte := [CR; LF].

Fixpoint startswith (pat text : list byte) : bool :=
  match pat, text with
  | [], _ => true
  | _ :: _, [] => false
  | p :: pat', c :: text' => bool_decide (p = c) && startswith pat' text'
  end.

(** [bytes.replace(old, new)] for a non-empty [old]: occurrences are found
    left to right and do not overlap.  [skip] counts the bytes of the
    occurrence just replaced that are still to be consumed. *)
Fixpoint replace_from (old new : list byte) (skip : nat) (text : list byte)
  : list byte :=
  match text with
  | [] => []
  | c :: rest =>
      match skip with
      | S k => replace_from old new k rest
      | O =>
          if startswith old text
          then new ++ replace_from old new (pred (length old)) rest
          else c :: replace_from old new O rest
      end
  end.

(** [text.replace(old, new)]; with an empty [old] Python inserts [new]
    before every byte and at the end. *)
Definition replace (old new text : list byte) : list byte :=
  match old with
  | [] => new ++ flat_map (λ c, c :: new) text
  | _ :: _ => replace_from old new O text
  end.

(** The loop of [send]:
    [for index in range(len(SEPARATOR), 0, -1):
         text = text.replace(SEPARATOR[:index], SEPARATOR[-1:])] *)
Definition collapse (text : list byte) : list byte :=
  fold_left
    (λ text index,
       replace (take index SEPARATOR)
               (drop (pred (length SEPARATOR)) SEPARATOR) text)
    (range_down (length SEPARATOR)) text.

(** The argument of [socket.sendall] in [send]:
    [text.replace(SEPARATOR[-1:], SEPARATOR)] after the loop. *)
Definition payload (text : list byte) : list byte :=
  replace (drop (pred (length SEPARATOR)) SEPARATOR) SEPARATOR
          (collapse text).

(** [send]: [None] stands for [sys.exit()] on a closed transport. *)
Definition send (closed : bool) (text : list byte) : option (list byte) :=
  if closed then None else Some (payload text).

(** The spec's wording, as a scanner: a CRLF, a lone CR and a lone LF each
    become one CRLF; every other byte is copied. *)
Fixpoint normalise (text : list byte) : list byte :=
  match text with
  | [] => []
  | c :: rest =>
      if decide (c = CR) then
        CR :: LF ::
          match rest with
          | d :: rest' =>
              if decide (d = LF) then normalise rest' else normalise rest
          | [] => normalise rest
          end
      else if decide (c = LF) then CR :: LF :: normalise rest
      else c :: normalise rest
  end.

(** What the two single-byte passes of [send] do to one byte. *)
Definition expand (c : byte) : list byte :=
  if decide (c = CR) then [CR; LF]
  else if decide (c = LF) then [CR; LF] else [c].

(** Every CR of [out] is directly followed by LF and every LF is directly
    preceded by CR: [out] is made of CRLF pairs and bytes that are neither
    CR nor LF. *)
Fixpoint framed (out : list byte) : bool :=
  match out with
  | [] => true
  | c :: rest =>
      if decide (c = CR) then
        match rest with
        | d :: rest' => bool_decide (d = LF) && framed rest'
        | [] => false
        end
      else bool_decide (c ≠ LF) && framed rest
  end.

End Client.

(* ===================================================================== *)
(** ** Insertion-ordered dictionaries *)
(* ===================================================================== *)

(** A Python [dict] whose iteration order is observable: an association list
    in insertion order.  [set] on a present key keeps its position, [del]
    on an absent key is Python's [KeyError] (every call site below guards it
    with [contains]; the model returns the dictionary unchanged). *)
Module PyDict.
Section dict.
Context {K V : Type} `{EqDecision K}.

Fixpoint get (k : K) (d : list (K * V)) : option V :=
  match d with
  | [] => None
  | (k', v) :: d' => if decide (k = k') then Some v else get k d'
  end.

Definition contains (k : K) (d : list (K * V)) : bool :=
  match get k d with Some _ => true | None => false end.

Fixpoint set (k : K) (v : V) (d : list (K * V)) : list (K * V) :=
  match d with
  | [] => [(k, v)]
  | (k', v') :: d' =>
      if decide (k = k') then (k, v) :: d' else (k', v') :: set k v d'
  end.

Fixpoint del (k : K) (d : list (K * V)) : list (K * V) :=
  match d with
  | [] => []
  | (k', v') :: d' =>
      if decide (k = k') then d' else (k', v') :: del k d'
  end.

Definition keys (d : list (K * V)) : list K := d.*1.
Definition values (d : list (K * V)) : list V := d.*2.

(** The representation invariant of a dictionary: keys are unique. *)
Definition wf (d : list (K * V)) : Prop := NoDup (keys d).
End dict.
End PyDict.

(* ===================================================================== *)
(** ** Strings *)
(* ===================================================================== *)

(** [str.isspace] on the ASCII range: space, TAB, LF, VT, FF, CR and the
    separators FS, GS, RS, US.  Python's [str.split()] and [str.strip()]
    also break at the white space beyond ASCII (U+0085, U+00A0,
    U+2000 to U+200A and others); here a text is its sequence of bytes and
    those characters count as ordinary ones, so the model follows the code
    on texts whose white space is ASCII. *)
Definition isspace (c : ascii) : bool :=
  let n := nat_of_ascii c in
  bool_decide (n = 32%nat) || bool_decide (9 ≤ n ≤ 13)%nat
  || bool_decide (28 ≤ n ≤ 31)%nat.

(** [str.split()] without arguments: the maximal runs of non-space
    characters.  [word] is the run being read, reversed. *)
Fixpoint split_from (word : list ascii) (s : string) : list string :=
  let flush := match word with
               | [] => []
               | _ :: _ => [String.string_of_list_ascii (rev word)]
               end in
  match s with
  | EmptyString => flush
  | String c s' =>
      if isspace c then flush ++ split_from [] s'
      else split_from (c :: word) s'
  end.

Definition split (s : string) : list string := split_from [] s.

(** A string "has whitespace" when one of its characters is a space. *)
Definition has_whitespace (s : string) : bool :=
  existsb isspace (String.list_ascii_of_string s).

(** [x in ('yes', 'true', '1')] *)
Definition affirmative (answer : string) : bool :=
  py_in answer ["yes"; "true"; "1"]%string.

(* ===================================================================== *)
(** ** Objects: accounts, channel lines, clients, channels *)
(* ===================================================================== *)

(** [class Message(ChannelLine)] *)
Module Message.
Record t := mk { source : string; message : string; new : bool }.
End Message.

(** [class Account]; [data_lock] and the weak [client] reference are not
    part of the sequential state. *)
Module Account.
Record t := mk {
  administrator : bool;
  online : bool;
  password : string;
  contacts : list string;
  messages : list Message.t;
  forgiven : Z;
}.

(** [Account.__init__(administrator)] *)
Definition new (administrator : bool) : t :=
  {| administrator := administrator; online := false; password := "";
     contacts := []; messages := []; forgiven := 0 |}.
End Account.

(** [class ChannelLine] *)
Module ChannelLine.
Record t := mk { source : string; message : string }.

(** The text [echo] prints: ['[{}] {}'.format(source, message)]. *)
Definition render (line : t) : string :=
  "[" +:+ source line +:+ "] " +:+ message line.
End ChannelLine.

(** [enum('start, setup, ready, reset, final')] *)
Module state.
Inductive t := start | setup | ready | reset | final.
End state.

#[global] Instance state_eq_decision : EqDecision state.t.
Proof. solve_decision. Defined.

(** [class ChannelServer]: the fields of a channel object.
    [connected_clients] maps the worker thread's ident to the name of the
    client object that thread owns; a worker owns exactly one client object,
    so object identity of clients is equality of idents. *)
Module ChannelServer.
Definition builtin_buffer_limit : Z := 10000.

Record t := mk {
  channel_name : option string;
  owner : string;
  password : string;
  buffer : list ChannelLine.t;
  buffer_size : option Z;
  replay_size : option Z;
  status : state.t;
  connected_clients : list (Z * string);
  muted_to_muter : list (string * list string);
  kicked : list string;
  banned : list string;
  admin_name : string;
}.

(** [ChannelServer.__init__(channel_name, owner)] *)
Definition new (channel_name owner : string) : t :=
  {| channel_name := Some channel_name; owner := owner; password := "";
     buffer := []; buffer_size := None; replay_size := Some 10;
     status := state.start; connected_clients := [];
     muted_to_muter := []; kicked := []; banned := [];
     admin_name := "" |}.

Definition with_channel_name (n : option string) (ch : t) : t :=
  mk n (owner ch) (password ch) (buffer ch) (buffer_size ch)
     (replay_size ch) (status ch) (connected_clients ch)
     (muted_to_muter ch) (kicked ch) (banned ch) (admin_name ch).
Definition with_owner (o : string) (ch : t) : t :=
  mk (channel_name ch) o (password ch) (buffer ch) (buffer_size ch)
     (replay_size ch) (status ch) (connected_clients ch)
     (muted_to_muter ch) (kicked ch) (banned ch) (admin_name ch).
Definition with_password (p : string) (ch : t) : t :=
  mk (channel_name ch) (owner ch) p (buffer ch) (buffer_size ch)
     (replay_size ch) (status ch) (connected_clients ch)
     (muted_to_muter ch) (kicked ch) (banned ch) (admin_name ch).
Definition with_status (s : state.t) (ch : t) : t :=
  mk (channel_name ch) (owner ch) (password ch) (buffer ch) (buffer_size ch)
     (replay_size ch) s (connected_clients ch)
     (muted_to_muter ch) (kicked ch) (banned ch) (admin_name ch).
Definition with_buffer (b : list ChannelLine.t) (ch : t) : t :=
  mk (channel_name ch) (owner ch) (password ch) b (buffer_size ch)
     (replay_size ch) (status ch) (connected_clients ch)
     (muted_to_muter ch) (kicked ch) (banned ch) (admin_name ch).
Definition with_buffer_size (n : option Z) (ch : t) : t :=
  mk (channel_name ch) (owner ch) (password ch) (buffer ch) n
     (replay_size ch) (status ch) (connected_clients ch)
     (muted_to_muter ch) (kicked ch) (banned ch) (admin_name ch).
Definition with_replay_size (n : option Z) (ch : t) : t :=
  mk (channel_name ch) (owner ch) (password ch) (buffer ch)
     (buffer_size ch) n (status ch) (connected_clients ch)
     (muted_to_muter ch) (kicked ch) (banned ch) (admin_name ch).
Definition with_connected_clients (c : list (Z * string)) (ch : t) : t :=
  mk (channel_name ch) (owner ch) (password ch) (buffer ch)
     (buffer_size ch) (replay_size ch) (status ch) c
     (muted_to_muter ch) (kicked ch) (banned ch) (admin_name ch).
Definition with_muted_to_muter (m : list (string * list string)) (ch : t)
  : t :=
  mk (channel_name ch) (owner ch) (password ch) (buffer ch)
     (buffer_size ch) (replay_size ch) (status ch) (connected_clients ch)
     m (kicked ch) (banned ch) (admin_name ch).
Definition with_kicked (k : list string) (ch : t) : t :=
  mk (channel_name ch) (owner ch) (password ch) (buffer ch)
     (buffer_size ch) (replay_size ch) (status ch) (connected_clients ch)
     (muted_to_muter ch) k (banned ch) (admin_name ch).
Definition with_banned (b : list string) (ch : t) : t :=
  mk (channel_name ch) (owner ch) (password ch) (buffer ch)
     (buffer_size ch) (replay_size ch) (status ch) (connected_clients ch)
     (muted_to_muter ch) (kicked ch) b (admin_name ch).
End ChannelServer.

(* ===================================================================== *)
(** ** Outcomes of a call *)
(* ===================================================================== *)

(** The exceptions the modelled code can raise.  [SystemExit] is
    [sys.exit()], which unwinds the worker; [RuntimeError] is "dictionary
    changed size during iteration"; [herror] is [socket.herror], raised by
    [socket.gethostbyaddr] for an address without a reverse entry. *)
Inductive exn :=
  SystemExit | RuntimeError | KeyError | AttributeError | AssertionError
| herror.

(** A call returns, raises, or blocks in [recv] because the client has sent
    no further line. *)
Inductive outcome (A : Type) :=
| Return (a : A)
| Raise (e : exn)
| Blocked.
Arguments Return {A} a.
Arguments Raise {A} e.
Arguments Blocked {A}.

(* ===================================================================== *)
(** ** Account registry queries: [class OutsideMenu] *)
(* ===================================================================== *)

(** [OutsideMenu.account_exists(name)] *)
Definition account_exists (ACCOUNTS : gmap string Account.t) (name : string)
  : bool :=
  bool_decide (is_Some (ACCOUNTS !! name)).

(** [OutsideMenu.is_administrator(name)]: [None] when there is no account. *)
Definition is_administrator (ACCOUNTS : gmap string Account.t)
    (name : string) : option bool :=
  Account.administrator <$> ACCOUNTS !! name.

(* ===================================================================== *)
(** ** Channel server: [class ChannelServer] *)
(* ===================================================================== *)

Import ChannelServer.

(** [del l[:k]] *)
Definition del_prefix {A} (k : Z) (l : list A) : list A :=
  if bool_decide (k < 0) then drop (Z.to_nat (Z.of_nat (length l) + k)) l
  else drop (Z.to_nat k) l.

(** The local [buffer_size] of [add_line]. *)
Definition effective_capacity (ch : ChannelServer.t) : Z :=
  match buffer_size ch with
  | None => builtin_buffer_limit
  | Some n => Z.min n builtin_buffer_limit
  end.

(** [ChannelServer.add_line(name, line)] *)
Definition add_line (name line : string) (ch : ChannelServer.t)
  : ChannelServer.t * ChannelLine.t :=
  let buffer_size := effective_capacity ch in
  let channel_line := ChannelLine.mk name line in
  if bool_decide (buffer_size ≠ 0) then
    let buffer := buffer ch ++ [channel_line] in
    let buffer :=
      if bool_decide (Z.of_nat (length buffer) > buffer_size)
      then del_prefix (Z.of_nat (length buffer) - buffer_size) buffer
      else buffer in
    (with_buffer buffer ch, channel_line)
  else (ch, channel_line).

(** [ChannelServer.add_mute(muted, client)]; the second component is the
    line printed to the caller. *)
Definition add_mute (ACCOUNTS : gmap string Account.t)
    (muted client_name : string) (ch : ChannelServer.t)
  : ChannelServer.t * string :=
  if account_exists ACCOUNTS muted then
    match PyDict.get muted (muted_to_muter ch) with
    | Some muters =>
        if py_in client_name muters
        then (ch, muted +:+ " was already muted.")
        else (with_muted_to_muter
                (PyDict.set muted (muters ++ [client_name])
                            (muted_to_muter ch)) ch,
              muted +:+ " has been muted.")
    | None =>
        (with_muted_to_muter
           (PyDict.set muted [client_name] (muted_to_muter ch)) ch,
         muted +:+ " has been muted.")
    end
  else if bool_decide (muted ≠ "") then (ch, muted +:+ " does not exist.")
  else (ch, "Cancelling ...").

(** [ChannelServer.del_mute(muted, client)] *)
Definition del_mute (muted client_name : string) (ch : ChannelServer.t)
  : ChannelServer.t * string :=
  if bool_decide (muted ≠ "") then
    match PyDict.get muted (muted_to_muter ch) with
    | Some muters =>
        if py_in client_name muters then
          let muters := list_remove_first client_name muters in
          (with_muted_to_muter
             match muters with
             | [] => PyDict.del muted (muted_to_muter ch)
             | _ :: _ => PyDict.set muted muters (muted_to_muter ch)
             end ch,
           muted +:+ " has been unmuted.")
        else (ch, muted +:+ " was not muted.")
    | None => (ch, muted +:+ " was not muted.")
    end
  else (ch, "Cancelling ...").

(** [ChannelServer.is_protected(name)]: the answer and what it prints. *)
Definition is_protected (ACCOUNTS : gmap string Account.t) (name : string)
    (ch : ChannelServer.t) : option bool * list string :=
  if bool_decide (owner ch = name) then (Some true, [])
  else match is_administrator ACCOUNTS name with
       | None => (None, [name +:+ " does not exist."])
       | Some administrator => (Some administrator, [])
       end.

(** [ChannelServer.privileged()] for the caller [client_name]. *)
Definition privileged (ACCOUNTS : gmap string Account.t)
    (client_name : string) (ch : ChannelServer.t) : bool :=
  match is_administrator ACCOUNTS client_name with
  | Some true => true
  | _ => bool_decide (client_name = owner ch)
  end.

(** [ChannelServer.do_kick([name], verbose)] *)
Definition do_kick (ACCOUNTS : gmap string Account.t)
    (client_name name : string) (verbose : bool) (ch : ChannelServer.t)
  : ChannelServer.t * list string :=
  let printer (line : string) := if verbose then [line] else [] in
  if privileged ACCOUNTS client_name ch then
    if bool_decide (name = "") then (ch, printer "Cancelling ...")
    else
      match is_protected ACCOUNTS name ch with
      | (None, out) => (ch, out)
      | (Some true, out) => (ch, out ++ printer (name +:+ " cannot be kicked."))
      | (Some false, out) =>
          if py_in name (PyDict.values (connected_clients ch))
          then (with_kicked (kicked ch ++ [name]) ch,
                out ++ printer (name +:+ " has been kicked."))
          else (ch, out ++ printer (name +:+ " is not on this channel."))
      end
  else (ch, ["Only administrators or channel owner may do that."]).

(** [ChannelServer.add_ban(client, name)] *)
Definition add_ban (ACCOUNTS : gmap string Account.t)
    (client_name name : string) (ch : ChannelServer.t)
  : ChannelServer.t * list string :=
  match is_protected ACCOUNTS name ch with
  | (None, out) => (ch, out)
  | (Some protected, out) =>
      let out :=
        out ++ (if protected then [name +:+ " cannot be banned."] else []) in
      if py_in name (banned ch) then
        (ch, out ++ [name +:+ " was already been banned."])
      else
        let ch := with_banned (banned ch ++ [name]) ch in
        let '(ch, out') := do_kick ACCOUNTS client_name name false ch in
        (ch, out ++ out' ++ [name +:+ " has been banned."])
  end.

(** [ChannelServer.del_ban(client, name)] *)
Definition del_ban (name : string) (ch : ChannelServer.t)
  : ChannelServer.t * list string :=
  if py_in name (banned ch) then
    (with_banned (list_remove_first name (banned ch)) ch,
     [name +:+ " is no longer banned on this channel."])
  else (ch, [name +:+ " was not banned on this channel."]).

(** What [ChannelServer.dispatch()] does to [status] when [client_name]
    enters: a channel waiting for its owner ([start], or [reset] entered by
    the owner) goes through [setup] to [ready]; the settings chosen in the
    set-up dialogue are the operations [do_password_set], [do_buffer] and
    [do_replay] below. *)
Definition dispatch (client_name : string) (ch : ChannelServer.t)
  : ChannelServer.t :=
  if bool_decide (status ch = state.final) then ch
  else
    let ch :=
      if bool_decide (status ch = state.reset)
         && bool_decide (client_name = owner ch)
      then with_status state.start ch else ch in
    if bool_decide (status ch = state.start)
    then with_status state.ready (with_status state.setup ch)
    else ch.

(** [ChannelServer.connect(client)] by the worker [ident]. *)
Definition connect (ident : Z) (client_name : string) (ch : ChannelServer.t)
  : ChannelServer.t :=
  with_connected_clients
    (PyDict.set ident client_name (connected_clients ch)) ch.

(** The [finally] clause of [ChannelServer.handle]: the leaver is removed
    from [kicked], then [disconnect()]. *)
Definition handle_finally (ident : Z) (ch : ChannelServer.t)
  : option ChannelServer.t :=
  name ← PyDict.get ident (connected_clients ch);
  Some (with_connected_clients
          (PyDict.del ident (connected_clients ch))
          (with_kicked (list_remove_all name (kicked ch)) ch)).

(** [ChannelServer.broadcast(channel_line, echo)] called by the worker [me]:
    the connected clients the line is echoed to, in order.  [None] is the
    [KeyError] of [self.client] when the caller is not connected. *)
Definition broadcast (ch : ChannelServer.t) (me : Z)
    (channel_line : ChannelLine.t) (echo : bool)
  : option (list (Z * string)) :=
  _ ← PyDict.get me (connected_clients ch);
  let clients := connected_clients ch in
  let muter :=
    default [] (PyDict.get (ChannelLine.source channel_line)
                           (muted_to_muter ch)) in
  let kicked := kicked ch in
  let accept (destination : Z * string) : bool :=
    if py_in destination.2 kicked then false
    else if py_in destination.2 muter then false
    else if echo then true
    else bool_decide (destination.1 ≠ me) in
  Some (List.filter accept clients).

(** The event broadcast at the top of [message_loop]. *)
Definition joining (client_name : string) : ChannelLine.t :=
  ChannelLine.mk "EVENT" (client_name +:+ " is joining.").

(** The event broadcast when [run_channel] is left. *)
Definition leaving (client_name : string) : ChannelLine.t :=
  ChannelLine.mk "EVENT" (client_name +:+ " is leaving.").

(** The first two statements of [message_loop], run by the worker [me]:
    the event is built from the client's name and broadcast with
    [echo = False].  The result is the event and who is shown it. *)
Definition message_loop_enter (ch : ChannelServer.t) (me : Z)
  : option (ChannelLine.t * list (Z * string)) :=
  client_name ← PyDict.get me (connected_clients ch);
  let event := joining client_name in
  recipients ← broadcast ch me event false;
  Some (event, recipients).

(** The [finally] clause of [run_channel], which runs however the message
    loop was left, and before the [finally] clause of [handle]. *)
Definition run_channel_finally (ch : ChannelServer.t) (me : Z)
  : option (ChannelLine.t * list (Z * string)) :=
  client_name ← PyDict.get me (connected_clients ch);
  let event := leaving client_name in
  recipients ← broadcast ch me event false;
  Some (event, recipients).

(** What one iteration of the loop in [message_loop] does with a line. *)
Inductive loop_event :=
| Kicked
| Command (line : string)
| Broadcast (channel_line : ChannelLine.t) (recipients : list (Z * string)).

(** [line.startswith(':')] *)
Definition is_command (line : string) : bool :=
  match line with
  | String c _ => bool_decide (c = ":"%char)
  | EmptyString => false
  end.

(** [line[1:]] *)
Definition after_colon (line : string) : string :=
  match line with
  | String _ command => command
  | EmptyString => EmptyString
  end.

(** One iteration of [message_loop] for the line read by the worker [me].
    A line starting with [:] is handed to [run_command]. *)
Definition message_loop_step (ch : ChannelServer.t) (me : Z) (line : string)
  : option (ChannelServer.t * loop_event) :=
  client_name ← PyDict.get me (connected_clients ch);
  if py_in client_name (kicked ch) then Some (ch, Kicked)
  else if is_command line then Some (ch, Command (after_colon line))
  else
    let '(ch, channel_line) := add_line client_name line ch in
    recipients ← broadcast ch me channel_line true;
    Some (ch, Broadcast channel_line recipients).

(** [buffer[-n:]] for [n > 0] *)
Definition last_n {A} (n : Z) (l : list A) : list A :=
  drop (Z.to_nat (Z.max (Z.of_nat (length l) - n) 0)) l.

(** [ChannelServer.replay_buffer()]: the lines echoed to the entrant. *)
Definition replay_buffer (ch : ChannelServer.t) : list ChannelLine.t :=
  match replay_size ch with
  | None => buffer ch
  | Some n => if bool_decide (n > 0) then last_n n (buffer ch) else []
  end.

(* ===================================================================== *)
(** ** Channel admin console: [class ChannelAdmin] *)
(* ===================================================================== *)

(** [ChannelAdmin.do_buffer]: [size] is what [get_size] returned. *)
Definition do_buffer (size : option Z) (ch : ChannelServer.t)
  : ChannelServer.t :=
  with_buffer_size size ch.

(** [ChannelAdmin.do_replay] *)
Definition do_replay (size : option Z) (ch : ChannelServer.t)
  : ChannelServer.t :=
  with_replay_size size ch.

(** [ChannelAdmin.do_purge] *)
Definition do_purge (ch : ChannelServer.t) : ChannelServer.t :=
  with_buffer [] ch.

(** [ChannelAdmin.do_close] *)
Definition do_close (ch : ChannelServer.t) : ChannelServer.t :=
  with_kicked (kicked ch ++ PyDict.values (connected_clients ch)) ch.

(** [ChannelAdmin.reset_channel()] run by [client_name]. *)
Definition reset_channel (client_name : string) (ch : ChannelServer.t)
  : ChannelServer.t :=
  ChannelServer.mk (channel_name ch) client_name "" [] None (Some 10)
    (status ch) (connected_clients ch) [] (kicked ch) [] (admin_name ch).

(** [ChannelAdmin.do_reset] *)
Definition do_reset (client_name : string) (ch : ChannelServer.t)
  : ChannelServer.t :=
  reset_channel client_name (do_close (with_status state.reset ch)).

(** [ChannelAdmin.do_delete]; the name is unbound in [CHANNEL_NAMES] by
    [InsideMenu.delete_channel]. *)
Definition do_delete (ch : ChannelServer.t) : ChannelServer.t :=
  with_channel_name None ch.

(** [ChannelAdmin.do_finalize] *)
Definition do_finalize (client_name : string) (ch : ChannelServer.t)
  : ChannelServer.t :=
  reset_channel client_name
    (do_close (with_channel_name None (with_status state.final ch))).

(** [ChannelAdmin.do_owner] *)
Definition do_owner (ACCOUNTS : gmap string Account.t) (new_owner : string)
    (ch : ChannelServer.t) : ChannelServer.t :=
  if bool_decide (new_owner = "") then ch
  else if bool_decide (1 < length (split new_owner))%nat then ch
  else if bool_decide (new_owner ≠ owner ch)
          && account_exists ACCOUNTS new_owner
  then with_owner new_owner ch
  else ch.

(** [ChannelAdmin.do_password] with [set word], and the password step of the
    set-up dialogue. *)
Definition do_password_set (word : string) (ch : ChannelServer.t)
  : ChannelServer.t :=
  if bool_decide (word ≠ "") then with_password word ch else ch.

(** [ChannelAdmin.do_password] with [unset]. *)
Definition do_password_unset (ch : ChannelServer.t) : ChannelServer.t :=
  with_password "" ch.

(** [ChannelAdmin.try_rename] when [InsideMenu.rename_channel] succeeded. *)
Definition renamed (new_name : string) (ch : ChannelServer.t)
  : ChannelServer.t :=
  match channel_name ch with
  | Some _ => with_channel_name (Some new_name) ch
  | None => ch
  end.

(* ===================================================================== *)
(** ** Account deletion cascade: [class OutsideMenu] *)
(* ===================================================================== *)

(** The [for muted in channel.muted_to_muter.keys()] loop of
    [clean_name_from_channels].  [pending] are the keys the iterator has not
    produced yet.  As soon as the body deletes a key the dictionary has
    changed size, and the iterator's next step, even the one that would have
    ended the loop, raises [RuntimeError]. *)
Fixpoint clean_muters (name : string) (pending : list string)
    (m2m : list (string * list string))
  : outcome () * list (string * list string) :=
  match pending with
  | [] => (Return (), m2m)
  | muted :: pending =>
      match PyDict.get muted m2m with
      | None => (Raise KeyError, m2m)
      | Some muter =>
          if py_in name muter then
            match list_remove_first name muter with
            | [] => (Raise RuntimeError, PyDict.del muted m2m)
            | muter => clean_muters name pending (PyDict.set muted muter m2m)
            end
          else clean_muters name pending m2m
      end
  end.

(** An entry of [muted_to_muter] after [muter.remove(name)]. *)
Definition cleaned (name : string) (entry : string * list string)
  : string * list string :=
  (entry.1, list_remove_first name entry.2).

(** The body of the loop over channels in [clean_name_from_channels]. *)
Definition clean_name_from_channel (name : string) (ch : ChannelServer.t)
  : outcome () * ChannelServer.t :=
  let m2m := muted_to_muter ch in
  let m2m := if PyDict.contains name m2m then PyDict.del name m2m else m2m in
  let banned := list_remove_all name (banned ch) in
  let '(r, m2m) := clean_muters name (PyDict.keys m2m) m2m in
  (r, with_muted_to_muter m2m (with_banned banned ch)).

(** The process-wide registries: [OutsideMenu.ACCOUNTS],
    [BanFilter.BLOCKED], and [InsideMenu]'s [NEXT_CHANNEL], [CHANNEL_NAMES]
    and channel objects ([CHANNELS !! i] is the attribute [CHANNEL_<i>]). *)
Record Globals := mkGlobals {
  ACCOUNTS : gmap string Account.t;
  BLOCKED : list string;
  NEXT_CHANNEL : Z;
  CHANNEL_NAMES : list (string * Z);
  CHANNELS : gmap Z ChannelServer.t;
}.

Definition with_ACCOUNTS (a : gmap string Account.t) (g : Globals) : Globals :=
  mkGlobals a (BLOCKED g) (NEXT_CHANNEL g) (CHANNEL_NAMES g) (CHANNELS g).
Definition with_BLOCKED (b : list string) (g : Globals) : Globals :=
  mkGlobals (ACCOUNTS g) b (NEXT_CHANNEL g) (CHANNEL_NAMES g) (CHANNELS g).
Definition with_CHANNELS (c : gmap Z ChannelServer.t) (g : Globals)
  : Globals :=
  mkGlobals (ACCOUNTS g) (BLOCKED g) (NEXT_CHANNEL g) (CHANNEL_NAMES g) c.

(** [InsideMenu.get_channels()]: the indices bound in [CHANNEL_NAMES] whose
    channel object exists, in the order of the dictionary. *)
Definition get_channels (g : Globals) : list Z :=
  List.filter (λ index, bool_decide (is_Some (CHANNELS g !! index)))
              (PyDict.values (CHANNEL_NAMES g)).

(** [OutsideMenu.clean_name_from_channels(name)] over the channels
    [indices]: the first exception ends the walk. *)
Fixpoint clean_name_from_channels (name : string) (indices : list Z)
    (CHANNELS : gmap Z ChannelServer.t)
  : outcome () * gmap Z ChannelServer.t :=
  match indices with
  | [] => (Return (), CHANNELS)
  | index :: indices =>
      match CHANNELS !! index with
      | None => clean_name_from_channels name indices CHANNELS
      | Some channel =>
          match clean_name_from_channel name channel with
          | (Return _, channel) =>
              clean_name_from_channels name indices
                (<[index := channel]> CHANNELS)
          | (r, channel) => (r, <[index := channel]> CHANNELS)
          end
      end
  end.

(** The contact-list part of [delete_account], for one other account. *)
Definition forget_contact (name : string) (account : Account.t) : Account.t :=
  if py_in name (Account.contacts account) then
    Account.mk (Account.administrator account) (Account.online account)
      (Account.password account)
      (list_remove_first name (Account.contacts account))
      (Account.messages account) (Account.forgiven account)
  else account.

(** [OutsideMenu.delete_account(name)] *)
Definition delete_account (name : string) (g : Globals)
  : outcome () * Globals :=
  let g :=
    if account_exists (ACCOUNTS g) name
    then with_ACCOUNTS (forget_contact name <$> delete name (ACCOUNTS g)) g
    else g in
  let '(r, channels) :=
    clean_name_from_channels name (get_channels g) (CHANNELS g) in
  (r, with_CHANNELS channels g).

(* ===================================================================== *)
(** ** Handlers: the monad of a worker thread *)
(* ===================================================================== *)

(** The fields of the worker's [Client] object that handlers use.
    [incoming] are the lines the peer has sent and [input] has not consumed
    yet; [outgoing] are the lines printed so far.  [name] is the attribute
    set by [login_account] and deleted when the inside menu is left; the
    attribute [account] set with it is the object [ACCOUNTS[name]]. *)
Record Conn := mkConn {
  ident : Z;
  address : string;
  name : option string;
  incoming : list string;
  outgoing : list string;
  closed : bool;
}.

(** [client.name], for use where [name] is a local variable. *)
Definition client_name (c : Conn) : option string := name c.

Definition with_name (n : option string) (c : Conn) : Conn :=
  mkConn (ident c) (address c) n (incoming c) (outgoing c) (closed c).
Definition with_incoming (i : list string) (c : Conn) : Conn :=
  mkConn (ident c) (address c) (name c) i (outgoing c) (closed c).
Definition with_outgoing (o : list string) (c : Conn) : Conn :=
  mkConn (ident c) (address c) (name c) (incoming c) o (closed c).
Definition with_closed (b : bool) (c : Conn) : Conn :=
  mkConn (ident c) (address c) (name c) (incoming c) (outgoing c) b.

(** A handler step runs on the registries and the worker's client. *)
Definition M (A : Type) : Type :=
  Globals * Conn → outcome A * (Globals * Conn).

Definition ret {A} (a : A) : M A := λ s, (Return a, s).

Definition bind {A B} (m : M A) (k : A → M B) : M B :=
  λ s, match m s with
       | (Return a, s) => k a s
       | (Raise e, s) => (Raise e, s)
       | (Blocked, s) => (Blocked, s)
       end.

#[global] Instance M_ret : MRet M := @ret.
#[global] Instance M_bind : MBind M := λ A B k m, bind m k.

Definition raise {A} (e : exn) : M A := λ s, (Raise e, s).
Definition globals : M Globals := λ s, (Return s.1, s).
Definition client : M Conn := λ s, (Return s.2, s).
Definition set_globals (f : Globals → Globals) : M () :=
  λ s, (Return (), (f s.1, s.2)).
Definition set_client (f : Conn → Conn) : M () :=
  λ s, (Return (), (s.1, f s.2)).

(** A call that works on the registries only. *)
Definition lift_globals {A} (f : Globals → outcome A * Globals) : M A :=
  λ s, let '(r, g) := f s.1 in (r, (g, s.2)).

(** [try: m  except: handler] with a bare [except], which also catches
    [SystemExit]. *)
Definition try_except {A} (m : M A) (handler : M A) : M A :=
  λ s, match m s with
       | (Raise _, s) => handler s
       | r => r
       end.

(** [client.print(line)]; [send] exits on a closed transport. *)
Definition print (line : string) : M () :=
  c ← client;
  if closed c then raise SystemExit
  else set_client (with_outgoing (outgoing c ++ [line])).

(** [client.input()] *)
Definition recv : M string :=
  c ← client;
  if closed c then raise SystemExit
  else match incoming c with
       | [] => λ s, (Blocked, s)
       | line :: rest => set_client (with_incoming rest);; ret line
       end.

(** [client.input(prompt)] *)
Definition input (prompt : string) : M string := print prompt;; recv.

(** [client.close()]: ends in [sys.exit()].  The [socket.shutdown] between
    setting [closed] and [sys.exit()] is taken to succeed; on a connection
    that the peer has reset it raises [OSError] instead. *)
Definition close {A} : M A :=
  c ← client;
  if closed c then raise SystemExit
  else set_client (with_closed true);; raise SystemExit.

(** What a command returns to its command loop. *)
Inductive value :=
| PyNone
| EOFError
| InsideMenu
| AdminConsole
| Channel (index : Z).

(** [args[i] if len(args) > i else client.input(prompt)] *)
Definition arg_or_input (args : list string) (i : nat) (prompt : string)
  : M string :=
  match args !! i with
  | Some a => ret a
  | None => input prompt
  end.

(* ===================================================================== *)
(** ** Outside menu commands *)
(* ===================================================================== *)

(** The banner of [check_terms_of_service], abbreviated. *)
Definition TERMS_OF_SERVICE : string := "TERMS OF SERVICE".

(** [OutsideMenu.check_terms_of_service()] *)
Definition check_terms_of_service : M bool :=
  print TERMS_OF_SERVICE;;
  answer ← input "Do you agree?";
  ret (affirmative answer).

Definition set_account (name : string) (f : Account.t → Account.t)
  : M () :=
  set_globals (λ g, with_ACCOUNTS (alter f name (ACCOUNTS g)) g).

(** [OutsideMenu.login_account(account, name)] *)
Definition login_account (name : string) : M value :=
  set_account name (λ a,
    Account.mk (Account.administrator a) true (Account.password a)
      (Account.contacts a) (Account.messages a) (Account.forgiven a));;
  set_client (with_name (Some name));;
  ret InsideMenu.

(** [OutsideMenu.do_login(args)] *)
Definition do_login (args : list string) : M value :=
  name ← arg_or_input args 0 "Username:";
  word ← arg_or_input args 1 "Password:";
  g ← globals;
  match ACCOUNTS g !! name with
  | Some account =>
      if bool_decide (word = Account.password account) then
        if Account.online account
        then print "Account is already logged in!";; ret PyNone
        else login_account name
      else print "Authentication failed!";; ret PyNone
  | None => print "Authentication failed!";; ret PyNone
  end.

(** [OutsideMenu.do_register(args)] *)
Definition do_register (args : list string) : M value :=
  agreed ← check_terms_of_service;
  if negb agreed then ret EOFError else
  name ← arg_or_input args 0 "Username:";
  if bool_decide (1 < length (split name))%nat then
    print "Username may not have whitespace!";; ret PyNone
  else
  g ← globals;
  if account_exists (ACCOUNTS g) name then
    print "Account already exists!";; ret PyNone
  else
  set_globals
    (with_ACCOUNTS
       (<[name := Account.new (bool_decide (size (ACCOUNTS g) = 0%nat))]>
          (ACCOUNTS g)));;
  try_except
    (word ← arg_or_input args 1 "Password:";
     if bool_decide (length (split word) = 1)%nat then
       set_account name (λ a,
         Account.mk (Account.administrator a) (Account.online a) word
           (Account.contacts a) (Account.messages a) (Account.forgiven a));;
       login_account name
     else raise AssertionError)
    (set_globals (λ g, with_ACCOUNTS (delete name (ACCOUNTS g)) g);;
     print "Password may not have whitespace!";;
     ret PyNone).

(* ===================================================================== *)
(** ** Inside menu commands: [class InsideMenu] *)
(* ===================================================================== *)

Definition MAX_FORGIVENESS : Z := 2.

(** [self.client.name] and [self.client.account].  The account object is
    the one registered under the client's name: [login_account] binds both
    together.  An account object that an administrator removed from the
    registry while its session was still open is outside this model
    ([KeyError] here). *)
Definition client_account : M (string * Account.t) :=
  c ← client;
  g ← globals;
  match name c with
  | None => raise AttributeError
  | Some name =>
      match ACCOUNTS g !! name with
      | None => raise KeyError
      | Some account => ret (name, account)
      end
  end.

(** [InsideMenu.do_admin(args)] *)
Definition do_admin (args : list string) : M value :=
  '(name, account) ← client_account;
  if negb (Account.administrator account) then
    (if bool_decide (Account.forgiven account >= MAX_FORGIVENESS) then
       c ← client;
       set_globals (λ g, with_BLOCKED (BLOCKED g ++ [address c]) g);;
       lift_globals (delete_account name);;
       print "You have been warned for the last time!";;
       print "Now your IP address has been blocked &";;
       print "your account has been completely removed.";;
       close
     else ret ());;
    set_account name (λ a,
      Account.mk (Account.administrator a) (Account.online a)
        (Account.password a) (Account.contacts a) (Account.messages a)
        (Account.forgiven a + 1));;
    print "You are not authorized to be here.";;
    ret EOFError
  else ret AdminConsole.

(** The end of [InsideMenu.handle] when the command loop returned [None]
    (a command returned [EOFError()]): the account goes offline and the
    client loses its [account] and [name] attributes. *)
Definition leave_inside_menu : M () :=
  '(name, _) ← client_account;
  set_account name (λ a,
    Account.mk (Account.administrator a) false (Account.password a)
      (Account.contacts a) (Account.messages a) (Account.forgiven a));;
  set_client (with_name None).

(** One visit of a user: [login name word] at the outside menu, [admin] at
    the inside menu, and the inside menu's exit when [admin] pops it. *)
Definition login_then_admin (name word : string) : M value :=
  entered ← do_login [name; word];
  match entered with
  | InsideMenu =>
      v ← do_admin [];
      match v with
      | EOFError => leave_inside_menu;; ret v
      | _ => ret v
      end
  | v => ret v
  end.

(** [InsideMenu.do_channel(args)] *)
Definition do_channel (args : list string) : M value :=
  name ← arg_or_input args 0 "Channel to open?";
  if bool_decide (1 < length args)%nat
     || bool_decide (1 < length (split name))%nat
  then print "Channel name may not have whitespace!";; ret PyNone
  else if bool_decide (name ≠ "") then
    c ← client;
    g ← globals;
    index ←
      match PyDict.get name (CHANNEL_NAMES g) with
      | Some index =>
          match CHANNELS g !! index with
          | Some _ => ret index
          | None => raise AttributeError
          end
      | None =>
          match client_name c with
          | None => raise AttributeError
          | Some owner =>
              set_globals (λ g,
                mkGlobals (ACCOUNTS g) (BLOCKED g) (NEXT_CHANNEL g + 1)
                  (PyDict.set name (NEXT_CHANNEL g) (CHANNEL_NAMES g))
                  (<[NEXT_CHANNEL g := ChannelServer.new name owner]>
                     (CHANNELS g)));;
              ret (NEXT_CHANNEL g)
          end
      end;
    print ("Opening the " +:+ name +:+ " channel ...");;
    match client_name c with
    | None => raise AttributeError
    | Some user =>
        set_globals (λ g,
          with_CHANNELS
            (alter (connect (ident c) user) index (CHANNELS g)) g);;
        ret (Channel index)
    end
  else print "Channel name may not be empty.";; ret PyNone.

(* ===================================================================== *)
(** ** Reachable channel states *)
(* ===================================================================== *)

(** The operations that change a channel object, with their arguments; an
    operation that consults the account registry carries the registry as it
    is when the operation runs. *)
Inductive op :=
| Connect (ident : Z) (client_name : string)
| Leave (ident : Z)
| Line (ident : Z) (line : string)
| MuteAdd (ACCOUNTS : gmap string Account.t) (muted client_name : string)
| MuteDel (muted client_name : string)
| BanAdd (ACCOUNTS : gmap string Account.t) (client_name name : string)
| BanDel (name : string)
| Kick (ACCOUNTS : gmap string Account.t) (client_name name : string)
| SetBuffer (size : option Z)
| SetReplay (size : option Z)
| Purge
| Close
| Reset (client_name : string)
| CleanName (name : string)
| Enter (client_name : string)
| Delete
| Finalize (client_name : string)
| SetOwner (ACCOUNTS : gmap string Account.t) (new_owner : string)
| SetPassword (word : string)
| UnsetPassword
| Rename (new_name : string).

Definition apply_op (ch : ChannelServer.t) (o : op) : ChannelServer.t :=
  match o with
  | Connect ident client_name => connect ident client_name ch
  | Leave ident => default ch (handle_finally ident ch)
  | Line ident line =>
      match message_loop_step ch ident line with
      | Some (ch, _) => ch
      | None => ch
      end
  | MuteAdd ACCOUNTS muted client_name =>
      (add_mute ACCOUNTS muted client_name ch).1
  | MuteDel muted client_name => (del_mute muted client_name ch).1
  | BanAdd ACCOUNTS client_name name =>
      if privileged ACCOUNTS client_name ch
      then (add_ban ACCOUNTS client_name name ch).1 else ch
  | BanDel name => (del_ban name ch).1
  | Kick ACCOUNTS client_name name =>
      (do_kick ACCOUNTS client_name name true ch).1
  | SetBuffer size => do_buffer size ch
  | SetReplay size => do_replay size ch
  | Purge => do_purge ch
  | Close => do_close ch
  | Reset client_name => do_reset client_name ch
  | CleanName name => (clean_name_from_channel name ch).2
  | Enter client_name => dispatch client_name ch
  | Delete => do_delete ch
  | Finalize client_name => do_finalize client_name ch
  | SetOwner ACCOUNTS new_owner => do_owner ACCOUNTS new_owner ch
  | SetPassword word => do_password_set word ch
  | UnsetPassword => do_password_unset ch
  | Rename new_name => renamed new_name ch
  end.

Definition run (ops : list op) (ch : ChannelServer.t) : ChannelServer.t :=
  foldl apply_op ch ops.

(** A channel state is reachable when some operations lead to it from a
    freshly created channel. *)
Definition reachable (ch : ChannelServer.t) : Prop :=
  ∃ channel_name owner ops,
    ch = run ops (ChannelServer.new channel_name owner).

(** [mute add A] run by [A]. *)
Definition self_mute (A : string) (o : op) : bool :=
  match o with
  | MuteAdd _ muted client_name =>
      bool_decide (muted = A ∧ client_name = A)
  | _ => false
  end.

(** The muter lists recorded for [muted] in a channel
    ([muted_to_muter.get(muted, [])]). *)
Definition muters_of (muted : string) (ch : ChannelServer.t) : list string :=
  default [] (PyDict.get muted (muted_to_muter ch)).

(** The data invariants of [banned] and [muted_to_muter]: no name is banned
    twice, keys are unique, and every muter list is non-empty and free of
    duplicates. *)
Record channel_wf (ch : ChannelServer.t) : Prop := {
  banned_nodup : NoDup (banned ch);
  m2m_keys_nodup : PyDict.wf (muted_to_muter ch);
  muters_ok :
    Forall (λ entry : string * list string, entry.2 ≠ [] ∧ NoDup entry.2)
           (muted_to_muter ch);
}.

(** [A] is not recorded as a muter of [A]. *)
Definition no_self_mute (A : string) (ch : ChannelServer.t) : Prop :=
  Forall (λ entry : string * list string, entry.1 = A → A ∉ entry.2)
         (muted_to_muter ch).

(* ===================================================================== *)
(** ** Receiving lines: [Client.recv], [Client.close], [Client.input] *)
(* ===================================================================== *)

(** [pat in text] and [text.index(pat)]: the position of the first
    occurrence. *)
Fixpoint find (pat text : list byte) : option nat :=
  if Client.startswith pat text then Some 0%nat
  else match text with
       | [] => None
       | _ :: rest => S <$> find pat rest
       end.

(** The receiving side of a [Client]: the [closed] flag, the bytes read and
    not yet returned ([self.buffer]) and the socket.  [pending] lists what
    the next calls of [socket.recv(RECV_SIZE)] return: [Some chunk] for
    bytes, [None] for [socket.error]; with nothing pending the call
    blocks. *)
Module ClientIO.

(** [RECV_SIZE = 1 << 12], [BUFF_SIZE = 1 << 16] *)
Definition RECV_SIZE : Z := Z.shiftl 1 12.
Definition BUFF_SIZE : Z := Z.shiftl 1 16.

Record t := mk {
  closed : bool;
  buffer : list byte;
  pending : list (option (list byte));
}.

(** [close()] without [suppress_exit]: exits when already closed, else
    marks the transport closed, shuts the socket down and exits.  The
    [socket.shutdown] is taken to succeed; on a connection that the peer
    has reset it raises [OSError] once [closed] is set, so after a
    [socket.error] of that kind [recv] ends with [OSError] where this
    model has [SystemExit]. *)
Definition close {A} (c : t) : outcome A * t :=
  (Raise SystemExit, mk true (buffer c) (pending c)).

(** The [while self.SEPARATOR not in self.buffer] loop of [recv]; [buffer]
    is [self.buffer]. *)
Fixpoint recv_loop (pending : list (option (list byte)))
    (buffer : list byte) : outcome () * t :=
  match find Client.SEPARATOR buffer with
  | Some _ => (Return (), mk false buffer pending)
  | None =>
      match pending with
      | [] => (Blocked, mk false buffer pending)
      | None :: pending => close (mk false buffer pending)
      | Some chunk :: pending =>
          let buffer := buffer ++ chunk in
          if bool_decide (BUFF_SIZE < Z.of_nat (length buffer))
          then close (mk false buffer pending)
          else recv_loop pending buffer
      end
  end.

(** [recv()]: the next line with its separator.  After the loop the
    buffer holds a separator, so the [ValueError] of [index], which
    [KeyError] stands for here, does not occur. *)
Definition recv (c : t) : outcome (list byte) * t :=
  if closed c then (Raise SystemExit, c)
  else
    match recv_loop (pending c) (buffer c) with
    | (Return _, c) =>
        match find Client.SEPARATOR (buffer c) with
        | Some i =>
            let index := (i + length Client.SEPARATOR)%nat in
            (Return (take index (buffer c)),
             mk (closed c) (drop index (buffer c)) (pending c))
        | None => (Raise KeyError, c)
        end
    | (Raise e, c) => (Raise e, c)
    | (Blocked, c) => (Blocked, c)
    end.

(** [input()] without a prompt, before [decode()]:
    [self.recv()[:-len(self.SEPARATOR)]]. *)
Definition input (c : t) : outcome (list byte) * t :=
  match recv c with
  | (Return text, c) =>
      (Return (take (length text - length Client.SEPARATOR) text), c)
  | r => r
  end.

End ClientIO.

(** [MultichatClient.mouseClicked]: what the GUI client writes to the
    socket for the text of its entry field. *)
Definition mouseClicked (send_area : list byte) : list byte :=
  send_area ++ [Client.CR; Client.LF].

(* ===================================================================== *)
(** ** Command lines: [Handler.run_command] *)
(* ===================================================================== *)

(** [str.lstrip()] and [str.rstrip()] *)
Fixpoint lstrip (s : string) : string :=
  match s with
  | EmptyString => EmptyString
  | String c s' => if isspace c then lstrip s' else s
  end.

Fixpoint rstrip (s : string) : string :=
  match s with
  | EmptyString => EmptyString
  | String c s' =>
      match rstrip s' with
      | EmptyString => if isspace c then EmptyString else String c EmptyString
      | r => String c r
      end
  end.

(** [str.strip()] *)
Definition strip (s : string) : string := lstrip (rstrip s).

(** [tokens = line.strip().split()] *)
Definition tokens (line : string) : list string := split (strip line).

(* ===================================================================== *)
(** ** Contact lists: [class Account], [class ContactManager] *)
(* ===================================================================== *)

(** [OutsideMenu.is_online(name)] *)
Definition is_online (ACCOUNTS : gmap string Account.t) (name : string)
  : bool :=
  match ACCOUNTS !! name with
  | Some account => Account.online account
  | None => false
  end.

Definition with_contacts (contacts : list string) (a : Account.t)
  : Account.t :=
  Account.mk (Account.administrator a) (Account.online a)
    (Account.password a) contacts (Account.messages a) (Account.forgiven a).

Definition with_messages (messages : list Message.t) (a : Account.t)
  : Account.t :=
  Account.mk (Account.administrator a) (Account.online a)
    (Account.password a) (Account.contacts a) messages (Account.forgiven a).

(** [Account.add_contact(name)]: the [assert] comes first. *)
Definition add_contact (ACCOUNTS : gmap string Account.t) (name : string)
    (account : Account.t) : outcome bool * Account.t :=
  if py_in name (Account.contacts account) then (Raise AssertionError, account)
  else if account_exists ACCOUNTS name
  then (Return true,
        with_contacts (Account.contacts account ++ [name]) account)
  else (Return false, account).

(** [Account.remove_contact(name)] *)
Definition remove_contact (name : string) (account : Account.t)
  : bool * Account.t :=
  if py_in name (Account.contacts account)
  then (true,
        with_contacts (list_remove_first name (Account.contacts account))
                      account)
  else (false, account).

(** [Account.purge_contacts()] and [Account.purge_messages()] *)
Definition purge_contacts (account : Account.t) : Account.t :=
  with_contacts [] account.

Definition purge_messages (account : Account.t) : Account.t :=
  with_messages [] account.

(** [ContactManager.do_add(args)] *)
Definition do_add (args : list string) : M value :=
  name ← arg_or_input args 0 "Who?";
  '(me, account) ← client_account;
  g ← globals;
  match add_contact (ACCOUNTS g) name account with
  | (Raise AssertionError, _) =>
      print (name +:+ " is already in your contact list.");; ret PyNone
  | (Raise e, _) => raise e
  | (Blocked, _) => λ s, (Blocked, s)
  | (Return status, account) =>
      set_account me (λ _, account);;
      (if status
       then print (name +:+ " has been added to your contact list.")
       else print (name +:+ " does not currently exist."));;
      ret PyNone
  end.

(** [ContactManager.do_remove(args)] *)
Definition do_remove (args : list string) : M value :=
  name ← arg_or_input args 0 "Who?";
  '(me, account) ← client_account;
  let '(removed, account) := remove_contact name account in
  set_account me (λ _, account);;
  (if removed
   then print (name +:+ " has been removed from your contact list.")
   else print (name +:+ " is not in your contact list."));;
  ret PyNone.

(** [AccountOptions.do_purge(args)] *)
Definition AccountOptions_do_purge (args : list string) : M value :=
  command ← arg_or_input args 0 "What?";
  (if bool_decide (command = "messages") then
     '(me, _) ← client_account;
     set_account me purge_messages;;
     print "All of your messages have been deleted."
   else if bool_decide (command = "contacts") then
     '(me, _) ← client_account;
     set_account me purge_contacts;;
     print "All of your contacts have been deleted."
   else if bool_decide (command = "both") then
     '(me, _) ← client_account;
     set_account me purge_messages;;
     set_account me purge_contacts;;
     print "Your messages and contacts have been deleted."
   else print "Try messages, contacts, or both.");;
  ret PyNone.

(** [AccountOptions.do_delete_account(args)]: [close()] always exits, so
    the last line is reached only when nothing was deleted. *)
Definition do_delete_account (args : list string) : M value :=
  delete ←
    (if bool_decide (args !! 0%nat = Some "force") then ret true
     else answer ← input "Seriously?"; ret (affirmative answer));
  (if delete : bool then
     print "Your account and connection are being closed.";;
     c ← client;
     match client_name c with
     | None => raise AttributeError
     | Some name => lift_globals (delete_account name)
     end;;
     close
   else ret ());;
  print "Cancelling ...";;
  ret PyNone.

(** Every contact of every account is an account, and is listed once. *)
Definition contacts_wf (ACCOUNTS : gmap string Account.t) : Prop :=
  map_Forall
    (λ _ account,
       NoDup (Account.contacts account)
       ∧ Forall (λ name, is_Some (ACCOUNTS !! name))
                (Account.contacts account))
    ACCOUNTS.

(* ===================================================================== *)
(** ** Channel registry: [class InsideMenu] *)
(* ===================================================================== *)

Definition with_CHANNEL_NAMES (names : list (string * Z)) (g : Globals)
  : Globals :=
  mkGlobals (ACCOUNTS g) (BLOCKED g) (NEXT_CHANNEL g) names (CHANNELS g).

(** [InsideMenu.channel_exists(name)] *)
Definition channel_exists (name : string) (g : Globals) : bool :=
  PyDict.contains name (CHANNEL_NAMES g).

(** [InsideMenu.get_channel_names()] *)
Definition get_channel_names (g : Globals) : list string :=
  PyDict.keys (CHANNEL_NAMES g).

(** [InsideMenu.delete_channel(name)]: the channel object stays. *)
Definition delete_channel (name : string) (g : Globals) : bool * Globals :=
  if PyDict.contains name (CHANNEL_NAMES g)
  then (true, with_CHANNEL_NAMES (PyDict.del name (CHANNEL_NAMES g)) g)
  else (false, g).


(** The registry is consistent: no two names share an index, every
    registered index is below [NEXT_CHANNEL] and has its channel object, and
    every channel object, registered or not, sits below [NEXT_CHANNEL]. *)
Definition registry_wf (g : Globals) : Prop :=
  PyDict.wf (CHANNEL_NAMES g)
  ∧ NoDup (PyDict.values (CHANNEL_NAMES g))
  ∧ Forall (λ entry : string * Z,
              entry.2 < NEXT_CHANNEL g ∧ is_Some (CHANNELS g !! entry.2))
           (CHANNEL_NAMES g)
  ∧ ∀ index, is_Some (CHANNELS g !! index) → index < NEXT_CHANNEL g.

(* ===================================================================== *)
(** ** Entering a channel, whispers and mute lists: [class ChannelServer] *)
(* ===================================================================== *)

(** [ChannelServer.authenticate()] *)
Definition authenticate (ch : ChannelServer.t) : M bool :=
  c ← client;
  g ← globals;
  match client_name c with
  | None => raise AttributeError
  | Some user =>
      if bool_decide (password ch = "") || privileged (ACCOUNTS g) user ch
      then ret true
      else
        word ← input "Password to connect:";
        ret (bool_decide (word = password ch))
  end.

(** [ChannelServer.run_channel()] up to the message loop: [true] when the
    client gets in, [false] when it is turned away. *)
Definition run_channel_entry (ch : ChannelServer.t) : M bool :=
  c ← client;
  match client_name c with
  | None => raise AttributeError
  | Some user =>
      if py_in user (banned ch) then
        print "You have been banned from this channel.";; ret false
      else
        authenticated ← authenticate ch;
        if authenticated : bool then ret true
        else print "You have failed authentication.";; ret false
  end.

(** Who is shown a line by a call made on behalf of somebody else: the
    client connected by a worker, or the client of an account.  That
    client's transport is taken to be open. *)
Inductive recipient :=
| Worker (ident : Z)
| Holder (account : string).

(** [OutsideMenu.deliver_message(source, name, text)]: the answer, the
    registries, and the event shown to the account's client when the
    account is online. *)
Definition deliver_message (source name text : string) (g : Globals)
  : bool * Globals * list (recipient * string) :=
  match ACCOUNTS g !! name with
  | Some account =>
      (true,
       with_ACCOUNTS
         (<[name := with_messages
                      (Account.messages account
                       ++ [Message.mk source text true]) account]>
            (ACCOUNTS g)) g,
       if Account.online account
       then [(Holder name,
              "[EVENT] " +:+ source +:+ " has sent you a message.")]
       else [])
  | None => (false, g, [])
  end.

(** [ChannelServer.may_wisper(name)] for the caller [sender]: the worker
    whose client will be shown the whisper. *)
Definition may_wisper (sender name : string) (ch : ChannelServer.t)
  : option Z :=
  if py_in name (default [] (PyDict.get sender (muted_to_muter ch)))
  then None
  else fst <$> head (List.filter (λ destination : Z * string,
                                    bool_decide (destination.2 = name))
                                 (connected_clients ch)).

(** [ChannelServer.send_wisper(name, message)] for the caller [sender] *)
Definition send_wisper (sender name message : string)
    (ch : ChannelServer.t) (g : Globals)
  : bool * Globals * list (recipient * string) :=
  match may_wisper sender name ch with
  | None => deliver_message sender name message g
  | Some ident =>
      (true, g, [(Worker ident, "(" +:+ sender +:+ ") " +:+ message)])
  end.

(** [ChannelServer.list_mute(client)]: the names listed after
    [You have muted:]. *)
Definition list_mute (client_name : string) (ch : ChannelServer.t)
  : list string :=
  (List.filter (λ entry : string * list string, py_in client_name entry.2)
               (muted_to_muter ch)).*1.

(* ===================================================================== *)
(** ** The address filter: [class BanFilter], [AdminConsole.do_ban] *)
(* ===================================================================== *)

From Stdlib Require Import DecimalString.

(** [str(n)] for a natural number *)
Definition str (n : nat) : string := NilZero.string_of_uint (Nat.to_uint n).

(** [str.lower()] on ASCII text, which host names are. *)
Definition is_upper (c : ascii) : bool :=
  bool_decide (65 ≤ nat_of_ascii c ≤ 90)%nat.

Definition lower_char (c : ascii) : ascii :=
  if is_upper c then ascii_of_nat (nat_of_ascii c + 32) else c.

Fixpoint lower (s : string) : string :=
  match s with
  | EmptyString => EmptyString
  | String c s' => String (lower_char c) (lower s')
  end.

(** Some character of [s] is an upper-case letter. *)
Definition has_upper (s : string) : bool :=
  existsb is_upper (String.list_ascii_of_string s).

(** The three tests of [BanFilter.handle()] on the reply [(host, alias, ip)]
    of [socket.gethostbyaddr]. *)
Definition screen (host : string) (alias ip : list string) : M () :=
  g ← globals;
  (if py_in (lower host) (BLOCKED g) then close else ret ());;
  foldr (λ name rest,
           (if py_in (lower name) (BLOCKED g) then close else ret ());; rest)
        (ret ()) alias;;
  foldr (λ addr rest,
           (if py_in addr (BLOCKED g) then close else ret ());; rest)
        (ret ()) ip.

(** [BanFilter.handle()].  [passed] is the attribute of that name.
    [gethostbyaddr] stands for [socket.gethostbyaddr]: the reply
    [(host, alias, ip)] for an address, or [None] where it raises
    [socket.herror] because the address has no reverse entry.  The call
    comes before [BLOCKED] is read and nothing in [handle] catches its
    exception.  [true] stands for the [OutsideMenu] handler that is
    returned, after [passed] has been set. *)
Definition BanFilter_handle
    (gethostbyaddr : string → option (string * list string * list string))
    (passed : bool) : M bool :=
  if passed then print "Disconnecting ...";; close
  else
    c ← client;
    match gethostbyaddr (address c) with
    | None => raise herror
    | Some (host, alias, ip) => screen host alias ip;; ret true
    end.

(** [AdminConsole.ban_view(addr_list)] *)
Definition ban_view (addr_list : list string) : M () :=
  match addr_list with
  | [] => print "No one is in the ban list."
  | _ :: _ =>
      foldr (λ line rest, print line;; rest) (ret ())
            (imap (λ index address,
                     "(" +:+ str (index + 1) +:+ ") " +:+ address)
                  addr_list)
  end.

(** [AdminConsole.ban_add(args)] *)
Definition ban_add (args : list string) : M value :=
  addr ← arg_or_input args 0 "Address:";
  (if bool_decide (addr ≠ "") then
     g ← globals;
     if py_in addr (BLOCKED g)
     then print "Address in already in ban list."
     else
       set_globals (λ g, with_BLOCKED (BLOCKED g ++ [addr]) g);;
       print "Address has been successfully added."
   else print "Empty address may not be added.");;
  ret PyNone.

(** [AdminConsole.ban_remove(args)].  [int] stands for Python's [int] on a
    typed line, [None] for its [ValueError], which the bare [except]
    catches like the failed [assert]. *)
Definition ban_remove (int : string → option Z) (args : list string)
  : M value :=
  match args with
  | first :: _ =>
      g ← globals;
      if py_in first (BLOCKED g) then
        set_globals
          (λ g, with_BLOCKED (list_remove_first first (BLOCKED g)) g);;
        print "Address has been removed.";;
        ret PyNone
      else print "Address not found.";; ret PyNone
  | [] =>
      g ← globals;
      let addr_list := BLOCKED g in
      ban_view addr_list;;
      match addr_list with
      | [] => print "Address has been removed.";; ret PyNone
      | _ :: _ =>
          chosen ←
            try_except
              (line ← input "Item number?";
               match int line with
               | None => raise AssertionError
               | Some number =>
                   let index := number - 1 in
                   if bool_decide
                        (0 ≤ index < Z.of_nat (length addr_list))
                   then ret (addr_list !! Z.to_nat index)
                   else raise AssertionError
               end)
              (print "You must enter a valid number.";; ret None);
          match chosen with
          | None => ret PyNone
          | Some addr =>
              set_globals
                (λ g, with_BLOCKED (list_remove_all addr (BLOCKED g)) g);;
              print "Address has been removed.";;
              ret PyNone
          end
      end
  end.

(* ===================================================================== *)
(** ** Composing and sending messages: [class MessageManager] *)
(* ===================================================================== *)

(** ['\n'] and ['=' * 70] *)
Definition newline : string := String (ascii_of_nat 10) EmptyString.

Definition rule : string :=
  String.string_of_list_ascii (replicate 70 "="%char).

(** [lines[-2:]] and [lines[:-2]] *)
Definition last_two (lines : list string) : list string :=
  drop (length lines - 2) lines.

Definition but_last_two (lines : list string) : list string :=
  take (length lines - 2) lines.

(** The loop [while lines[-2:] != ['', '']: lines.append(input())] of
    [get_message] over the lines the peer has sent: the lines collected and
    the lines left unread, or [None] when the loop is still waiting after
    the last line. *)
Fixpoint compose (lines incoming : list string)
  : option (list string * list string) :=
  if bool_decide (last_two lines = [""; ""]) then Some (lines, incoming)
  else match incoming with
       | [] => None
       | line :: rest => compose (lines ++ [line]) rest
       end.

(** [while lines and not lines[0]: del lines[0]] *)
Fixpoint strip_blank (lines : list string) : list string :=
  match lines with
  | EmptyString :: rest => strip_blank rest
  | _ => lines
  end.

(** Waiting in [recv] for a line that has not been sent. *)
Definition blocked {A} : M A := λ s, (Blocked, s).

(** [MessageManager.get_message()] *)
Definition get_message : M string :=
  print "Please compose your message.";;
  print "Enter 2 blank lines to send.";;
  print rule;;
  c ← client;
  match compose [] (incoming c) with
  | None => set_client (with_incoming []);; blocked
  | Some (lines, rest) =>
      set_client (with_incoming rest);;
      print rule;;
      ret (String.concat newline (but_last_two (strip_blank lines)))
  end.

(** [MessageManager.do_send(args)]: what it returns, and the event shown
    to the addressee by [deliver_message]. *)
Definition do_send (args : list string)
  : M (value * list (recipient * string)) :=
  name ← arg_or_input args 0 "Destination:";
  c ← client;
  match client_name c with
  | None => raise AttributeError
  | Some me =>
      if bool_decide (name = me) then
        print "You are not allowed to talk to yourself.";; ret (PyNone, [])
      else
        g ← globals;
        if negb (account_exists (ACCOUNTS g) name) then
          print "Account does not exist.";; ret (PyNone, [])
        else
          text ← get_message;
          if bool_decide (text = "") then
            print "Empty messages may not be sent.";; ret (PyNone, [])
          else
            g ← globals;
            let '(delivered, g, events) := deliver_message me name text g in
            set_globals (λ _, g);;
            (if delivered : bool then print "Message has been delivered."
             else print (name +:+ " was removed while you were writing."));;
            ret (PyNone, events)
  end.

(** Two blank lines in a row somewhere in [lines]. *)
Fixpoint double_blank (lines : list string) : bool :=
  match lines with
  | [] => false
  | line :: rest =>
      match rest with
      | next :: _ =>
          (bool_decide (line = "") && bool_decide (next = ""))
          || double_blank rest
      | [] => false
      end
  end.

(* ===================================================================== *)
(** ** Channel summaries: [class MarkVShaney] *)
(* ===================================================================== *)

Definition markov_chain_length : nat := 3.

(** [MarkVShaney.prepare()]: the buffered lines of at least three words,
    as word lists. *)
Definition prepare (buffer : list ChannelLine.t) : list (list string) :=
  List.filter
    (λ words, bool_decide (markov_chain_length ≤ length words)%nat)
    (map (λ line, split (ChannelLine.message line)) buffer).

(** [start] and [stop] of [MarkVShaney.handle]: the first two words and the
    last three words of every sentence. *)
Definition start_of (arrays : list (list string)) : list (list string) :=
  map (take (markov_chain_length - 1)) arrays.

Definition stop_of (arrays : list (list string)) : list (list string) :=
  map (last_n (Z.of_nat markov_chain_length)) arrays.

(** The body of the inner loop of [create_chains]:
    [chains[key].append(value)] or [chains[key] = [value]]. *)
Definition add_link (chains : list (list string * list string))
    (link : list string * string) : list (list string * list string) :=
  match PyDict.get link.1 chains with
  | Some values => PyDict.set link.1 (values ++ [link.2]) chains
  | None => PyDict.set link.1 [link.2] chains
  end.

(** The pairs [(key, value)] the inner loop of [create_chains] visits for
    one sentence: [key = sentence[index:end]], [value = sentence[end]] with
    [end = index + 2]; [end] is always in range. *)
Definition links (sentence : list string) : list (list string * string) :=
  if bool_decide (markov_chain_length ≤ length sentence)%nat then
    map (λ index,
           let end_ := (index + (markov_chain_length - 1))%nat in
           (take (end_ - index) (drop index sentence),
            default "" (sentence !! end_)))
        (seq 0 (length sentence + 1 - markov_chain_length))
  else [].

(** [MarkVShaney.create_chains(arrays)] *)
Definition create_chains (arrays : list (list string))
  : list (list string * list string) :=
  foldl add_link [] (concat (map links arrays)).

(** [random.choice(seq)] for the random number [k]; [None] is the
    [IndexError] on an empty sequence. *)
Definition choice {A} (k : nat) (seq : list A) : option A :=
  seq !! (k mod length seq)%nat.

(** How a call of [create_sentence] stands after the random numbers it was
    given: it has returned a sentence, failed, or is still looping. *)
Inductive attempt :=
| Done (sentence : list string)
| NoKey
| NoChoice
| Unfinished.

(** The [while True] loop of [create_sentence]; [oracle] are the random
    numbers of the calls of [choice]. *)
Fixpoint sentence_loop (oracle : list nat)
    (chains : list (list string * list string)) (stop : list (list string))
    (sentence key : list string) : attempt :=
  match oracle with
  | [] => Unfinished
  | k :: oracle =>
      match PyDict.get key chains with
      | None => NoKey
      | Some followers =>
          match choice k followers with
          | None => NoChoice
          | Some word =>
              let sentence := sentence ++ [word] in
              if py_in (last_n (Z.of_nat markov_chain_length) sentence) stop
              then Done sentence
              else
                sentence_loop oracle chains stop sentence
                  (last_n (Z.of_nat markov_chain_length - 1) sentence)
          end
      end
  end.

(** [MarkVShaney.create_sentence(start, stop, chains)] before the words
    are joined by blanks. *)
Definition create_sentence (oracle : list nat) (start stop : list (list string))
    (chains : list (list string * list string)) : attempt :=
  match oracle with
  | [] => Unfinished
  | k :: oracle =>
      match choice k start with
      | None => NoChoice
      | Some key => sentence_loop oracle chains stop key key
      end
  end.

(** The runs of three words in a row of a word list. *)
Fixpoint triples (words : list string) : list (list string) :=
  match words with
  | [] => []
  | a :: rest =>
      match rest with
      | b :: c :: _ => [a; b; c] :: triples rest
      | _ => []
      end
  end.

(** [run] stands in one of the sentences, as words in a row. *)
Definition occurs (arrays : list (list string)) (run : list string) : Prop :=
  ∃ sentence before after,
    sentence ∈ arrays ∧ sentence = before ++ run ++ after.

(* ===================================================================== *)
(** ** Changing one's password: [AccountOptions.do_password] *)
(* ===================================================================== *)


(* ===================================================================== *)
(** ** Categories: [class CATServer] of [Development/CAT.py] *)
(* ===================================================================== *)

Module CATServer.

(** The state shared by a [CATServer] and its subcategories: [_index] maps
    an item to its category, [_group] a category to its items.  Items are
    strings here. *)
Record t := mk {
  index : gmap string string;
  group : gmap string (gset string);
}.

(** [CATServer()] *)
Definition new : t := mk ∅ ∅.

(** The category name that [__getattr__] and [__delattr__] compute from the
    category [value] and [name]. *)
Definition subcategory (value name : string) : string :=
  if bool_decide (value ≠ "") then value +:+ "." +:+ name else name.

(** [__getitem__(item)] of the category [value]: store [item]. *)
Definition getitem (value item : string) (s : t) : outcome string * t :=
  if bool_decide (is_Some (index s !! item)) then (Raise AssertionError, s)
  else
    (Return item,
     mk (<[item := value]> (index s))
        (match group s !! value with
         | Some items => <[value := items ∪ {[item]}]> (group s)
         | None => <[value := {[item]}]> (group s)
         end)).

(** [__delitem__(item)] of the category [value] *)
Definition delitem (value item : string) (s : t) : outcome () * t :=
  if bool_decide (index s !! item = Some value) then
    match group s !! value with
    | None => (Raise KeyError, s)
    | Some items =>
        if bool_decide (item ∈ items) then
          (Return (),
           mk (delete item (index s))
              (<[value := items ∖ {[item]}]> (group s)))
        else (Raise KeyError, s)
    end
  else (Raise AssertionError, s).

(** The loop [for item in self._group[value]: del self._index[item]] of
    [__delattr__], over the items in the order the set yields them. *)
Fixpoint forget (items : list string) (index : gmap string string)
  : outcome () * gmap string string :=
  match items with
  | [] => (Return (), index)
  | item :: items =>
      match index !! item with
      | None => (Raise KeyError, index)
      | Some _ => forget items (delete item index)
      end
  end.

(** [__delattr__(name)] of the category [value]: delete a subcategory. *)
Definition delattr (value name : string) (s : t) : outcome () * t :=
  let value := subcategory value name in
  match group s !! value with
  | None => (Return (), s)
  | Some items =>
      match forget (elements items) (index s) with
      | (Return _, index) => (Return (), mk index (delete value (group s)))
      | (r, index) => (r, mk index (group s))
      end
  end.

(** [__len__()], [__contains__(item)] and the items of [__iter__()] of the
    category [value] *)
Definition len (value : string) (s : t) : nat :=
  match group s !! value with
  | Some items => size items
  | None => 0%nat
  end.

Definition contains (value item : string) (s : t) : bool :=
  bool_decide (index s !! item = Some value).

Definition iter (value : string) (s : t) : gset string :=
  default ∅ (group s !! value).

(** The two dictionaries agree: an item is indexed under a category exactly
    when it is among the category's items. *)
Definition wf (s : t) : Prop :=
  ∀ item value,
    index s !! item = Some value
    ↔ ∃ items, group s !! value = Some items ∧ item ∈ items.

End CATServer.

(* ===================================================================== *)
(** ** Example states *)
(* ===================================================================== *)

(** Three accounts: [alice] registered first (administrator), then [bob]
    and [carol]. *)
Definition demo_accounts : gmap string Account.t :=
  <["carol" := Account.new false]>
    (<["bob" := Account.new false]> (<["alice" := Account.new true]> ∅)).

(** [alice] opens the channel [main] and sets it up with the defaults;
    [bob] and [carol] join. *)
Definition demo_entries : list op :=
  [Connect 1 "alice"; Enter "alice"; Connect 2 "bob"; Enter "bob";
   Connect 3 "carol"; Enter "carol"].

(** The channel [main] with the three users inside. *)
Definition demo_channel : ChannelServer.t :=
  run demo_entries (ChannelServer.new "main" "alice").

(** ... after [bob] ran [:mute add alice]. *)
Definition demo_muted : ChannelServer.t :=
  run [MuteAdd demo_accounts "alice" "bob"] demo_channel.

(** ... after [alice] ran [:mute add alice]. *)
Definition demo_self_muted : ChannelServer.t :=
  run [MuteAdd demo_accounts "alice" "alice"] demo_channel.

(** ... after [alice] ran [:kick bob]. *)
Definition demo_kicked : ChannelServer.t :=
  run [Kick demo_accounts "alice" "bob"] demo_channel.

(** [alice] says [old]; then the channel admin console sets [buffer 0]. *)
Definition demo_shrunk : ChannelServer.t :=
  run [Line 1 "old"; SetBuffer (Some 0)] demo_channel.

(** The buffer size of [main] is set to 2; then [alice] says [one] and
    [bob] says [two], which fills the buffer. *)
Definition demo_full : ChannelServer.t :=
  run [SetBuffer (Some 2); Line 1 "one"; Line 2 "two"] demo_channel.

(** [alice] alone in [main] sends [L1] ... [L12] with the default
    settings. *)
Definition demo_twelve : ChannelServer.t :=
  run (Connect 1 "alice" :: Enter "alice"
       :: map (Line 1)
            ["L1"; "L2"; "L3"; "L4"; "L5"; "L6";
             "L7"; "L8"; "L9"; "L10"; "L11"; "L12"])
      (ChannelServer.new "main" "alice").

(** [carol] has muted [alice] and [bob]; then [alice] banned [carol],
    which also put her on the kick list. *)
Definition demo_moderated : ChannelServer.t :=
  run [MuteAdd demo_accounts "alice" "carol";
       MuteAdd demo_accounts "bob" "carol";
       BanAdd demo_accounts "alice" "carol"] demo_channel.

(** The registries with that channel; [bob] has [carol] in his contacts. *)
Definition demo_globals : Globals :=
  mkGlobals
    (<["bob" := Account.mk false true "pw2" ["carol"] [] 0]> demo_accounts)
    [] 2 [("main", 1)] {[ 1 := demo_moderated ]}.

(** A server without channels where [carol], who is not an administrator,
    has never tried [admin]; and her client before login. *)
Definition demo_registry : Globals :=
  mkGlobals
    (<["carol" := Account.mk false false "pw3" [] [] 0]>
       (<["alice" := Account.mk true false "pw1" [] [] 0]> ∅))
    [] 1 [] ∅.

Definition demo_conn : Conn := mkConn 3 "203.0.113.7" None [] [] false.

(** A server just started, and a client that has typed ahead [lines]. *)
Definition fresh_globals : Globals := mkGlobals ∅ [] 1 [] ∅.

Definition typed (user : option string) (lines : list string) : Conn :=
  mkConn 7 "198.51.100.4" user lines [] false.


(** [login carol pw3] on the server without channels. *)
Definition logged_in_carol : outcome value * (Globals * Conn) :=
  do_login ["carol"; "pw3"] (demo_registry, demo_conn).

(** The client of [bob], logged in. *)
Definition demo_bob : Conn := mkConn 2 "203.0.113.9" (Some "bob") [] [] false.

(** The channel [main] protected by the password [secret], and the client
    of [carol] about to enter it, having typed two lines ahead. *)
Definition demo_locked : ChannelServer.t :=
  do_password_set "secret" demo_channel.

Definition demo_carol : Conn :=
  mkConn 3 "203.0.113.7" (Some "carol") ["secret"; "hello"] [] false.

(** A server whose block list holds one host name and one address. *)
Definition blocked_globals : Globals :=
  mkGlobals ∅ ["host.example"; "192.0.2.1"] 1 [] ∅.

(** A resolver that has a reverse entry for one address only. *)
Definition demo_resolver (address : string)
  : option (string * list string * list string) :=
  if bool_decide (address = "203.0.113.7")
  then Some ("Host.Example", ["gw.example"], ["203.0.113.7"])
  else None.

(** A client from the blocked address, which has no reverse entry. *)
Definition blocked_conn : Conn := mkConn 4 "192.0.2.1" None [] [] false.

(** [carol], not an administrator, has used up her forgiveness; her
    address is on the block list already. *)
Definition trapped_globals : Globals :=
  mkGlobals
    (<["carol" := Account.mk false true "pw3" [] [] 2]>
       (<["alice" := Account.mk true false "pw1" [] [] 0]> ∅))
    ["203.0.113.7"] 1 [] ∅.

Definition trapped_conn : Conn :=
  mkConn 3 "203.0.113.7" (Some "carol") [] [] false.

(** [BUFF_SIZE] bytes without a line break. *)
Definition flood : list byte :=
  replicate (Z.to_nat ClientIO.BUFF_SIZE) x61.

(** A category server holding [bello] in [pets], [rex] and [fido] in
    [pets.dogs], and [tom] in [pets.cats]. *)
Definition demo_cat : CATServer.t :=
  (CATServer.getitem "pets.cats" "tom"
     (CATServer.getitem "pets.dogs" "fido"
        (CATServer.getitem "pets.dogs" "rex"
           (CATServer.getitem "pets" "bello" CATServer.new).2).2).2).2.

(* ===================================================================== *)
(** * Properties *)
(* ===================================================================== *)

(** ** Lists and dictionaries *)

Section lists.
Context `{EqDecision A}.
Implicit Types (x y : A) (l : list A).

Lemma py_in_true x l : py_in x l = true ↔ x ∈ l.
Proof. unfold py_in. by rewrite bool_decide_eq_true. Qed.

Lemma py_in_false x l : py_in x l = false ↔ x ∉ l.
Proof. unfold py_in. by rewrite bool_decide_eq_false. Qed.

Lemma list_remove_first_notin x l : x ∉ l → list_remove_first x l = l.
Proof.
  induction l as [|y l IH]; [done|]. intros Hx. simpl.
  case_decide as Hxy; [subst; set_solver|].
  f_equal. apply IH. set_solver.
Qed.

Lemma list_remove_first_app_last x l :
  x ∉ l → list_remove_first x (l ++ [x]) = l.
Proof.
  induction l as [|y l IH]; intros Hx; simpl.
  - by rewrite decide_True.
  - case_decide as Hxy; [subst; set_solver|].
    f_equal. apply IH. set_solver.
Qed.

Lemma list_remove_first_subseteq x l : list_remove_first x l ⊆ l.
Proof.
  induction l as [|y l IH]; [done|]. simpl.
  case_decide; [intros z Hz; by right|].
  intros z [->|Hz]%elem_of_cons; [left|right; by apply IH].
Qed.

Lemma list_remove_first_NoDup x l :
  NoDup l → NoDup (list_remove_first x l).
Proof.
  induction 1 as [|y l Hy Hl IH]; simpl; [constructor|].
  case_decide; [done|]. constructor; [|done].
  intros Hin. by apply Hy, (list_remove_first_subseteq x).
Qed.

Lemma list_remove_first_NoDup_notin x l :
  NoDup l → x ∉ list_remove_first x l.
Proof.
  induction 1 as [|y l Hy Hl IH]; simpl; [apply not_elem_of_nil|].
  case_decide; [by subst|].
  intros [->|Hx]%elem_of_cons; [done|by apply IH].
Qed.

Lemma list_remove_all_notin x l : x ∉ list_remove_all x l.
Proof. unfold list_remove_all. rewrite list_elem_of_filter. tauto. Qed.

Lemma list_remove_all_subseteq x l : list_remove_all x l ⊆ l.
Proof.
  unfold list_remove_all. intros y. rewrite list_elem_of_filter. tauto.
Qed.

Lemma list_remove_all_NoDup x l : NoDup l → NoDup (list_remove_all x l).
Proof. apply NoDup_filter. Qed.
End lists.

(** Two-step induction on lists, for scanners with one byte of lookahead. *)
Lemma list_ind2 {A} (P : list A → Prop) :
  P [] → (∀ c, P [c]) →
  (∀ c d l, P l → P (d :: l) → P (c :: d :: l)) →
  ∀ l, P l.
Proof.
  intros Hnil Hone Hstep l.
  enough (P l ∧ ∀ c, P (c :: l)) by tauto.
  induction l as [|d l [IH1 IH2]]; [by split|].
  split; [apply IH2|]. intros c. by apply Hstep.
Qed.

(** ** Line transport *)

Section transport.
Import Client.

Lemma replace_single a new text :
  replace [a] new text
  = flat_map (λ c, if decide (a = c) then new else [c]) text.
Proof.
  unfold replace. induction text as [|c rest IH]; [done|].
  simpl. rewrite IH. unfold bool_decide.
  by destruct (decide_rel eq a c); simpl.
Qed.

Lemma collapse_unfold text :
  collapse text = replace [CR] [LF] (replace [CR; LF] [LF] text).
Proof. reflexivity. Qed.

Lemma replace_crlf_cons c rest :
  replace [CR; LF] [LF] (c :: rest)
  = match rest with
    | d :: rest' =>
        if decide (c = CR) then
          if decide (d = LF) then LF :: replace [CR; LF] [LF] rest'
          else c :: replace [CR; LF] [LF] rest
        else c :: replace [CR; LF] [LF] rest
    | [] => [c]
    end.
Proof.
  unfold replace. destruct rest as [|d rest']; cbn [replace_from startswith].
  - rewrite andb_false_r. done.
  - rewrite andb_true_r.
    destruct (decide (c = CR)) as [->|Hc].
    + rewrite bool_decide_eq_true_2 by done. cbn [andb].
      destruct (decide (d = LF)) as [->|Hd].
      * rewrite bool_decide_eq_true_2 by done. done.
      * rewrite bool_decide_eq_false_2 by (intros <-; done). done.
    + rewrite bool_decide_eq_false_2 by (intros <-; done). done.
Qed.

Lemma single_passes text :
  replace [LF] [CR; LF] (replace [CR] [LF] text) = flat_map expand text.
Proof.
  rewrite !replace_single. induction text as [|c rest IH]; [done|].
  simpl. rewrite flat_map_app, IH. f_equal.
  unfold expand.
  repeat case_decide; subst; simpl; rewrite ?app_nil_r; try done.
  all: repeat case_decide; congruence.
Qed.

Lemma payload_unfold text :
  payload text = flat_map expand (replace [CR; LF] [LF] text).
Proof. unfold payload. rewrite collapse_unfold. apply single_passes. Qed.

Lemma normalise_cons2 c d rest :
  normalise (c :: d :: rest)
  = if decide (c = CR) then
      CR :: LF ::
        (if decide (d = LF) then normalise rest else normalise (d :: rest))
    else if decide (c = LF) then CR :: LF :: normalise (d :: rest)
    else c :: normalise (d :: rest).
Proof. reflexivity. Qed.

Lemma normalise_one c : normalise [c] = expand c.
Proof. unfold expand. cbn. by repeat case_decide. Qed.

Lemma expand_plain c : c ≠ CR → c ≠ LF → expand c = [c].
Proof. intros. unfold expand. by rewrite !decide_False. Qed.

Lemma payload_normalise text : payload text = normalise text.
Proof.
  rewrite payload_unfold.
  induction text as [| c | c d rest IH1 IH2] using list_ind2.
  - done.
  - rewrite replace_crlf_cons, normalise_one. cbn [flat_map].
    apply app_nil_r.
  - rewrite replace_crlf_cons, normalise_cons2.
    destruct (decide (c = CR)) as [->|Hc].
    + destruct (decide (d = LF)) as [->|Hd].
      * cbn [flat_map]. rewrite IH1. reflexivity.
      * cbn [flat_map]. rewrite IH2. reflexivity.
    + cbn [flat_map]. rewrite IH2. unfold expand.
      rewrite decide_False by done. by case_decide.
Qed.

Lemma framed_normalise text : framed (normalise text) = true.
Proof.
  induction text as [| c | c d rest IH1 IH2] using list_ind2.
  - done.
  - rewrite normalise_one. unfold expand.
    repeat case_decide; [done..|]. cbn [framed].
    rewrite decide_False by done. by rewrite bool_decide_eq_true_2.
  - rewrite normalise_cons2. destruct (decide (c = CR)) as [->|Hc].
    + by destruct (decide (d = LF)).
    + destruct (decide (c = LF)) as [->|Hl]; [done|].
      cbn [framed]. rewrite decide_False by done.
      by rewrite bool_decide_eq_true_2.
Qed.

(** An existing CRLF yields exactly one CRLF, wherever it stands. *)
Lemma normalise_app_crlf a b :
  normalise (a ++ CR :: LF :: b) = normalise a ++ CR :: LF :: normalise b.
Proof.
  induction a as [| c | c d rest IH1 IH2] using list_ind2.
  - done.
  - rewrite normalise_one. cbn [app]. rewrite normalise_cons2.
    unfold expand. rewrite (decide_False (P := CR = LF)) by done.
    change (normalise (CR :: LF :: b)) with (CR :: LF :: normalise b).
    by repeat case_decide.
  - change ((c :: d :: rest) ++ CR :: LF :: b)
      with (c :: d :: (rest ++ CR :: LF :: b)).
    rewrite !normalise_cons2.
    change (d :: (rest ++ CR :: LF :: b))
      with ((d :: rest) ++ CR :: LF :: b).
    rewrite IH1, IH2.
    by repeat case_decide.
Qed.

(** A byte that is neither CR nor LF is copied. *)
Lemma normalise_app_plain a c b :
  c ≠ CR → c ≠ LF →
  normalise (a ++ c :: b) = normalise a ++ c :: normalise b.
Proof.
  intros Hc Hl.
  assert (normalise (c :: b) = c :: normalise b) as Hcb.
  { cbn [normalise]. by rewrite !decide_False. }
  induction a as [| e | e d rest IH1 IH2] using list_ind2.
  - done.
  - rewrite normalise_one. cbn [app]. rewrite normalise_cons2.
    unfold expand. rewrite (decide_False (P := c = LF)) by done.
    rewrite Hcb. by repeat case_decide.
  - change ((e :: d :: rest) ++ c :: b) with (e :: d :: (rest ++ c :: b)).
    rewrite !normalise_cons2.
    change (d :: (rest ++ c :: b)) with ((d :: rest) ++ c :: b).
    rewrite IH1, IH2.
    by repeat case_decide.
Qed.
End transport.

(** C8. For every byte string given to [Client.send] on an open transport,
    the payload handed to [sendall] is the input in which each CRLF, each
    lone CR and each lone LF has become exactly one CRLF ([Client.normalise]);
    in that payload every CR is followed by LF and every LF is preceded by
    CR ([Client.framed]). *)
Theorem send_normalises_line_breaks (text : list byte) :
  Client.send false text = Some (Client.normalise text)
  ∧ Client.framed (Client.normalise text) = true.
Proof.
  split; [|apply framed_normalise].
  unfold Client.send. f_equal. apply payload_normalise.
Qed.

(** ** Dictionaries *)

Section dict_facts.
Context {K V : Type} `{EqDecision K}.
Implicit Types (k : K) (v : V) (d : list (K * V)).

Lemma get_elem_of k v d : PyDict.get k d = Some v → (k, v) ∈ d.
Proof.
  induction d as [|[k' v'] d IH]; [done|]. simpl.
  case_decide as Hk.
  - intros [= ->]. subst. left.
  - intros Hget. right. by apply IH.
Qed.

Lemma get_None_keys k d : PyDict.get k d = None ↔ k ∉ PyDict.keys d.
Proof.
  induction d as [|[k' v'] d IH]; simpl.
  - split; [intros _; apply not_elem_of_nil|done].
  - rewrite not_elem_of_cons, <- IH.
    case_decide; [subst|]; intuition congruence.
Qed.

Lemma get_set_eq k v d : PyDict.get k (PyDict.set k v d) = Some v.
Proof.
  induction d as [|[k' v'] d IH]; simpl.
  - by rewrite decide_True.
  - case_decide; simpl; [by rewrite decide_True|by rewrite decide_False].
Qed.

Lemma get_set_ne k k' v d :
  k ≠ k' → PyDict.get k' (PyDict.set k v d) = PyDict.get k' d.
Proof.
  intros Hne. induction d as [|[k0 v0] d IH]; simpl.
  - by rewrite decide_False.
  - case_decide; simpl; [subst|].
    + by rewrite !decide_False.
    + by rewrite IH.
Qed.

Lemma set_get_id k v d : PyDict.get k d = Some v → PyDict.set k v d = d.
Proof.
  induction d as [|[k' v'] d IH]; [done|]. simpl.
  case_decide; [by intros [= ->]; subst|].
  intros Hget. by rewrite IH.
Qed.

Lemma set_set k v v' d :
  PyDict.set k v (PyDict.set k v' d) = PyDict.set k v d.
Proof.
  induction d as [|[k0 v0] d IH]; simpl.
  - by rewrite decide_True.
  - case_decide; simpl; [by rewrite decide_True|].
    rewrite decide_False by done. by rewrite IH.
Qed.

Lemma del_set_fresh k v d :
  PyDict.get k d = None → PyDict.del k (PyDict.set k v d) = d.
Proof.
  induction d as [|[k0 v0] d IH]; simpl.
  - by rewrite decide_True.
  - case_decide; [done|]. intros Hget. simpl.
    rewrite decide_False by done. by rewrite IH.
Qed.

Lemma keys_set_present k v d :
  PyDict.get k d ≠ None → PyDict.keys (PyDict.set k v d) = PyDict.keys d.
Proof.
  unfold PyDict.keys. induction d as [|[k0 v0] d IH]; [done|]. simpl.
  case_decide; [by subst|]. intros Hget. simpl. f_equal. by apply IH.
Qed.

Lemma keys_set_fresh k v d :
  PyDict.get k d = None →
  PyDict.keys (PyDict.set k v d) = PyDict.keys d ++ [k].
Proof.
  unfold PyDict.keys. induction d as [|[k0 v0] d IH]; [done|]. simpl.
  case_decide; [done|]. intros Hget. simpl. f_equal. by apply IH.
Qed.

Lemma wf_set k v d : PyDict.wf d → PyDict.wf (PyDict.set k v d).
Proof.
  unfold PyDict.wf. intros Hd.
  destruct (PyDict.get k d) as [v0|] eqn:Hget.
  - rewrite keys_set_present; [done|congruence].
  - rewrite keys_set_fresh by done.
    apply NoDup_app. split_and!; [done| |apply NoDup_singleton].
    intros k' Hk' ->%list_elem_of_singleton.
    by apply get_None_keys in Hget.
Qed.

Lemma keys_del_sublist k d :
  PyDict.keys (PyDict.del k d) `sublist_of` PyDict.keys d.
Proof.
  unfold PyDict.keys. induction d as [|[k0 v0] d IH]; [done|]. simpl.
  case_decide; [by apply sublist_cons|by apply sublist_skip].
Qed.

Lemma wf_del k d : PyDict.wf d → PyDict.wf (PyDict.del k d).
Proof.
  unfold PyDict.wf. intros Hd.
  eapply sublist_NoDup; [done|apply keys_del_sublist].
Qed.

Lemma get_del_None k k' d :
  PyDict.get k d = None → PyDict.get k (PyDict.del k' d) = None.
Proof.
  induction d as [|[k0 v0] d IH]; [done|]. simpl.
  case_decide as Hk; [done|]. intros Hget.
  case_decide; [done|]. simpl. rewrite decide_False by done. by apply IH.
Qed.

Lemma Forall_set (Q : K * V → Prop) k v d :
  Q (k, v) → Forall Q d → Forall Q (PyDict.set k v d).
Proof.
  intros Hkv. induction 1 as [|[k0 v0] d Hh Ht IH]; simpl.
  - by repeat constructor.
  - case_decide; by constructor.
Qed.

Lemma Forall_del (Q : K * V → Prop) k d :
  Forall Q d → Forall Q (PyDict.del k d).
Proof.
  induction 1 as [|[k0 v0] d Hh Ht IH]; simpl; [constructor|].
  case_decide; [done|by constructor].
Qed.

Lemma Forall_get (Q : K * V → Prop) k v d :
  Forall Q d → PyDict.get k d = Some v → Q (k, v).
Proof.
  intros Hd Hget%get_elem_of. by eapply Forall_forall in Hd.
Qed.
End dict_facts.

(** ** Channel invariants *)

Section channel_invariants.
Implicit Types (ch : ChannelServer.t) (o : op).

(** Every operation leaves [banned] and [muted_to_muter] alone or rewrites
    them in one of the ways listed here. *)
Lemma add_line_fields name line ch :
  banned (add_line name line ch).1 = banned ch
  ∧ muted_to_muter (add_line name line ch).1 = muted_to_muter ch
  ∧ connected_clients (add_line name line ch).1 = connected_clients ch
  ∧ kicked (add_line name line ch).1 = kicked ch.
Proof. unfold add_line. by case_bool_decide. Qed.

Lemma message_loop_step_fields ch me line ch' event :
  message_loop_step ch me line = Some (ch', event) →
  banned ch' = banned ch ∧ muted_to_muter ch' = muted_to_muter ch.
Proof.
  unfold message_loop_step. intros Hstep.
  destruct (PyDict.get me (connected_clients ch)) as [user|]; [|done].
  simpl in Hstep. destruct (py_in user (kicked ch)); [by simplify_eq|].
  pose proof (add_line_fields user line ch) as (Hb & Hm & _).
  destruct (add_line user line ch) as [ch1 channel_line]. simpl in *.
  repeat case_match; simplify_option_eq; done.
Qed.

Lemma do_kick_fields ACCOUNTS user name verbose ch :
  banned (do_kick ACCOUNTS user name verbose ch).1 = banned ch
  ∧ muted_to_muter (do_kick ACCOUNTS user name verbose ch).1
    = muted_to_muter ch.
Proof. unfold do_kick. by repeat case_match. Qed.

Lemma add_ban_fields ACCOUNTS user name ch :
  muted_to_muter (add_ban ACCOUNTS user name ch).1 = muted_to_muter ch
  ∧ (banned (add_ban ACCOUNTS user name ch).1 = banned ch
     ∨ (name ∉ banned ch)
       ∧ banned (add_ban ACCOUNTS user name ch).1 = banned ch ++ [name]).
Proof.
  unfold add_ban. destruct (is_protected ACCOUNTS name ch) as [[p|] out].
  - destruct (py_in name (banned ch)) eqn:Hin; [by split; [|left]|].
    apply py_in_false in Hin.
    pose proof (do_kick_fields ACCOUNTS user name false
                  (with_banned (banned ch ++ [name]) ch)) as [Hb Hm].
    destruct (do_kick _ _ _ _ _) as [ch1 out1]. simpl in *.
    split; [done|]. right. by split.
  - by split; [|left].
Qed.

Lemma channel_wf_same ch ch' :
  banned ch' = banned ch → muted_to_muter ch' = muted_to_muter ch →
  channel_wf ch → channel_wf ch'.
Proof. intros Hb Hm [? ? ?]. split; by rewrite ?Hb, ?Hm. Qed.

Lemma no_self_mute_same A ch ch' :
  muted_to_muter ch' = muted_to_muter ch →
  no_self_mute A ch → no_self_mute A ch'.
Proof. unfold no_self_mute. by intros ->. Qed.

Lemma new_wf channel_name owner :
  channel_wf (ChannelServer.new channel_name owner).
Proof. split; simpl; [constructor|constructor|constructor]. Qed.

(** The loop of the cascade only shortens muter lists or drops keys. *)
Lemma clean_muters_Forall (Q : string * list string → Prop) name pending m :
  (∀ k v, Q (k, v) → list_remove_first name v ≠ [] →
          Q (k, list_remove_first name v)) →
  Forall Q m → Forall Q (clean_muters name pending m).2.
Proof.
  intros HQ. revert m.
  induction pending as [|muted pending IH]; intros m Hm; [done|].
  simpl. destruct (PyDict.get muted m) as [muter|] eqn:Hget; [|done].
  destruct (py_in name muter); [|by apply IH].
  destruct (list_remove_first name muter) as [|x muter'] eqn:Hrm.
  - simpl. by apply Forall_del.
  - apply IH, Forall_set; [|done]. rewrite <-Hrm. apply HQ.
    + by eapply Forall_get.
    + by rewrite Hrm.
Qed.

Lemma clean_muters_wf name pending m :
  PyDict.wf m → PyDict.wf (clean_muters name pending m).2.
Proof.
  revert m. induction pending as [|muted pending IH]; intros m Hm; [done|].
  simpl. destruct (PyDict.get muted m) as [muter|] eqn:Hget; [|done].
  destruct (py_in name muter); [|by apply IH].
  destruct (list_remove_first name muter) as [|x muter'] eqn:Hrm.
  - simpl. by apply wf_del.
  - by apply IH, wf_set.
Qed.

Lemma clean_name_from_channel_fields name ch :
  let ch' := (clean_name_from_channel name ch).2 in
  banned ch' = list_remove_all name (banned ch)
  ∧ muted_to_muter ch'
    = (clean_muters name
         (PyDict.keys (if PyDict.contains name (muted_to_muter ch)
                       then PyDict.del name (muted_to_muter ch)
                       else muted_to_muter ch))
         (if PyDict.contains name (muted_to_muter ch)
          then PyDict.del name (muted_to_muter ch)
          else muted_to_muter ch)).2.
Proof.
  unfold clean_name_from_channel. simpl.
  by destruct (clean_muters _ _ _) as [r m].
Qed.

Lemma apply_op_wf ch o : channel_wf ch → channel_wf (apply_op ch o).
Proof.
  intros Hwf.
destruct o as [ident user|ident|ident line|A muted user|muted user|A user target
              |target|A user target|size|size| | |user|target
              |user| |user|A new_owner|word| |new_name]; simpl.
  - by apply (channel_wf_same ch).
  - unfold handle_finally.
    destruct (PyDict.get ident (connected_clients ch)); [|done].
    by apply (channel_wf_same ch).
  - destruct (message_loop_step ch ident line) as [[ch' event]|] eqn:Hstep;
      [|done].
    apply message_loop_step_fields in Hstep as [Hb Hm].
    by apply (channel_wf_same ch).
  - (* add_mute *)
    destruct Hwf as [Hb Hk Hm]. unfold add_mute.
    destruct (account_exists A muted); [|by case_bool_decide].
    destruct (PyDict.get muted (muted_to_muter ch)) as [muters|] eqn:Hget.
    + destruct (py_in user muters) eqn:Hin; [done|].
      apply py_in_false in Hin.
      split; simpl; [done|by apply wf_set|].
      apply Forall_set; [|done]. simpl.
      split; [by destruct muters|].
      apply NoDup_app. split_and!.
      * by eapply (Forall_get _ muted muters) in Hm as [_ ?].
      * by intros x Hx ->%list_elem_of_singleton.
      * apply NoDup_singleton.
    + split; simpl; [done|by apply wf_set|].
      apply Forall_set; [|done]. simpl.
      split; [done|apply NoDup_singleton].
  - (* del_mute *)
    destruct Hwf as [Hb Hk Hm]. unfold del_mute.
    case_bool_decide; [|done].
    destruct (PyDict.get muted (muted_to_muter ch)) as [muters|] eqn:Hget;
      [|done].
    destruct (py_in user muters); [|done].
    destruct (list_remove_first user muters) as [|x l] eqn:Hrm.
    + split; simpl; [done|by apply wf_del|by apply Forall_del].
    + split; simpl; [done|by apply wf_set|].
      apply Forall_set; [|done]. simpl. split; [done|].
      rewrite <-Hrm. apply list_remove_first_NoDup.
      by eapply (Forall_get _ muted muters) in Hm as [_ ?].
  - (* add_ban *)
    destruct (privileged A user ch); [|done].
    destruct Hwf as [Hb Hk Hm].
    destruct (add_ban_fields A user target ch)
      as [Hm' [Hb'|[Hnotin Hb']]].
    + by apply (channel_wf_same ch).
    + split; rewrite ?Hm', ?Hb'; [|done..].
      apply NoDup_app. split_and!; [done| |apply NoDup_singleton].
      by intros x Hx ->%list_elem_of_singleton.
  - (* del_ban *)
    destruct Hwf as [Hb Hk Hm]. unfold del_ban.
    destruct (py_in target (banned ch)); [|done].
    split; simpl; [|done..]. by apply list_remove_first_NoDup.
  - destruct (do_kick_fields A user target true ch).
    by apply (channel_wf_same ch).
  - by apply (channel_wf_same ch).
  - by apply (channel_wf_same ch).
  - by apply (channel_wf_same ch).
  - by apply (channel_wf_same ch).
  - split; simpl; constructor.
  - (* the deletion cascade *)
    destruct Hwf as [Hb Hk Hm].
    destruct (clean_name_from_channel_fields target ch) as [Hb' Hm'].
    split; rewrite ?Hb', ?Hm'.
    + by apply list_remove_all_NoDup.
    + apply clean_muters_wf. case_match; [by apply wf_del|done].
    + apply clean_muters_Forall.
      * intros k v [_ Hv] Hne. simpl. split; [done|].
        by apply list_remove_first_NoDup.
      * case_match; [by apply Forall_del|done].
  - unfold dispatch. repeat case_match; by apply (channel_wf_same ch).
  - by apply (channel_wf_same ch).
  - split; simpl; constructor.
  - unfold do_owner. repeat case_match; by apply (channel_wf_same ch).
  - unfold do_password_set. case_match; by apply (channel_wf_same ch).
  - by apply (channel_wf_same ch).
  - unfold renamed. case_match; by apply (channel_wf_same ch).
Qed.

Lemma run_wf ops ch : channel_wf ch → channel_wf (run ops ch).
Proof.
  unfold run. revert ch.
  induction ops as [|o ops IH]; intros ch Hwf; [done|].
  simpl. by apply IH, apply_op_wf.
Qed.

Lemma reachable_wf ch : reachable ch → channel_wf ch.
Proof. intros (n & w & ops & ->). apply run_wf, new_wf. Qed.

Lemma apply_op_no_self A ch o :
  self_mute A o = false → no_self_mute A ch → no_self_mute A (apply_op ch o).
Proof.
  intros Hself Hns.
  destruct o as [ident user|ident|ident line|ACCOUNTS muted user|muted user
                |ACCOUNTS user target|target|ACCOUNTS user target|size|size
                | | |user|target|user| |user|ACCOUNTS new_owner|word|
                |new_name]; simpl.
  - by apply (no_self_mute_same A ch).
  - unfold handle_finally.
    destruct (PyDict.get ident (connected_clients ch)); [|done].
    by apply (no_self_mute_same A ch).
  - destruct (message_loop_step ch ident line) as [[ch' event]|] eqn:Hstep;
      [|done].
    apply message_loop_step_fields in Hstep as [Hb Hm].
    by apply (no_self_mute_same A ch).
  - (* add_mute, not by [A] on [A] *)
    simpl in Hself. apply bool_decide_eq_false in Hself.
    unfold add_mute.
    destruct (account_exists ACCOUNTS muted); [|by case_bool_decide].
    destruct (PyDict.get muted (muted_to_muter ch)) as [muters|] eqn:Hget.
    + destruct (py_in user muters) eqn:Hin; [done|].
      unfold no_self_mute. simpl. apply Forall_set; [|done]. simpl.
      intros Hmuted [Hin'|Huser%list_elem_of_singleton]%elem_of_app;
        [|by destruct Hself].
      by eapply (Forall_get _ muted muters) in Hns; [apply Hns|].
    + unfold no_self_mute. simpl. apply Forall_set; [|done]. simpl.
      intros Hmuted Huser%list_elem_of_singleton. by destruct Hself.
  - unfold del_mute.
    case_bool_decide; [|done].
    destruct (PyDict.get muted (muted_to_muter ch)) as [muters|] eqn:Hget;
      [|done].
    destruct (py_in user muters); [|done].
    unfold no_self_mute. simpl.
    destruct (list_remove_first user muters) as [|x l] eqn:Hrm.
    + by apply Forall_del.
    + apply Forall_set; [|done]. simpl. rewrite <-Hrm.
      intros Hmuted Hin%list_remove_first_subseteq.
      by eapply (Forall_get _ muted muters) in Hns; [apply Hns|].
  - destruct (privileged ACCOUNTS user ch); [|done].
    destruct (add_ban_fields ACCOUNTS user target ch) as [Hm' _].
    by apply (no_self_mute_same A ch).
  - unfold del_ban. by destruct (py_in target (banned ch)).
  - destruct (do_kick_fields ACCOUNTS user target true ch).
    by apply (no_self_mute_same A ch).
  - done.
  - done.
  - done.
  - done.
  - constructor.
  - destruct (clean_name_from_channel_fields target ch) as [Hb' Hm'].
    unfold no_self_mute. rewrite Hm'.
    apply clean_muters_Forall.
    + intros k v Hk _ Hmuted Hin%list_remove_first_subseteq. by apply Hk.
    + case_match; [by apply Forall_del|done].
  - unfold dispatch. repeat case_match; by apply (no_self_mute_same A ch).
  - done.
  - constructor.
  - unfold do_owner. repeat case_match; by apply (no_self_mute_same A ch).
  - unfold do_password_set. by case_match.
  - done.
  - unfold renamed. by case_match.
Qed.
End channel_invariants.

(** ** Mutes and bans *)

Lemma run_no_self A ops ch :
  Forall (λ o, self_mute A o = false) ops →
  no_self_mute A ch → no_self_mute A (run ops ch).
Proof.
  unfold run. intros Hops. revert ch.
  induction Hops as [|o ops Ho Hops IH]; intros ch Hns; [done|].
  simpl. by apply IH, apply_op_no_self.
Qed.

Lemma no_self_mute_muters_of ch A : no_self_mute A ch → A ∉ muters_of A ch.
Proof.
  unfold no_self_mute, muters_of. intros Hns.
  destruct (PyDict.get A (muted_to_muter ch)) as [muters|] eqn:Hget.
  - by eapply (Forall_get _ A muters) in Hns; [apply Hns|].
  - apply not_elem_of_nil.
Qed.

(** A name that is a muter of itself got there by its own [mute add]. *)
Lemma self_muter_ran_mute_add A ops ch :
  no_self_mute A ch →
  A ∈ muters_of A (run ops ch) →
  ∃ ACCOUNTS, MuteAdd ACCOUNTS A A ∈ ops.
Proof.
  intros Hns Hin.
  destruct (decide (Forall (λ o, self_mute A o = false) ops)) as [Hall|Hex].
  - pose proof (run_no_self A ops ch Hall Hns) as Hrun.
    by apply no_self_mute_muters_of in Hrun.
  - apply not_Forall_Exists in Hex; [|apply _].
    apply Exists_exists in Hex as (o & Ho & Hself).
    destruct o; simpl in Hself; try done.
    case_bool_decide as Heq; [|done]. destruct Heq as [-> ->].
    by eexists.
Qed.

(** C7 (as stated) fails: after [alice] runs [:mute add alice] in a channel,
    [alice] is a key of [muted_to_muter] and a member of the list stored
    under that key. *)
Lemma self_mute_reachable :
  reachable demo_self_muted
  ∧ "alice" ∈ PyDict.keys (muted_to_muter demo_self_muted)
  ∧ "alice" ∈ muters_of "alice" demo_self_muted.
Proof.
  split_and!.
  - by exists "main", "alice",
      (demo_entries ++ [MuteAdd demo_accounts "alice" "alice"]).
  - vm_compute. left.
  - vm_compute. left.
Qed.

(** C7 (amended). In every reachable channel state no name occurs twice in
    [banned]; and a name [A] is among the muters recorded under the key [A]
    only if one of the operations on the way was [mute add A] run by [A]:
    nobody else's self-mute, and no other command, puts [A] there. *)
Theorem banned_unique_self_mute_by_self (channel_name owner : string)
    (ops : list op) :
  let ch := run ops (ChannelServer.new channel_name owner) in
  NoDup (banned ch)
  ∧ ∀ A, A ∈ muters_of A ch → ∃ ACCOUNTS, MuteAdd ACCOUNTS A A ∈ ops.
Proof.
  intros ch. split.
  - apply run_wf, new_wf.
  - intros A. apply self_muter_ran_mute_add. constructor.
Qed.

Lemma banned_unique_self_mute_by_self_witness :
  NoDup (banned demo_self_muted)
  ∧ ("alice" ∈ muters_of "alice" demo_self_muted)
  ∧ ∃ ACCOUNTS,
      MuteAdd ACCOUNTS "alice" "alice"
      ∈ demo_entries ++ [MuteAdd demo_accounts "alice" "alice"].
Proof.
  destruct (banned_unique_self_mute_by_self "main" "alice"
              (demo_entries ++ [MuteAdd demo_accounts "alice" "alice"]))
    as [Hbanned Hself].
  split; [exact Hbanned|].
  assert ("alice" ∈ muters_of "alice" demo_self_muted) as Hin.
  { vm_compute. left. }
  split; [exact Hin|]. exact (Hself "alice" Hin).
Defined.

(** C6 (as stated) fails: [bob] has already muted [alice]; his [mute add
    alice] changes nothing and his [mute del alice] then removes the entry
    that was there before. *)
Lemma mute_add_del_not_neutral :
  reachable demo_muted
  ∧ account_exists demo_accounts "alice" = true
  ∧ muted_to_muter
      (del_mute "alice" "bob"
         (add_mute demo_accounts "alice" "bob" demo_muted).1).1
    ≠ muted_to_muter demo_muted.
Proof.
  split_and!.
  - by exists "main", "alice",
      (demo_entries ++ [MuteAdd demo_accounts "alice" "bob"]).
  - reflexivity.
  - vm_compute. discriminate.
Qed.

(** C6 (amended). In a reachable channel state, for an existing account
    with a non-empty name [X] that the caller has not muted yet,
    [mute add X] followed by [mute del X] by the same caller gives back the
    channel, and so its [muted_to_muter], exactly. *)
Theorem mute_add_del_restores (ACCOUNTS : gmap string Account.t)
    (ch : ChannelServer.t) (X caller : string) :
  reachable ch →
  account_exists ACCOUNTS X = true →
  X ≠ "" →
  caller ∉ muters_of X ch →
  (del_mute X caller (add_mute ACCOUNTS X caller ch).1).1 = ch.
Proof.
  intros [_ _ Hm]%reachable_wf Hexists HX Hnew.
  unfold add_mute, muters_of in *. rewrite Hexists.
  destruct ch as [cn ow pw bf bs rs st cc m2m kk bb an]. simpl in *.
  destruct (PyDict.get X m2m) as [muters|] eqn:Hget; simpl in Hnew.
  - apply py_in_false in Hnew as Hin. rewrite Hin.
    unfold del_mute. simpl. rewrite bool_decide_eq_true_2 by done.
    rewrite get_set_eq.
    replace (py_in caller (muters ++ [caller])) with true
      by (symmetry; apply py_in_true, elem_of_app; right; left).
    rewrite list_remove_first_app_last by done.
    apply (Forall_get _ X muters) in Hm as [Hne _]; [|done].
    destruct muters as [|x muters]; [done|].
    unfold with_muted_to_muter. simpl. f_equal.
    rewrite set_set. by apply set_get_id.
  - unfold del_mute. simpl. rewrite bool_decide_eq_true_2 by done.
    rewrite get_set_eq.
    replace (py_in caller [caller]) with true
      by (symmetry; apply py_in_true; left).
    simpl. rewrite decide_True by done.
    unfold with_muted_to_muter. simpl. f_equal.
    by apply del_set_fresh.
Qed.

Lemma mute_add_del_restores_witness :
  (del_mute "alice" "bob"
     (add_mute demo_accounts "alice" "bob" demo_channel).1).1 = demo_channel.
Proof.
  apply (mute_add_del_restores demo_accounts demo_channel "alice" "bob").
  - by exists "main", "alice", demo_entries.
  - reflexivity.
  - discriminate.
  - vm_compute. apply not_elem_of_nil.
Defined.

(** ** Broadcast *)

Lemma broadcast_spec ch me user channel_line echo :
  PyDict.get me (connected_clients ch) = Some user →
  ∃ recipients,
    broadcast ch me channel_line echo = Some recipients
    ∧ ∀ d, d ∈ recipients ↔
           d ∈ connected_clients ch
           ∧ (d.2 ∉ kicked ch)
           ∧ (d.2 ∉ muters_of (ChannelLine.source channel_line) ch)
           ∧ (echo = true ∨ d.1 ≠ me).
Proof.
  intros Hme. unfold broadcast. rewrite Hme. simpl.
  eexists. split; [done|]. intros d.
  rewrite list_elem_of_In, filter_In, <-list_elem_of_In.
  unfold muters_of.
  destruct (py_in d.2 (kicked ch)) eqn:Hk;
    [apply py_in_true in Hk|apply py_in_false in Hk].
  { intuition discriminate. }
  destruct (py_in d.2 _) eqn:Hm;
    [apply py_in_true in Hm|apply py_in_false in Hm].
  { intuition discriminate. }
  destruct echo; [intuition|].
  rewrite bool_decide_eq_true. intuition discriminate.
Qed.

(** A plain line of a connected user who is not on the kick list: the line
    is stored by [add_line] and broadcast with [echo = True]; storing it does
    not change who receives it. *)
Lemma message_loop_step_plain ch me U line :
  PyDict.get me (connected_clients ch) = Some U →
  U ∉ kicked ch →
  is_command line = false →
  ∃ recipients,
    message_loop_step ch me line
    = Some ((add_line U line ch).1,
            Broadcast (ChannelLine.mk U line) recipients)
    ∧ broadcast ch me (ChannelLine.mk U line) true = Some recipients
    ∧ ∀ d, d ∈ recipients ↔
           d ∈ connected_clients ch
           ∧ (d.2 ∉ kicked ch) ∧ (d.2 ∉ muters_of U ch).
Proof.
  intros Hme Hkick Hline.
  unfold message_loop_step. rewrite Hme. simpl.
  apply py_in_false in Hkick as Hkick'. rewrite Hkick', Hline.
  pose proof (add_line_fields U line ch) as (_ & Hm & Hc & Hk).
  assert ((add_line U line ch).2 = ChannelLine.mk U line) as Hl.
  { unfold add_line. by case_bool_decide. }
  destruct (add_line U line ch) as [ch1 channel_line]. simpl in *.
  subst channel_line.
  destruct (broadcast_spec ch me U (ChannelLine.mk U line) true Hme)
    as (recipients & Hb & Hrec).
  assert (broadcast ch1 me (ChannelLine.mk U line) true = Some recipients)
    as ->.
  { rewrite <-Hb. unfold broadcast. by rewrite Hc, Hm, Hk. }
  exists recipients. split; [done|]. split; [done|].
  intros d. rewrite Hrec. simpl. intuition.
Qed.

(** C4 (as stated) fails for EVENT lines: [bob] has muted [alice], yet the
    event that [alice] is joining is echoed to [bob]. *)
Lemma event_reaches_muter :
  PyDict.get 1 (connected_clients demo_muted) = Some "alice"
  ∧ "bob" ∈ muters_of "alice" demo_muted
  ∧ ("bob" ∉ kicked demo_muted)
  ∧ ∃ recipients,
      broadcast demo_muted 1 (joining "alice") false = Some recipients
      ∧ (2, "bob") ∈ recipients.
Proof.
  split_and!; [reflexivity|vm_compute; left|vm_compute; apply not_elem_of_nil|].
  eexists. split; [reflexivity|]. vm_compute. left.
Qed.

(** The two events of a visit: the line is built with the source [EVENT]
    and broadcast without echo, whether or not the client is on the kick
    list. *)
Lemma event_recipients ch me U event :
  PyDict.get me (connected_clients ch) = Some U →
  ChannelLine.source event = "EVENT" →
  ∃ recipients,
    broadcast ch me event false = Some recipients
    ∧ ∀ d, d ∈ recipients ↔
           d ∈ connected_clients ch
           ∧ (d.2 ∉ kicked ch) ∧ (d.2 ∉ muters_of "EVENT" ch)
           ∧ d.1 ≠ me.
Proof.
  intros Hme Hsource.
  destruct (broadcast_spec ch me U event false Hme)
    as (recipients & -> & Hrec).
  exists recipients. split; [done|]. intros d. rewrite Hrec, Hsource.
  intuition discriminate.
Qed.

(** C4 (amended). Let [U] be connected as worker [me].
    - A plain message of [U] (not kicked) is appended by [add_line] and
      echoed to exactly the connected clients whose name is neither in
      [kicked] nor in [muted_to_muter[U]]; the sender is one of these clients
      and gets the echo unless [U] has muted [U].
    - The EVENT lines announcing that [U] joins (top of [message_loop]) and
      leaves ([finally] of [run_channel]) are echoed, also when [U] is on
      the kick list, to exactly the connected clients other than the sender
      whose name is neither in [kicked] nor in [muted_to_muter['EVENT']]:
      the mute filter is keyed by the line's source, which is the literal
      [EVENT]. *)
Theorem broadcast_policy (ch : ChannelServer.t) (me : Z) (U line : string) :
  PyDict.get me (connected_clients ch) = Some U →
  (U ∉ kicked ch →
   is_command line = false →
   ∃ recipients,
     message_loop_step ch me line
     = Some ((add_line U line ch).1,
             Broadcast (ChannelLine.mk U line) recipients)
     ∧ (∀ d, d ∈ recipients ↔
             d ∈ connected_clients ch
             ∧ (d.2 ∉ kicked ch) ∧ (d.2 ∉ muters_of U ch))
     ∧ ((me, U) ∈ recipients ↔ U ∉ muters_of U ch))
  ∧ (∃ recipients,
       message_loop_enter ch me = Some (joining U, recipients)
       ∧ ∀ d, d ∈ recipients ↔
              d ∈ connected_clients ch
              ∧ (d.2 ∉ kicked ch) ∧ (d.2 ∉ muters_of "EVENT" ch)
              ∧ d.1 ≠ me)
  ∧ (∃ recipients,
       run_channel_finally ch me = Some (leaving U, recipients)
       ∧ ∀ d, d ∈ recipients ↔
              d ∈ connected_clients ch
              ∧ (d.2 ∉ kicked ch) ∧ (d.2 ∉ muters_of "EVENT" ch)
              ∧ d.1 ≠ me).
Proof.
  intros Hme. split_and!.
  - intros Hkick Hline.
    destruct (message_loop_step_plain ch me U line Hme Hkick Hline)
      as (recipients & Hstep & _ & Hrec).
    exists recipients. split_and!; [done..|].
    rewrite Hrec. simpl. apply get_elem_of in Hme. intuition.
  - destruct (event_recipients ch me U (joining U) Hme eq_refl)
      as (recipients & Hb & Hrec).
    exists recipients. split; [|done].
    unfold message_loop_enter. rewrite Hme. simpl. by rewrite Hb.
  - destruct (event_recipients ch me U (leaving U) Hme eq_refl)
      as (recipients & Hb & Hrec).
    exists recipients. split; [|done].
    unfold run_channel_finally. rewrite Hme. simpl. by rewrite Hb.
Qed.

Lemma broadcast_policy_witness :
  (∃ recipients,
     message_loop_step demo_muted 1 "hello"
     = Some ((add_line "alice" "hello" demo_muted).1,
             Broadcast (ChannelLine.mk "alice" "hello") recipients)
     ∧ (∀ d, d ∈ recipients ↔
             d ∈ connected_clients demo_muted
             ∧ (d.2 ∉ kicked demo_muted)
             ∧ (d.2 ∉ muters_of "alice" demo_muted))
     ∧ ((1, "alice") ∈ recipients
        ↔ "alice" ∉ muters_of "alice" demo_muted))
  ∧ (∃ recipients,
       message_loop_enter demo_muted 1 = Some (joining "alice", recipients)
       ∧ ∀ d, d ∈ recipients ↔
              d ∈ connected_clients demo_muted
              ∧ (d.2 ∉ kicked demo_muted)
              ∧ (d.2 ∉ muters_of "EVENT" demo_muted)
              ∧ d.1 ≠ 1)
  ∧ (∃ recipients,
       run_channel_finally demo_muted 1 = Some (leaving "alice", recipients)
       ∧ ∀ d, d ∈ recipients ↔
              d ∈ connected_clients demo_muted
              ∧ (d.2 ∉ kicked demo_muted)
              ∧ (d.2 ∉ muters_of "EVENT" demo_muted)
              ∧ d.1 ≠ 1).
Proof.
  destruct (broadcast_policy demo_muted 1 "alice" "hello" eq_refl)
    as (Hplain & Hjoin & Hleave).
  split_and!; [|exact Hjoin|exact Hleave].
  apply Hplain.
  - vm_compute. apply not_elem_of_nil.
  - reflexivity.
Defined.

(** [bob] has been kicked and his message loop has ended: the event that he
    is leaving, sent before [handle] takes him off the kick list, is shown
    to [alice] and [carol]. *)
Example kicked_user_leave_event :
  "bob" ∈ kicked demo_kicked
  ∧ run_channel_finally demo_kicked 2
    = Some (leaving "bob", [(1, "alice"); (3, "carol")]).
Proof. split; [vm_compute; left|reflexivity]. Qed.

(** The mute scenario: [bob] has muted [alice]; her [hello] is echoed to
    herself and to [carol], not to [bob]. *)
Example mute_propagation :
  message_loop_step demo_muted 1 "hello"
  = Some ((add_line "alice" "hello" demo_muted).1,
          Broadcast (ChannelLine.mk "alice" "hello")
                    [(1, "alice"); (3, "carol")]).
Proof. reflexivity. Qed.

(** ** Buffer and replay *)

Lemma del_prefix_length {A} (k : Z) (l : list A) :
  0 ≤ k →
  Z.of_nat (length (del_prefix k l)) = Z.max (Z.of_nat (length l) - k) 0.
Proof.
  intros Hk. unfold del_prefix. rewrite bool_decide_eq_false_2 by lia.
  rewrite length_drop. lia.
Qed.

Lemma add_line_capacity name line ch :
  let ch' := (add_line name line ch).1 in
  (add_line name line ch).2 = ChannelLine.mk name line
  ∧ effective_capacity ch' = effective_capacity ch
  ∧ (effective_capacity ch = 0 ∧ buffer ch' = buffer ch
     ∨ effective_capacity ch ≠ 0
       ∧ buffer ch' `suffix_of` buffer ch ++ [ChannelLine.mk name line]
       ∧ Z.of_nat (length (buffer ch')) ≤ Z.max (effective_capacity ch) 0).
Proof.
  unfold add_line. case_bool_decide as Hcap; simpl.
  - split; [done|]. split; [done|]. right. split; [done|].
    case_bool_decide as Hlen.
    + split.
      * unfold del_prefix. case_bool_decide; apply suffix_drop.
      * rewrite del_prefix_length by lia. lia.
    + split; [done|]. lia.
  - split; [done|]. split; [done|]. left. split; [|done].
    by destruct (decide (effective_capacity ch = 0)).
Qed.

(** While nobody lowers the capacity the bound is an invariant: a buffer
    that fits still fits after [add_line]. *)
Lemma add_line_keeps_bound name line ch :
  0 ≤ effective_capacity ch →
  Z.of_nat (length (buffer ch)) ≤ effective_capacity ch →
  Z.of_nat (length (buffer (add_line name line ch).1))
  ≤ effective_capacity (add_line name line ch).1.
Proof.
  intros Hcap Hfit.
  destruct (add_line_capacity name line ch) as (_ & -> & [[_ ->]|(_ & _ & H)]);
    lia.
Qed.

(** C2 (as stated) fails: a line was stored while the channel had the
    default capacity, then the admin console set the buffer size to 0; the
    next [add_line] leaves the stored line in place, so the buffer is longer
    than the capacity 0, and the stored line is still replayed. *)
Lemma zero_capacity_keeps_stored_lines :
  let ch := (add_line "alice" "new" demo_shrunk).1 in
  reachable demo_shrunk
  ∧ effective_capacity ch = 0
  ∧ ¬ (Z.of_nat (length (buffer ch)) ≤ effective_capacity ch)
  ∧ replay_buffer ch = [ChannelLine.mk "alice" "old"].
Proof.
  split_and!.
  - by exists "main", "alice",
      (demo_entries ++ [Line 1 "old"; SetBuffer (Some 0)]).
  - reflexivity.
  - vm_compute. intros H. by apply H.
  - reflexivity.
Qed.

(** What [add_line] leaves in the buffer: the buffer as it was when the
    capacity is 0; the last [capacity] lines of the old buffer followed by
    the new line when it is positive.  A negative capacity, which [get_size]
    never returns, empties the buffer. *)
Lemma add_line_buffer name line ch :
  let ch' := (add_line name line ch).1 in
  let channel_line := ChannelLine.mk name line in
  let capacity := effective_capacity ch in
  capacity = 0 ∧ buffer ch' = buffer ch
  ∨ 0 < capacity
    ∧ buffer ch' = last_n capacity (buffer ch ++ [channel_line])
    ∧ last (buffer ch') = Some channel_line
    ∧ Z.of_nat (length (buffer ch'))
      = Z.min capacity (Z.of_nat (length (buffer ch)) + 1)
  ∨ capacity < 0 ∧ buffer ch' = [].
Proof.
  intros ch' channel_line capacity.
  assert (length (buffer ch ++ [channel_line]) = S (length (buffer ch)))
    as Hlen by (rewrite length_app; simpl; lia).
  destruct (decide (capacity = 0)) as [Hzero|Hcap]; [left|right].
  { split; [done|]. subst ch'. unfold add_line.
    by rewrite bool_decide_eq_false_2 by (fold capacity; lia). }
  assert (buffer ch'
          = drop (Z.to_nat (Z.max (Z.of_nat (S (length (buffer ch)))
                                   - capacity) 0))
                 (buffer ch ++ [channel_line])) as Hbuf.
  { subst ch'. unfold add_line. fold capacity. fold channel_line.
    rewrite bool_decide_eq_true_2 by done. simpl. rewrite Hlen.
    case_bool_decide as Hover; simpl.
    - unfold del_prefix. rewrite bool_decide_eq_false_2 by lia.
      f_equal. lia.
    - replace (Z.to_nat _) with 0%nat by lia. done. }
  destruct (decide (0 < capacity)) as [Hpos|Hneg]; [left|right].
  - split; [done|]. split; [by unfold last_n; rewrite Hlen|].
    rewrite Hbuf. split.
    + rewrite drop_app_le by lia. apply last_snoc.
    + rewrite length_drop, Hlen. lia.
  - split; [lia|]. rewrite Hbuf. apply drop_ge. lia.
Qed.

(** C2 (amended). A plain line read from a connected, not kicked user is
    broadcast whatever the capacity is.  When the effective capacity
    [min(buffer_size ?? 10000, 10000)] is positive, the buffer afterwards is
    exactly the last [capacity] lines of the old buffer followed by the new
    line: the line is stored, last, and only the oldest lines beyond the
    capacity are dropped.  When the capacity is 0 the buffer is left exactly
    as it was, so the line is not stored and what was stored stays. *)
Theorem message_line_capacity (ch : ChannelServer.t) (me : Z)
    (U line : string) :
  PyDict.get me (connected_clients ch) = Some U →
  U ∉ kicked ch →
  is_command line = false →
  let ch' := (add_line U line ch).1 in
  let channel_line := ChannelLine.mk U line in
  let capacity := effective_capacity ch in
  (∃ recipients,
     message_loop_step ch me line
     = Some (ch', Broadcast channel_line recipients)
     ∧ broadcast ch me channel_line true = Some recipients)
  ∧ (capacity = 0 ∧ buffer ch' = buffer ch
     ∨ 0 < capacity
       ∧ buffer ch' = last_n capacity (buffer ch ++ [channel_line])
       ∧ last (buffer ch') = Some channel_line
       ∧ Z.of_nat (length (buffer ch'))
         = Z.min capacity (Z.of_nat (length (buffer ch)) + 1)
     ∨ capacity < 0 ∧ buffer ch' = []).
Proof.
  intros Hme Hkick Hline ch' channel_line capacity. split.
  - destruct (message_loop_step_plain ch me U line Hme Hkick Hline)
      as (recipients & Hstep & Hb & _).
    by exists recipients.
  - apply add_line_buffer.
Qed.

Lemma message_line_capacity_witness :
  let ch' := (add_line "alice" "three" demo_full).1 in
  let channel_line := ChannelLine.mk "alice" "three" in
  let capacity := effective_capacity demo_full in
  (∃ recipients,
     message_loop_step demo_full 1 "three"
     = Some (ch', Broadcast channel_line recipients)
     ∧ broadcast demo_full 1 channel_line true = Some recipients)
  ∧ (capacity = 0 ∧ buffer ch' = buffer demo_full
     ∨ 0 < capacity
       ∧ buffer ch' = last_n capacity (buffer demo_full ++ [channel_line])
       ∧ last (buffer ch') = Some channel_line
       ∧ Z.of_nat (length (buffer ch'))
         = Z.min capacity (Z.of_nat (length (buffer demo_full)) + 1)
     ∨ capacity < 0 ∧ buffer ch' = []).
Proof.
  apply (message_line_capacity demo_full 1 "alice" "three").
  - reflexivity.
  - vm_compute. apply not_elem_of_nil.
  - reflexivity.
Defined.

(** The full buffer of capacity 2 loses its oldest line and gains the new
    one; with capacity 0 the line stored earlier stays and the new one is
    not stored. *)
Example full_buffer_drops_oldest :
  buffer demo_full = [ChannelLine.mk "alice" "one"; ChannelLine.mk "bob" "two"]
  ∧ buffer (add_line "alice" "three" demo_full).1
    = [ChannelLine.mk "bob" "two"; ChannelLine.mk "alice" "three"]
  ∧ buffer (add_line "alice" "new" demo_shrunk).1
    = [ChannelLine.mk "alice" "old"].
Proof. by split_and!. Qed.

Lemma last_n_suffix {A} (n : Z) (l : list A) :
  last_n n l `suffix_of` l
  ∧ (0 ≤ n → length (last_n n l) = min (Z.to_nat n) (length l)).
Proof.
  unfold last_n. split; [apply suffix_drop|].
  intros Hn. rewrite length_drop. lia.
Qed.

Lemma replay_buffer_positive ch n :
  0 < n → replay_buffer (do_replay (Some n) ch) = last_n n (buffer ch).
Proof.
  intros Hn. unfold replay_buffer, do_replay.
  cbn [replay_size buffer with_replay_size].
  by rewrite bool_decide_eq_true_2 by lia.
Qed.

(** C5. On entry the channel replays: the whole buffer, in order, when
    [replay_size] is null; nothing when it is 0; and for a positive
    [replay_size] the suffix of the buffer that holds its last [replay_size]
    lines (all of them when the buffer is shorter).  After [L1] ... [L12]
    with the default replay size 10 the entrant gets [[alice] L3] ...
    [[alice] L12]. *)
Theorem replay_buffer_last_lines (ch : ChannelServer.t) (p : positive) :
  replay_buffer (do_replay None ch) = buffer ch
  ∧ replay_buffer (do_replay (Some 0) ch) = []
  ∧ replay_buffer (do_replay (Some (Z.pos p)) ch) `suffix_of` buffer ch
  ∧ length (replay_buffer (do_replay (Some (Z.pos p)) ch))
    = min (Pos.to_nat p) (length (buffer ch))
  ∧ replay_size demo_twelve = Some 10
  ∧ ChannelLine.render <$> replay_buffer demo_twelve
    = ["[alice] L3"; "[alice] L4"; "[alice] L5"; "[alice] L6"; "[alice] L7";
       "[alice] L8"; "[alice] L9"; "[alice] L10"; "[alice] L11";
       "[alice] L12"]%string.
Proof.
  split_and!; [done|done| | |done|reflexivity].
  - rewrite replay_buffer_positive by lia. apply last_n_suffix.
  - rewrite replay_buffer_positive by lia.
    destruct (last_n_suffix (Z.pos p) (buffer ch)) as [_ ->]; lia.
Qed.

(** ** Account deletion *)

(** C1 at a concrete state.  [carol] has muted [alice] and [bob] in [main]
    and is on its kick list when her account is deleted.  The cascade
    empties the muter list of [alice], deletes that key while iterating over
    the dictionary and stops with [RuntimeError]: [carol] is still a muter
    of [bob], and the kick list, which the cascade never looks at, still
    names her. *)
Theorem delete_account_leaves_references :
  ∃ g ch,
    delete_account "carol" demo_globals = (Raise RuntimeError, g)
    ∧ ACCOUNTS g !! "carol" = None
    ∧ CHANNELS g !! 1 = Some ch
    ∧ "carol" ∈ kicked ch
    ∧ "carol" ∈ muters_of "bob" ch.
Proof.
  eexists _, _. split_and!.
  - reflexivity.
  - reflexivity.
  - reflexivity.
  - vm_compute. left.
  - vm_compute. left.
Qed.

(** The contact lists are purged, whatever happens in the channels. *)
Lemma delete_account_contacts name g other account :
  (∀ k a, ACCOUNTS g !! k = Some a → NoDup (Account.contacts a)) →
  account_exists (ACCOUNTS g) name = true →
  ACCOUNTS (delete_account name g).2 !! other = Some account →
  other ≠ name ∧ name ∉ Account.contacts account.
Proof.
  intros Hnodup Hexists. unfold delete_account. rewrite Hexists.
  destruct (clean_name_from_channels _ _ _) as [r channels]. simpl.
  rewrite lookup_fmap. intros Hother.
  destruct (decide (other = name)) as [->|Hne].
  { by rewrite lookup_delete_eq in Hother. }
  split; [done|]. rewrite lookup_delete_ne in Hother by done.
  destruct (ACCOUNTS g !! other) as [a|] eqn:Ha; [|done].
  simpl in Hother. injection Hother as <-. unfold forget_contact.
  destruct (py_in name (Account.contacts a)) eqn:Hin.
  - simpl. eapply list_remove_first_NoDup_notin, Hnodup. done.
  - by apply py_in_false.
Qed.

(** The parts of the cascade that do hold for one channel: the name is gone
    from [banned] and is no longer a key. *)
Lemma clean_muters_keys name pending m k :
  PyDict.get k m = None → PyDict.get k (clean_muters name pending m).2 = None.
Proof.
  revert m. induction pending as [|muted pending IH]; intros m Hk; [done|].
  simpl. destruct (PyDict.get muted m) as [muter|] eqn:Hget; [|done].
  destruct (py_in name muter); [|by apply IH].
  destruct (list_remove_first name muter) as [|x l].
  - simpl. by apply get_del_None.
  - apply IH. rewrite get_set_ne; [done|]. intros <-. congruence.
Qed.

Lemma get_del_eq {V} (k : string) (d : list (string * V)) :
  PyDict.wf d → PyDict.get k (PyDict.del k d) = None.
Proof.
  unfold PyDict.wf, PyDict.keys.
  induction d as [|[k0 v0] d IH]; [done|]. simpl.
  intros [Hk0 Hd]%NoDup_cons. case_decide as Hk; [subst|].
  - by apply get_None_keys.
  - simpl. rewrite decide_False by done. by apply IH.
Qed.

Lemma clean_name_from_channel_purges name ch :
  PyDict.wf (muted_to_muter ch) →
  let ch' := (clean_name_from_channel name ch).2 in
  (name ∉ banned ch') ∧ (name ∉ PyDict.keys (muted_to_muter ch')).
Proof.
  intros Hwf ch'.
  destruct (clean_name_from_channel_fields name ch) as [Hb Hm].
  subst ch'. rewrite Hb, Hm. split; [apply list_remove_all_notin|].
  apply get_None_keys, clean_muters_keys.
  unfold PyDict.contains.
  destruct (PyDict.get name (muted_to_muter ch)) eqn:Hget; [|done].
  by apply get_del_eq.
Qed.

(** ** The forgiveness trap *)

Ltac run_handler :=
  unfold mbind, M_bind, bind, mret, M_ret, ret, raise, globals, client,
    set_globals, set_client, lift_globals; simpl.

Lemma alter_known `{Countable K} {V} (f : V → V) (k : K) (m : gmap K V)
    (a : V) :
  m !! k = Some a → alter f k m = <[k := f a]> m.
Proof.
  intros Hk. apply map_eq. intros i.
  destruct (decide (i = k)) as [->|Hi].
  - by rewrite lookup_alter_eq, lookup_insert_eq, Hk.
  - by rewrite lookup_alter_ne, lookup_insert_ne.
Qed.

Lemma do_login_enters g c user word account :
  ACCOUNTS g !! user = Some account →
  Account.password account = word →
  Account.online account = false →
  do_login [user; word] (g, c)
  = (Return InsideMenu,
     (with_ACCOUNTS
        (<[user := Account.mk (Account.administrator account) true word
                     (Account.contacts account) (Account.messages account)
                     (Account.forgiven account)]> (ACCOUNTS g)) g,
      with_name (Some user) c)).
Proof.
  intros Hreg Hword Hoffline.
  unfold do_login, arg_or_input, login_account, set_account. run_handler.
  rewrite Hreg, Hword, bool_decide_eq_true_2, Hoffline by done. simpl.
  rewrite (alter_known _ _ _ account) by done. by rewrite Hword.
Qed.

Lemma do_admin_forgiven g c user account :
  name c = Some user →
  ACCOUNTS g !! user = Some account →
  Account.administrator account = false →
  Account.forgiven account < MAX_FORGIVENESS →
  closed c = false →
  do_admin [] (g, c)
  = (Return EOFError,
     (with_ACCOUNTS
        (<[user := Account.mk false (Account.online account)
                     (Account.password account) (Account.contacts account)
                     (Account.messages account)
                     (Account.forgiven account + 1)]> (ACCOUNTS g)) g,
      with_outgoing (outgoing c ++ ["You are not authorized to be here."])
                    c)).
Proof.
  intros Hname Hreg Hplain Hlt Hopen.
  unfold do_admin, client_account, set_account, print. run_handler.
  rewrite Hname, Hreg. simpl. rewrite Hplain. simpl.
  rewrite bool_decide_eq_false_2 by lia. simpl.
  rewrite Hopen. simpl.
  rewrite (alter_known _ _ _ account) by done. by rewrite Hplain.
Qed.

Lemma leave_inside_menu_unbinds g c user account :
  name c = Some user →
  ACCOUNTS g !! user = Some account →
  leave_inside_menu (g, c)
  = (Return (),
     (with_ACCOUNTS
        (<[user := Account.mk (Account.administrator account) false
                     (Account.password account) (Account.contacts account)
                     (Account.messages account) (Account.forgiven account)]>
           (ACCOUNTS g)) g,
      with_name None c)).
Proof.
  intros Hname Hreg.
  unfold leave_inside_menu, client_account, set_account. run_handler.
  rewrite Hname, Hreg. simpl.
  by rewrite (alter_known _ _ _ account).
Qed.

(** The trap itself: the address is blocked and the account is gone
    whatever the cascade through the channels does; when the cascade
    returns, the three farewell lines are printed and the client is
    closed. *)
Lemma do_admin_trap g c user account :
  name c = Some user →
  ACCOUNTS g !! user = Some account →
  Account.administrator account = false →
  Account.forgiven account >= MAX_FORGIVENESS →
  closed c = false →
  ∃ r g' c',
    do_admin [] (g, c) = (r, (g', c'))
    ∧ (∀ v, r ≠ Return v)
    ∧ BLOCKED g' = BLOCKED g ++ [address c]
    ∧ ACCOUNTS g' !! user = None
    ∧ ((clean_name_from_channels user (get_channels g) (CHANNELS g)).1
         ≠ Return ()
       ∨ r = Raise SystemExit ∧ closed c' = true).
Proof.
  intros Hname Hreg Hplain Hge Hopen.
  unfold do_admin, client_account, print, close. run_handler.
  rewrite Hname, Hreg. simpl. rewrite Hplain. simpl.
  rewrite bool_decide_eq_true_2 by done. simpl.
  unfold delete_account, account_exists. simpl.
  rewrite bool_decide_eq_true_2 by (by rewrite Hreg). simpl.
  change (get_channels (with_ACCOUNTS _ (with_BLOCKED _ g)))
    with (get_channels g).
  destruct (clean_name_from_channels user (get_channels g) (CHANNELS g))
    as [[[]|e|] channels]; simpl.
  - repeat (rewrite Hopen; simpl).
    eexists _, _, _. split; [done|]. simpl.
    split; [done|]. split; [done|]. split; [|by right].
    by rewrite lookup_fmap, lookup_delete_eq.
  - eexists _, _, _. split; [done|]. simpl.
    split; [done|]. split; [done|]. split; [|by left].
    by rewrite lookup_fmap, lookup_delete_eq.
  - eexists _, _, _. split; [done|]. simpl.
    split; [done|]. split; [done|]. split; [|by left].
    by rewrite lookup_fmap, lookup_delete_eq.
Qed.

Lemma visit_forgiven g c user word account :
  ACCOUNTS g !! user = Some account →
  Account.administrator account = false →
  Account.online account = false →
  Account.password account = word →
  closed c = false →
  Account.forgiven account < MAX_FORGIVENESS →
  login_then_admin user word (g, c)
  = (Return EOFError,
     (with_ACCOUNTS
        (<[user := Account.mk false false word (Account.contacts account)
                     (Account.messages account)
                     (Account.forgiven account + 1)]> (ACCOUNTS g)) g,
      with_name None
        (with_outgoing
           (outgoing c ++ ["You are not authorized to be here."]) c))).
Proof.
  intros Hreg Hplain Hoffline Hword Hopen Hlt.
  unfold login_then_admin, mbind, M_bind, bind.
  rewrite (do_login_enters g c user word account) by done.
  erewrite do_admin_forgiven;
    [|done|apply lookup_insert_eq|done|done|done].
  cbv beta iota.
  erewrite leave_inside_menu_unbinds; [|done|apply lookup_insert_eq].
  cbn. rewrite Hplain, !insert_insert_eq. reflexivity.
Qed.

Lemma visit_trap g c user word account :
  ACCOUNTS g !! user = Some account →
  Account.administrator account = false →
  Account.online account = false →
  Account.password account = word →
  closed c = false →
  Account.forgiven account >= MAX_FORGIVENESS →
  ∃ r g' c',
    login_then_admin user word (g, c) = (r, (g', c'))
    ∧ BLOCKED g' = BLOCKED g ++ [address c]
    ∧ ACCOUNTS g' !! user = None
    ∧ ((clean_name_from_channels user (get_channels g) (CHANNELS g)).1
         ≠ Return ()
       ∨ r = Raise SystemExit ∧ closed c' = true).
Proof.
  intros Hreg Hplain Hoffline Hword Hopen Hge.
  unfold login_then_admin, mbind, M_bind, bind.
  rewrite (do_login_enters g c user word account) by done.
  edestruct (do_admin_trap
               (with_ACCOUNTS
                  (<[user := Account.mk (Account.administrator account) true
                               word (Account.contacts account)
                               (Account.messages account)
                               (Account.forgiven account)]> (ACCOUNTS g)) g)
               (with_name (Some user) c) user)
    as (r & g' & c' & -> & Hr & Hblocked & Hgone & Hclose);
    [done|apply lookup_insert_eq|done|done|done|].
  destruct r as [v|e|].
  - by destruct (Hr v).
  - by exists (Raise e), g', c'.
  - exists Blocked, g', c'. split_and!; [done..|].
    destruct Hclose as [?|[? ?]]; [by left|done].
Qed.

(** C3 (as stated) fails: after [carol]'s second [admin] she has been told
    off twice, her account still exists with [forgiven = 2], the ban list is
    still empty and her connection is open. *)
Lemma second_admin_visit_is_forgiven :
  ∃ s1 s2,
    login_then_admin "carol" "pw3" (demo_registry, demo_conn)
    = (Return EOFError, s1)
    ∧ login_then_admin "carol" "pw3" s1 = (Return EOFError, s2)
    ∧ BLOCKED s2.1 = []
    ∧ Account.forgiven <$> ACCOUNTS s2.1 !! "carol" = Some 2
    ∧ closed s2.2 = false.
Proof.
  eexists _, _. split_and!.
  - vm_compute. reflexivity.
  - vm_compute. reflexivity.
  - reflexivity.
  - reflexivity.
  - reflexivity.
Qed.

(** C3 (amended). A non-administrator whose [forgiven] is 0 logs in and
    runs [admin] three times.  The first two times [forgiven] goes up by
    one, the line "You are not authorized to be here." is printed and the
    inside menu is popped; the ban list is untouched.  The third time the
    caller's address is appended to the ban list and the account is removed
    from the registry; when the walk through the channels returns, the
    connection is closed and the worker exits. *)
Theorem admin_trap_on_third_visit (g : Globals) (c : Conn)
    (user word : string) (account : Account.t) :
  ACCOUNTS g !! user = Some account →
  Account.administrator account = false →
  Account.forgiven account = 0 →
  Account.online account = false →
  Account.password account = word →
  closed c = false →
  ∃ s1 s2 r s3,
    login_then_admin user word (g, c) = (Return EOFError, s1)
    ∧ login_then_admin user word s1 = (Return EOFError, s2)
    ∧ login_then_admin user word s2 = (r, s3)
    ∧ Account.forgiven <$> ACCOUNTS s1.1 !! user = Some 1
    ∧ BLOCKED s1.1 = BLOCKED g
    ∧ outgoing s1.2 = outgoing c ++ ["You are not authorized to be here."]
    ∧ Account.forgiven <$> ACCOUNTS s2.1 !! user = Some 2
    ∧ BLOCKED s2.1 = BLOCKED g
    ∧ outgoing s2.2
      = outgoing c ++ ["You are not authorized to be here.";
                       "You are not authorized to be here."]
    ∧ BLOCKED s3.1 = BLOCKED g ++ [address c]
    ∧ ACCOUNTS s3.1 !! user = None
    ∧ ((clean_name_from_channels user (get_channels g) (CHANNELS g)).1
         ≠ Return ()
       ∨ r = Raise SystemExit ∧ closed s3.2 = true).
Proof.
  intros Hreg Hplain Hzero Hoffline Hword Hopen.
  pose proof (visit_forgiven g c user word account Hreg Hplain Hoffline
                Hword Hopen) as H1.
  rewrite Hzero in H1. specialize (H1 ltac:(done)).
  set (a1 := Account.mk false false word (Account.contacts account)
               (Account.messages account) (0 + 1)) in *.
  set (g1 := with_ACCOUNTS (<[user := a1]> (ACCOUNTS g)) g) in *.
  set (c1 := with_name None
               (with_outgoing
                  (outgoing c ++ ["You are not authorized to be here."]) c))
    in *.
  pose proof (visit_forgiven g1 c1 user word a1) as H2.
  specialize (H2 ltac:(apply lookup_insert_eq) ltac:(done) ltac:(done)
                 ltac:(done) ltac:(done) ltac:(done)).
  set (a2 := Account.mk false false word (Account.contacts a1)
               (Account.messages a1) (Account.forgiven a1 + 1)) in *.
  set (g2 := with_ACCOUNTS (<[user := a2]> (ACCOUNTS g1)) g1) in *.
  set (c2 := with_name None
               (with_outgoing
                  (outgoing c1 ++ ["You are not authorized to be here."]) c1))
    in *.
  destruct (visit_trap g2 c2 user word a2) as (r & g3 & c3 & H3 & Hb & Hg & Hc);
    [apply lookup_insert_eq|done|done|done|done|done|].
  exists (g1, c1), (g2, c2), r, (g3, c3).
  split_and!; try done.
  - simpl. by rewrite lookup_insert_eq.
  - simpl. by rewrite lookup_insert_eq.
  - simpl. by rewrite <-app_assoc.
Qed.

Lemma admin_trap_on_third_visit_witness :
  ∃ s1 s2 r s3,
    login_then_admin "carol" "pw3" (demo_registry, demo_conn)
    = (Return EOFError, s1)
    ∧ login_then_admin "carol" "pw3" s1 = (Return EOFError, s2)
    ∧ login_then_admin "carol" "pw3" s2 = (r, s3)
    ∧ Account.forgiven <$> ACCOUNTS s1.1 !! "carol" = Some 1
    ∧ BLOCKED s1.1 = BLOCKED demo_registry
    ∧ outgoing s1.2
      = outgoing demo_conn ++ ["You are not authorized to be here."]
    ∧ Account.forgiven <$> ACCOUNTS s2.1 !! "carol" = Some 2
    ∧ BLOCKED s2.1 = BLOCKED demo_registry
    ∧ outgoing s2.2
      = outgoing demo_conn ++ ["You are not authorized to be here.";
                               "You are not authorized to be here."]
    ∧ BLOCKED s3.1 = BLOCKED demo_registry ++ [address demo_conn]
    ∧ ACCOUNTS s3.1 !! "carol" = None
    ∧ ((clean_name_from_channels "carol" (get_channels demo_registry)
          (CHANNELS demo_registry)).1 ≠ Return ()
       ∨ r = Raise SystemExit ∧ closed s3.2 = true).
Proof.
  apply (admin_trap_on_third_visit demo_registry demo_conn "carol" "pw3"
           (Account.mk false false "pw3" [] [] 0)).
  - reflexivity.
  - reflexivity.
  - reflexivity.
  - reflexivity.
  - reflexivity.
  - reflexivity.
Defined.

(** ** Registration and channel creation *)

(** C9 at concrete inputs.  Names typed at the [Username:] and
    [Channel to open?] prompts are not stripped, and [len(name.split()) > 1]
    only rejects names with two or more words: the account names [" bob"]
    and [""] and the channel name [" main "] are accepted. *)
Theorem names_with_whitespace_accepted :
  (∃ g c,
     do_register [] (fresh_globals, typed None ["yes"; " bob"; "pw"])
     = (Return InsideMenu, (g, c))
     ∧ is_Some (ACCOUNTS g !! " bob")
     ∧ has_whitespace " bob" = true)
  ∧ (∃ g c,
       do_register [] (fresh_globals, typed None ["yes"; ""; "pw"])
       = (Return InsideMenu, (g, c))
       ∧ is_Some (ACCOUNTS g !! ""))
  ∧ (∃ g c,
       do_channel [] (fresh_globals, typed (Some "alice") [" main "])
       = (Return (Channel 1), (g, c))
       ∧ PyDict.get " main " (CHANNEL_NAMES g) = Some 1
       ∧ has_whitespace " main " = true).
Proof.
  split_and!; eexists _, _; (split; [vm_compute; reflexivity|]).
  - split; [|reflexivity]. vm_compute. by eexists.
  - vm_compute. by eexists.
  - split; reflexivity.
Qed.

(** The uniqueness half of C9 does hold: a name that is taken is refused
    and the registries stay as they are. *)
Lemma do_register_taken g c answer user rest :
  closed c = false →
  incoming c = answer :: user :: rest →
  affirmative answer = true →
  (length (split user) ≤ 1)%nat →
  is_Some (ACCOUNTS g !! user) →
  ∃ c', do_register [] (g, c) = (Return PyNone, (g, c'))
        ∧ last (outgoing c') = Some "Account already exists!".
Proof.
  intros Hopen Hin Hyes Hsplit Htaken.
  unfold do_register, check_terms_of_service, account_exists.
  repeat (progress (unfold arg_or_input, input, print, recv; run_handler;
                    rewrite ?Hopen, ?Hin, ?Hyes; simpl)).
  rewrite bool_decide_eq_false_2 by lia. simpl.
  rewrite bool_decide_eq_true_2 by done.
  repeat (rewrite ?Hopen; simpl).
  eexists. split; [done|]. simpl. by rewrite last_snoc.
Qed.

Lemma do_channel_existing g c channel index ch user :
  closed c = false →
  name c = Some user →
  (length (split channel) ≤ 1)%nat →
  channel ≠ "" →
  PyDict.get channel (CHANNEL_NAMES g) = Some index →
  CHANNELS g !! index = Some ch →
  ∃ g' c', do_channel [channel] (g, c) = (Return (Channel index), (g', c'))
           ∧ CHANNEL_NAMES g' = CHANNEL_NAMES g
           ∧ NEXT_CHANNEL g' = NEXT_CHANNEL g
           ∧ CHANNELS g'
             = <[index := connect (ident c) user ch]> (CHANNELS g).
Proof.
  intros Hopen Hname Hsplit Hne Hidx Hch.
  unfold do_channel, arg_or_input, print, client_name. run_handler.
  rewrite bool_decide_eq_false_2 by lia. simpl.
  rewrite bool_decide_eq_true_2 by done. simpl.
  rewrite Hidx, Hch. simpl.
  repeat (rewrite ?Hopen, ?Hname; simpl).
  eexists _, _. split; [done|]. simpl. split_and!; [done..|].
  by apply alter_known.
Qed.

(** ** Registration roll-back *)

(** C10 at a concrete input.  The password [" pw"] typed at the
    [Password:] prompt contains a space, but [word.split()] has exactly one
    element: the account is kept and the registry has changed. *)
Theorem padded_password_is_accepted :
  ∃ g c,
    do_register [] (fresh_globals, typed None ["yes"; "bob"; " pw"])
    = (Return InsideMenu, (g, c))
    ∧ has_whitespace " pw" = true
    ∧ Account.password <$> ACCOUNTS g !! "bob" = Some " pw"
    ∧ ACCOUNTS g ≠ ACCOUNTS fresh_globals.
Proof.
  eexists _, _. split; [vm_compute; reflexivity|].
  split_and!; [reflexivity|reflexivity|].
  intros Heq. apply (f_equal (λ m, m !! "bob")) in Heq. vm_compute in Heq.
  discriminate.
Qed.

(** The roll-back itself is exact whenever the assertion
    [len(word.split()) == 1] fails: the registries are what they were. *)
Lemma do_register_rolls_back g c answer user word rest :
  closed c = false →
  incoming c = answer :: user :: word :: rest →
  affirmative answer = true →
  (length (split user) ≤ 1)%nat →
  ACCOUNTS g !! user = None →
  length (split word) ≠ 1%nat →
  ∃ c', do_register [] (g, c) = (Return PyNone, (g, c'))
        ∧ last (outgoing c') = Some "Password may not have whitespace!".
Proof.
  intros Hopen Hin Hyes Hsplit Hfree Hword.
  unfold do_register, check_terms_of_service, account_exists, try_except.
  repeat (progress (unfold arg_or_input, input, print, recv; run_handler;
                    rewrite ?Hopen, ?Hin, ?Hyes; simpl)).
  rewrite bool_decide_eq_false_2 by lia. simpl.
  rewrite bool_decide_eq_false_2 by (rewrite Hfree; by intros [? ?]).
  repeat (progress (unfold arg_or_input, input, print, recv; run_handler;
                    rewrite ?Hopen, ?Hin, ?Hyes; simpl)).
  rewrite bool_decide_eq_false_2 by done.
  repeat (rewrite ?Hopen; simpl).
  eexists. split.
  - do 2 f_equal. rewrite delete_insert_eq, delete_id by done.
    by destruct g.
  - simpl. by rewrite last_snoc.
Qed.

(** ** When the cascade does complete *)

(** The loop over the keys runs to its end exactly when it never has to
    delete a key, that is when no muter list consists of the deleted name
    alone; it then removes the name from every muter list. *)
Section cascade.
Context (name : string).

Lemma get_app_fresh {V} (k : string) (d1 d2 : list (string * V)) :
  k ∉ PyDict.keys d1 → PyDict.get k (d1 ++ d2) = PyDict.get k d2.
Proof.
  unfold PyDict.keys. induction d1 as [|[k0 v0] d1 IH]; [done|]. simpl.
  intros [Hk Hd1]%not_elem_of_cons. rewrite decide_False by done. auto.
Qed.

Lemma set_app_fresh {V} (k : string) (v : V) (d1 d2 : list (string * V)) :
  k ∉ PyDict.keys d1 →
  PyDict.set k v (d1 ++ d2) = d1 ++ PyDict.set k v d2.
Proof.
  unfold PyDict.keys. induction d1 as [|[k0 v0] d1 IH]; [done|]. simpl.
  intros [Hk Hd1]%not_elem_of_cons. rewrite decide_False by done.
  f_equal. auto.
Qed.

Lemma clean_muters_completes (done todo : list (string * list string)) :
  PyDict.wf (done ++ todo) →
  Forall (λ entry, entry.2 ≠ [name]) todo →
  clean_muters name (PyDict.keys todo) (done ++ todo)
  = (Return (), done ++ (cleaned name <$> todo)).
Proof.
  revert done. induction todo as [|[k v] todo IH]; intros done Hwf Hne.
  { done. }
  apply Forall_cons in Hne as [Hv Hne]. simpl in Hv.
  assert (k ∉ PyDict.keys done) as Hk.
  { unfold PyDict.wf, PyDict.keys in *. rewrite fmap_app in Hwf.
    apply NoDup_app in Hwf as (_ & Hdisj & _).
    intros Hin. apply (Hdisj k Hin). left. }
  cbn [PyDict.keys fmap list_fmap fst clean_muters].
  change (fst <$> todo) with (PyDict.keys todo).
  rewrite get_app_fresh by done. cbn [PyDict.get].
  rewrite decide_True by done.
  assert (PyDict.wf ((done ++ [(k, list_remove_first name v)]) ++ todo))
    as Hwf'.
  { unfold PyDict.wf, PyDict.keys in *.
    by rewrite <-app_assoc, !fmap_app in *. }
  destruct (py_in name v) eqn:Hin.
  - destruct (list_remove_first name v) as [|x l] eqn:Hrm.
    + exfalso. apply py_in_true in Hin.
      destruct v as [|y v]; [by apply elem_of_nil in Hin|].
      simpl in Hrm. case_decide; [by subst|done].
    + rewrite set_app_fresh by done. cbn [PyDict.set].
      rewrite decide_True by done.
      replace (done ++ (k, x :: l) :: todo)
        with ((done ++ [(k, x :: l)]) ++ todo) by by rewrite <-app_assoc.
      rewrite (IH (done ++ [(k, x :: l)])) by done.
      unfold cleaned at 2. simpl. rewrite Hrm. by rewrite <-app_assoc.
  - apply py_in_false in Hin.
    rewrite list_remove_first_notin in Hwf' by done.
    replace (done ++ (k, v) :: todo) with ((done ++ [(k, v)]) ++ todo)
      by by rewrite <-app_assoc.
    rewrite (IH (done ++ [(k, v)])) by done.
    unfold cleaned at 2. simpl.
    rewrite list_remove_first_notin by done. by rewrite <-app_assoc.
Qed.

(** For one channel: with no muter list made of [name] alone, the walk
    returns and [name] is gone from [banned] and from [muted_to_muter], as a
    key and as a value; [kicked] is as before. *)
Lemma clean_name_from_channel_complete (ch : ChannelServer.t) :
  channel_wf ch →
  Forall (λ entry : string * list string, entry.2 ≠ [name])
         (muted_to_muter ch) →
  ∃ ch',
    clean_name_from_channel name ch = (Return (), ch')
    ∧ (name ∉ banned ch')
    ∧ (name ∉ PyDict.keys (muted_to_muter ch'))
    ∧ (∀ muted, name ∉ muters_of muted ch')
    ∧ kicked ch' = kicked ch.
Proof.
  intros [Hb Hk Hm] Hne. unfold clean_name_from_channel.
  set (m := if PyDict.contains name (muted_to_muter ch)
            then PyDict.del name (muted_to_muter ch)
            else muted_to_muter ch).
  assert (PyDict.wf m) as Hwf.
  { subst m. case_match; [by apply wf_del|done]. }
  assert (Forall (λ entry : string * list string, entry.2 ≠ [name]) m)
    as Hne'.
  { subst m. case_match; [by apply Forall_del|done]. }
  assert (Forall (λ entry : string * list string,
                    entry.2 ≠ [] ∧ NoDup entry.2) m) as Hm'.
  { subst m. case_match; [by apply Forall_del|done]. }
  assert (PyDict.get name m = None) as Hgone.
  { subst m. unfold PyDict.contains.
    destruct (PyDict.get name (muted_to_muter ch)) eqn:Hget; [|done].
    by apply get_del_eq. }
  pose proof (clean_muters_completes [] m Hwf Hne') as Hclean.
  simpl in Hclean. rewrite Hclean.
  eexists. split; [done|]. simpl. split_and!; [| | |done].
  - apply list_remove_all_notin.
  - apply get_None_keys in Hgone. unfold PyDict.keys in *.
    by rewrite <-list_fmap_compose.
  - intros muted. unfold muters_of. simpl.
    destruct (PyDict.get muted (cleaned name <$> m)) as [v|] eqn:Hget;
      [|apply not_elem_of_nil].
    apply get_elem_of, list_elem_of_fmap in Hget
      as ([k0 v0] & [= -> ->] & Hin).
    simpl. apply list_remove_first_NoDup_notin.
    rewrite Forall_forall in Hm'. by destruct (Hm' _ Hin).
Qed.
End cascade.

(* ===================================================================== *)
(** * Further properties *)
(* ===================================================================== *)

(** ** Receiving lines *)

Section receiving.
Import Client.

Lemma startswith_spec pat text :
  startswith pat text = true ↔ ∃ b, text = pat ++ b.
Proof.
  revert text. induction pat as [|p pat IH]; intros text.
  { simpl. split; [by exists text|done]. }
  destruct text as [|c text]; simpl.
  { split; [done|]. by intros [b ?]. }
  rewrite andb_true_iff, bool_decide_eq_true, IH. split.
  - intros [-> [b ->]]. by exists b.
  - intros [b [= -> ->]]. split; [done|]. by exists b.
Qed.

Lemma find_nil pat : find pat [] = if startswith pat [] then Some 0%nat else None.
Proof. done. Qed.

Lemma find_cons pat c rest :
  find pat (c :: rest)
  = if startswith pat (c :: rest) then Some 0%nat else S <$> find pat rest.
Proof. done. Qed.

(** [find] gives an occurrence, and the first one. *)
Lemma find_Some pat text i :
  find pat text = Some i →
  (∃ a b, text = a ++ pat ++ b ∧ length a = i)
  ∧ ∀ a b, text = a ++ pat ++ b → (i ≤ length a)%nat.
Proof.
  revert i. induction text as [|c rest IH]; intros i.
  - rewrite find_nil. destruct (startswith pat []) eqn:Hs; [|done].
    intros [= <-]. apply startswith_spec in Hs as [b Hb]. split.
    + by exists [], b.
    + intros; lia.
  - rewrite find_cons. destruct (startswith pat (c :: rest)) eqn:Hs.
    + intros [= <-]. apply startswith_spec in Hs as [b Hb]. split.
      * by exists [], b.
      * intros; lia.
    + destruct (find pat rest) as [j|]; [|done]. intros [= <-].
      destruct (IH j eq_refl) as [(a & b & -> & Ha) Hmin]. split.
      * exists (c :: a), b. split; [done|]. simpl. lia.
      * intros [|c' a'] b' Heq.
        { apply not_true_iff_false in Hs. destruct Hs.
          apply startswith_spec. by exists b'. }
        injection Heq as -> Heq. apply Hmin in Heq. simpl. lia.
Qed.

Lemma find_None pat text :
  find pat text = None → ∀ a b, text ≠ a ++ pat ++ b.
Proof.
  induction text as [|c rest IH].
  - rewrite find_nil. destruct (startswith pat []) eqn:Hs; [done|].
    intros _ a b Heq. apply not_true_iff_false in Hs. destruct Hs.
    apply startswith_spec. destruct a; [by exists b|done].
  - rewrite find_cons. destruct (startswith pat (c :: rest)) eqn:Hs; [done|].
    destruct (find pat rest) eqn:Hf; [done|]. intros _ [|c' a] b Heq.
    + apply not_true_iff_false in Hs. destruct Hs.
      apply startswith_spec. by exists b.
    + injection Heq as -> Heq. by eapply IH.
Qed.

Lemma find_is_Some pat a b : is_Some (find pat (a ++ pat ++ b)).
Proof.
  destruct (find pat (a ++ pat ++ b)) eqn:Hf; [done|].
  by eapply find_None in Hf.
Qed.

(** A text without separator stays so when it is cut short. *)
Lemma find_None_prefix pat p z :
  find pat (p ++ z) = None → find pat p = None.
Proof.
  intros Hnone. destruct (find pat p) as [i|] eqn:Hf; [|done].
  apply find_Some in Hf as [(a & b & -> & _) _].
  destruct (find_None _ _ Hnone a (b ++ z)). by rewrite <-!app_assoc.
Qed.

(** The separator appended to a text without one is the first one. *)
Lemma find_terminator line b :
  find SEPARATOR line = None →
  find SEPARATOR (line ++ SEPARATOR ++ b) = Some (length line).
Proof.
  induction line as [|c line IH]; [done|].
  rewrite find_cons. destruct (startswith SEPARATOR (c :: line)) eqn:Hs;
    [done|].
  destruct (find SEPARATOR line) eqn:Hf; [done|]. intros _.
  change ((c :: line) ++ SEPARATOR ++ b) with (c :: (line ++ SEPARATOR ++ b)).
  rewrite find_cons, IH by done.
  replace (startswith SEPARATOR (c :: line ++ SEPARATOR ++ b)) with false;
    [done|].
  symmetry. apply not_true_iff_false. intros [z Hz]%startswith_spec.
  apply not_true_iff_false in Hs. destruct Hs. apply startswith_spec.
  destruct line as [|d line]; [done|].
  injection Hz as -> ->. by exists line.
Qed.

(** Before the whole of [line ++ SEPARATOR] has arrived there is no
    separator in the buffer. *)
Lemma find_None_incomplete line p z :
  find SEPARATOR line = None →
  p ++ z = line ++ SEPARATOR → z ≠ [] →
  find SEPARATOR p = None.
Proof.
  intros Hline Heq Hz. destruct (find SEPARATOR p) as [i|] eqn:Hf; [|done].
  apply find_Some in Hf as [(a & b & -> & _) _].
  pose proof (find_terminator line [] Hline) as Hterm.
  apply find_Some in Hterm as [_ Hmin].
  specialize (Hmin a (b ++ z)). rewrite app_nil_r in Hmin.
  rewrite <-!app_assoc in Heq. specialize (Hmin (eq_sym Heq)).
  apply (f_equal length) in Heq. rewrite !length_app in Heq.
  destruct z; [done|]. simpl in Heq. lia.
Qed.

Lemma recv_loop_line line chunks more buffer :
  find SEPARATOR line = None →
  buffer ++ concat chunks = line ++ SEPARATOR →
  Z.of_nat (length (line ++ SEPARATOR)) ≤ ClientIO.BUFF_SIZE →
  ∃ pending,
    ClientIO.recv_loop ((Some <$> chunks) ++ more) buffer
    = (Return (), ClientIO.mk false (line ++ SEPARATOR) pending).
Proof.
  intros Hline. revert buffer.
  induction chunks as [|chunk chunks IH]; intros buffer Heq Hsize.
  - simpl in Heq. rewrite app_nil_r in Heq. subst buffer.
    pose proof (find_terminator line [] Hline) as Hterm.
    rewrite app_nil_r in Hterm.
    destruct more; simpl; rewrite Hterm; by eexists.
  - simpl in Heq.
    destruct (decide (chunk ++ concat chunks = [])) as [Hz|Hz].
    + (* everything has arrived already *)
      rewrite Hz, app_nil_r in Heq. subst buffer.
      pose proof (find_terminator line [] Hline) as Hterm.
      rewrite app_nil_r in Hterm.
      simpl. rewrite Hterm. by eexists.
    + simpl. rewrite (find_None_incomplete line buffer _ Hline Heq Hz).
      rewrite bool_decide_eq_false_2.
      * apply IH; [by rewrite <-app_assoc|done].
      * apply (f_equal length) in Heq.
        rewrite !length_app in Heq. rewrite !length_app in *. lia.
Qed.

(** Reading goes on until the unread bytes pass [BUFF_SIZE]. *)
Lemma recv_loop_oversize chunks more buffer :
  find SEPARATOR (buffer ++ concat chunks) = None →
  Z.of_nat (length buffer) ≤ ClientIO.BUFF_SIZE →
  ClientIO.BUFF_SIZE < Z.of_nat (length (buffer ++ concat chunks)) →
  ∃ c, ClientIO.recv_loop ((Some <$> chunks) ++ more) buffer
       = (Raise SystemExit, c)
       ∧ ClientIO.closed c = true.
Proof.
  revert buffer. induction chunks as [|chunk chunks IH];
    intros buffer Hnone Hfit Hbig.
  { simpl in Hbig. rewrite app_nil_r in Hbig. lia. }
  simpl in *. rewrite (find_None_prefix _ _ _ Hnone).
  case_bool_decide as Hlen.
  - by eexists.
  - apply IH; [by rewrite <-app_assoc|lia|by rewrite <-app_assoc].
Qed.

Lemma recv_loop_conserves pending buffer c :
  ClientIO.recv_loop pending buffer = (Return (), c) →
  ∃ chunks,
    pending = (Some <$> chunks) ++ ClientIO.pending c
    ∧ ClientIO.buffer c = buffer ++ concat chunks
    ∧ ClientIO.closed c = false
    ∧ is_Some (find SEPARATOR (ClientIO.buffer c)).
Proof.
  revert buffer. induction pending as [|[chunk|] pending IH]; intros buffer.
  - simpl. destruct (find SEPARATOR buffer) eqn:Hf; [|done].
    intros [= <-]. exists []. simpl. by rewrite app_nil_r, Hf.
  - simpl. destruct (find SEPARATOR buffer) eqn:Hf.
    + intros [= <-]. exists []. simpl. by rewrite app_nil_r, Hf.
    + case_bool_decide; [done|]. intros (chunks & -> & -> & ? & ?)%IH.
      exists (chunk :: chunks). split_and!; [done| |done..].
      simpl. by rewrite <-app_assoc.
  - simpl. destruct (find SEPARATOR buffer) eqn:Hf; [|done].
    intros [= <-]. exists []. simpl. by rewrite app_nil_r, Hf.
Qed.
End receiving.

(** X1. A line typed into the GUI client reaches [input()] unchanged.  The
    client writes the text of its entry field followed by CRLF; however the
    network cuts these bytes into chunks, when the text holds no CRLF and
    fits the receive buffer, [input()] on an empty buffer returns exactly
    the text and leaves the buffer empty. *)
Theorem gui_line_round_trip (send_area : list byte)
    (chunks : list (list byte)) (more : list (option (list byte))) :
  find Client.SEPARATOR send_area = None →
  concat chunks = mouseClicked send_area →
  Z.of_nat (length (mouseClicked send_area)) ≤ ClientIO.BUFF_SIZE →
  ∃ pending,
    ClientIO.input (ClientIO.mk false [] ((Some <$> chunks) ++ more))
    = (Return send_area, ClientIO.mk false [] pending).
Proof.
  intros Hline Hchunks Hsize. unfold mouseClicked in *.
  destruct (recv_loop_line send_area chunks more [] Hline Hchunks Hsize)
    as [pending Hloop].
  exists pending. unfold ClientIO.input, ClientIO.recv. simpl.
  rewrite Hloop. simpl.
  pose proof (find_terminator send_area [] Hline) as Hterm.
  rewrite app_nil_r in Hterm.
  change [Client.CR; Client.LF] with Client.SEPARATOR. rewrite Hterm.
  replace (length send_area + 2)%nat
    with (length (send_area ++ Client.SEPARATOR))
    by (by rewrite length_app).
  rewrite firstn_all, drop_all. do 2 f_equal.
  rewrite length_app. simpl.
  replace (length send_area + 2 - 2)%nat with (length send_area) by lia.
  by rewrite take_app_length.
Qed.

Lemma gui_line_round_trip_witness :
  ∃ pending,
    ClientIO.input
      (ClientIO.mk false []
         ((Some <$> [[x68; x69]; [x0d]; []; [x0a]]) ++ [Some [x3f]]))
    = (Return [x68; x69], ClientIO.mk false [] pending).
Proof.
  apply (gui_line_round_trip [x68; x69] [[x68; x69]; [x0d]; []; [x0a]]
           [Some [x3f]]).
  - reflexivity.
  - reflexivity.
  - vm_compute. discriminate.
Defined.

(** X2. A peer that sends more than [BUFF_SIZE] (65536) bytes without a
    CRLF is disconnected: starting from a buffer within the limit, [recv]
    closes the transport and exits, whatever the chunking. *)
Theorem recv_oversize_closes (buffer : list byte)
    (chunks : list (list byte)) (more : list (option (list byte))) :
  find Client.SEPARATOR (buffer ++ concat chunks) = None →
  Z.of_nat (length buffer) ≤ ClientIO.BUFF_SIZE →
  ClientIO.BUFF_SIZE < Z.of_nat (length (buffer ++ concat chunks)) →
  ∃ c,
    ClientIO.recv (ClientIO.mk false buffer ((Some <$> chunks) ++ more))
    = (Raise SystemExit, c)
    ∧ ClientIO.closed c = true.
Proof.
  intros Hnone Hfit Hbig.
  destruct (recv_loop_oversize chunks more buffer Hnone Hfit Hbig)
    as (c & Hloop & Hclosed).
  exists c. unfold ClientIO.recv. simpl. by rewrite Hloop.
Qed.

Lemma recv_oversize_closes_witness :
  ∃ c,
    ClientIO.recv
      (ClientIO.mk false [] ((Some <$> [flood; [x61]]) ++ [Some [x0d; x0a]]))
    = (Raise SystemExit, c)
    ∧ ClientIO.closed c = true.
Proof.
  apply (recv_oversize_closes [] [flood; [x61]] [Some [x0d; x0a]]).
  - vm_compute. reflexivity.
  - vm_compute. discriminate.
  - vm_compute. reflexivity.
Defined.

(** X3. What [recv] returns is the first line: the returned bytes end with
    the separator and hold no other one, and no byte is lost or invented:
    the old buffer followed by the chunks read equals the returned line
    followed by the new buffer. *)
Theorem recv_returns_first_line (c c' : ClientIO.t) (text : list byte) :
  ClientIO.recv c = (Return text, c') →
  ∃ line chunks,
    text = line ++ Client.SEPARATOR
    ∧ find Client.SEPARATOR text = Some (length line)
    ∧ ClientIO.pending c = (Some <$> chunks) ++ ClientIO.pending c'
    ∧ ClientIO.buffer c ++ concat chunks = text ++ ClientIO.buffer c'
    ∧ ClientIO.closed c' = false.
Proof.
  unfold ClientIO.recv. destruct (ClientIO.closed c) eqn:Hopen; [done|].
  destruct (ClientIO.recv_loop _ _) as [[[]|e|] c1] eqn:Hloop; [|done..].
  apply recv_loop_conserves in Hloop as (chunks & Hp & Hb & Hc & Hsep).
  destruct (find Client.SEPARATOR (ClientIO.buffer c1)) as [i|] eqn:Hf;
    [|done].
  intros [= <- <-]. simpl.
  pose proof Hf as Hf'.
  apply find_Some in Hf' as [(a & b & Hab & Ha) Hmin].
  exists a, chunks. rewrite Hab, <-Ha.
  replace (length a + 2)%nat
    with (length (a ++ Client.SEPARATOR)) by (by rewrite length_app).
  rewrite (app_assoc a), take_app_length, drop_app_length.
  split_and!; [done| |done| |done].
  - destruct (find Client.SEPARATOR (a ++ Client.SEPARATOR)) as [j|] eqn:Hj.
    + apply find_Some in Hj as [(a' & b' & Hab' & Ha') Hmin'].
      f_equal. specialize (Hmin' a []). rewrite app_nil_r in Hmin'.
      specialize (Hmin' eq_refl).
      specialize (Hmin a' (b' ++ b)).
      rewrite Hab, app_assoc, Hab', <-!app_assoc in Hmin.
      specialize (Hmin eq_refl). lia.
    + destruct (find_None _ _ Hj a []). by rewrite app_nil_r.
  - by rewrite <-Hb, Hab, <-app_assoc.
Qed.

Lemma recv_returns_first_line_witness :
  ∃ line chunks,
    [x61; x0d; x0a] = line ++ Client.SEPARATOR
    ∧ find Client.SEPARATOR [x61; x0d; x0a] = Some (length line)
    ∧ [Some [x0d; x0a; x62]; None]
      = (Some <$> chunks) ++ [None]
    ∧ [x61] ++ concat chunks = [x61; x0d; x0a] ++ [x62]
    ∧ false = false.
Proof.
  apply (recv_returns_first_line
           (ClientIO.mk false [x61] [Some [x0d; x0a; x62]; None])
           (ClientIO.mk false [x62] [None]) [x61; x0d; x0a]).
  reflexivity.
Defined.

Section sending.
Import Client.

Lemma normalise_framed out : framed out = true → normalise out = out.
Proof.
  induction out as [| c | c d rest IH1 IH2] using list_ind2.
  - done.
  - rewrite normalise_one. cbn [framed]. unfold expand.
    destruct (decide (c = CR)); [done|].
    rewrite andb_true_r, bool_decide_eq_true. intros ?.
    by rewrite decide_False.
  - rewrite normalise_cons2. cbn [framed].
    destruct (decide (c = CR)) as [->|Hc].
    + rewrite andb_true_iff, bool_decide_eq_true. intros [-> Hrest].
      rewrite decide_True by done. by rewrite IH1.
    + change (match d :: rest with [] => true | _ => _ end)
        with (framed (d :: rest)).
      rewrite andb_true_iff, bool_decide_eq_true. intros [Hl Hrest].
      rewrite decide_False by done. by rewrite IH2.
Qed.
End sending.

(** X4. The texts that [Client.send] passes on unchanged are exactly those
    already in wire form, where every CR is followed by LF and every LF is
    preceded by CR.  In particular sending is idempotent: what [send] has
    produced, [send] leaves alone. *)
Theorem send_fixed_points (out : list byte) :
  (Client.send false out = Some out ↔ Client.framed out = true)
  ∧ Client.send false (Client.payload out) = Some (Client.payload out).
Proof.
  unfold Client.send. rewrite !payload_normalise. split; [split|].
  - intros [= Heq]. rewrite <-Heq. apply framed_normalise.
  - intros Hframed. by rewrite normalise_framed.
  - by rewrite normalise_framed by apply framed_normalise.
Qed.

(** ** Command lines *)

Section tokenizer.

Lemma has_whitespace_word (word : list ascii) :
  Forall (λ c, isspace c = false) word →
  has_whitespace (String.string_of_list_ascii (rev word)) = false.
Proof.
  intros Hword. unfold has_whitespace.
  rewrite String.list_ascii_of_string_of_list_ascii.
  apply not_true_iff_false. intros (c & Hin & Hc)%existsb_exists.
  apply in_rev in Hin. rewrite List.Forall_forall in Hword.
  by rewrite (Hword c Hin) in Hc.
Qed.

Lemma word_nonempty (c : ascii) (word : list ascii) :
  String.string_of_list_ascii (rev (c :: word)) ≠ "".
Proof.
  intros Heq. apply (f_equal String.list_ascii_of_string) in Heq.
  rewrite String.list_ascii_of_string_of_list_ascii in Heq.
  simpl in Heq. by destruct (rev word).
Qed.

Lemma flush_clean (word : list ascii) :
  Forall (λ c, isspace c = false) word →
  Forall (λ tok, tok ≠ "" ∧ has_whitespace tok = false)
    match word with
    | [] => []
    | _ :: _ => [String.string_of_list_ascii (rev word)]
    end.
Proof.
  intros Hword. destruct word as [|d word]; [done|].
  apply Forall_singleton. split.
  - apply word_nonempty.
  - by apply has_whitespace_word.
Qed.

Lemma split_from_clean (word : list ascii) (s : string) :
  Forall (λ c, isspace c = false) word →
  Forall (λ tok, tok ≠ "" ∧ has_whitespace tok = false) (split_from word s).
Proof.
  revert word. induction s as [|c s IH]; intros word Hword.
  - by apply flush_clean.
  - cbn [split_from]. destruct (isspace c) eqn:Hc.
    + apply Forall_app. split; [by apply flush_clean|by apply IH].
    + apply IH. by constructor.
Qed.

Lemma split_from_lstrip (s : string) :
  split_from [] (lstrip s) = split_from [] s.
Proof.
  induction s as [|c s IH]; [done|].
  cbn [lstrip]. destruct (isspace c) eqn:Hc; [|done].
  cbn [split_from]. by rewrite Hc, IH.
Qed.

Lemma split_from_rstrip (word : list ascii) (s : string) :
  split_from word (rstrip s) = split_from word s.
Proof.
  revert word. induction s as [|c s IH]; intros word; [done|].
  cbn [rstrip]. destruct (rstrip s) as [|d r] eqn:Hr.
  - destruct (isspace c) eqn:Hc.
    + cbn [split_from]. rewrite Hc, <-IH. cbn [split_from].
      by rewrite app_nil_r.
    + cbn [split_from]. rewrite Hc, <-IH. done.
  - cbn [split_from]. destruct (isspace c); by rewrite <-!IH.
Qed.

End tokenizer.

(** X5. The tokens [run_command] works with are clean: each is non-empty and
    holds no whitespace character, so a command name and its arguments
    never carry blanks, tabs or line breaks. *)
Theorem tokens_are_clean (line : string) :
  Forall (λ tok, tok ≠ "" ∧ has_whitespace tok = false) (tokens line).
Proof. apply split_from_clean. constructor. Qed.

(** X6. The [strip()] in [line.strip().split()] changes nothing:
    [run_command] sees the tokens of the line as received. *)
Theorem tokens_ignore_strip (line : string) : tokens line = split line.
Proof.
  unfold tokens, strip, split.
  by rewrite split_from_lstrip, split_from_rstrip.
Qed.

(** ** Accounts *)

Ltac run_steps :=
  repeat (progress (unfold arg_or_input, input, print, recv, close;
                    run_handler)).

Ltac branch :=
  match goal with
  | |- context [if bool_decide ?P then _ else _] =>
      let H := fresh "Hb" in destruct (bool_decide_reflect P) as [H|H]
  end.







Ltac login_tail user :=
  match goal with
  | g : Globals |- _ =>
      destruct (ACCOUNTS g !! user) as [account|] eqn:Hreg; run_steps;
      [branch; run_steps;
       [destruct (Account.online account) eqn:Honline; run_steps|]|]
  end.

Ltac login_refused := intros [= <- <- <-]; right; by split_and!.

Ltac login_granted user account :=
  intros [= <- <- <-]; left; exists user, account;
  split_and!; try done;
  [set_solver
  |unfold with_ACCOUNTS; simpl; by rewrite (alter_known _ _ _ account)].

(** X8. Logging in is sound.  [do_login] lets the client in only to an
    existing account that is offline and whose password the client has
    supplied, as an argument or as a typed line; the account is then marked
    online and bound to the client.  In every other case the registries
    and the client's identity are untouched. *)
Theorem do_login_sound (args : list string) (g g' : Globals) (c c' : Conn)
    (r : outcome value) :
  do_login args (g, c) = (r, (g', c')) →
  (∃ user account,
     r = Return InsideMenu
     ∧ ACCOUNTS g !! user = Some account
     ∧ Account.online account = false
     ∧ Account.password account ∈ args ++ incoming c
     ∧ g' = with_ACCOUNTS
              (<[user := Account.mk (Account.administrator account) true
                           (Account.password account)
                           (Account.contacts account)
                           (Account.messages account)
                           (Account.forgiven account)]> (ACCOUNTS g)) g
     ∧ name c' = Some user)
  ∨ (r ≠ Return InsideMenu ∧ g' = g ∧ name c' = name c).
Proof.
  destruct c as [id addr nm inc out cl].
  unfold do_login, login_account, set_account.
  destruct args as [|a0 [|a1 args]].
  - destruct cl; run_steps; [login_refused|].
    destruct inc as [|l1 inc]; run_steps; [login_refused|].
    destruct inc as [|l2 inc]; run_steps; [login_refused|].
    login_tail l1.
    + login_refused.
    + login_granted l1 account.
    + login_refused.
    + login_refused.
  - destruct cl; run_steps.
    { login_refused. }
    destruct inc as [|l2 inc]; run_steps; [login_refused|].
    login_tail a0.
    + login_refused.
    + login_granted a0 account.
    + login_refused.
    + login_refused.
  - run_steps. login_tail a0.
    + destruct cl; run_steps; login_refused.
    + login_granted a0 account.
    + destruct cl; run_steps; login_refused.
    + destruct cl; run_steps; login_refused.
Qed.

Lemma do_login_sound_witness :
  (∃ user account,
     logged_in_carol.1 = Return InsideMenu
     ∧ ACCOUNTS demo_registry !! user = Some account
     ∧ Account.online account = false
     ∧ Account.password account ∈ ["carol"; "pw3"] ++ incoming demo_conn
     ∧ logged_in_carol.2.1
       = with_ACCOUNTS
           (<[user := Account.mk (Account.administrator account) true
                        (Account.password account)
                        (Account.contacts account)
                        (Account.messages account)
                        (Account.forgiven account)]>
              (ACCOUNTS demo_registry)) demo_registry
     ∧ name logged_in_carol.2.2 = Some user)
  ∨ (logged_in_carol.1 ≠ Return InsideMenu
     ∧ logged_in_carol.2.1 = demo_registry
     ∧ name logged_in_carol.2.2 = name demo_conn).
Proof.
  apply (do_login_sound ["carol"; "pw3"] demo_registry logged_in_carol.2.1
           demo_conn logged_in_carol.2.2 logged_in_carol.1).
  unfold logged_in_carol. by destruct (do_login _ _) as [? [? ?]].
Defined.

(** ** Contact lists *)

Section contact_lists.
Implicit Types (A : gmap string Account.t) (account : Account.t).

(** Replacing the contact list of an existing account by a duplicate-free
    list of existing names keeps the registry well formed. *)
Lemma contacts_wf_update A me account account' :
  contacts_wf A →
  A !! me = Some account →
  NoDup (Account.contacts account') →
  Forall (λ name, is_Some (A !! name)) (Account.contacts account') →
  contacts_wf (alter (λ _, account') me A).
Proof.
  intros Hwf Hme Hnodup Hexist.
  rewrite (alter_known _ _ _ account) by done.
  assert (∀ name, is_Some (A !! name) →
                  is_Some (<[me := account']> A !! name)) as Hkeep.
  { intros name Hname. destruct (decide (name = me)) as [->|Hne].
    - by rewrite lookup_insert_eq.
    - by rewrite lookup_insert_ne. }
  intros k a. destruct (decide (k = me)) as [->|Hne].
  - rewrite lookup_insert_eq. intros [= <-]. split; [done|].
    eapply Forall_impl; [done|]. apply Hkeep.
  - rewrite lookup_insert_ne by done. intros Hk.
    destruct (Hwf k a Hk) as [Hnd Hex]. split; [done|].
    eapply Forall_impl; [done|]. apply Hkeep.
Qed.

Lemma contacts_wf_add A me account name account' status :
  contacts_wf A →
  A !! me = Some account →
  add_contact A name account = (Return status, account') →
  contacts_wf (alter (λ _, account') me A).
Proof.
  intros Hwf Hme. destruct (Hwf me account Hme) as [Hnd Hex].
  unfold add_contact, account_exists.
  destruct (py_in name (Account.contacts account)) eqn:Hin; [done|].
  apply py_in_false in Hin.
  case_bool_decide as Hname; intros [= <- <-].
  - apply (contacts_wf_update A me account); [done..| |]; simpl.
    + apply NoDup_app. split_and!; [done| |apply NoDup_singleton].
      intros x Hx ->%list_elem_of_singleton. done.
    + apply Forall_app. split; [done|]. by apply Forall_singleton.
  - by apply (contacts_wf_update A me account).
Qed.

Lemma contacts_wf_remove A me account name :
  contacts_wf A →
  A !! me = Some account →
  contacts_wf (alter (λ _, (remove_contact name account).2) me A).
Proof.
  intros Hwf Hme. destruct (Hwf me account Hme) as [Hnd Hex].
  unfold remove_contact.
  destruct (py_in name (Account.contacts account));
    apply (contacts_wf_update A me account); try done; simpl.
  - by apply list_remove_first_NoDup.
  - rewrite Forall_forall in Hex. apply Forall_forall. intros x Hx.
    by apply Hex, (list_remove_first_subseteq name).
Qed.

Lemma contacts_wf_purge A me account (f : Account.t → Account.t) :
  contacts_wf A →
  A !! me = Some account →
  Account.contacts (f account) = []
  ∨ Account.contacts (f account) = Account.contacts account →
  contacts_wf (alter f me A).
Proof.
  intros Hwf Hme Hf. destruct (Hwf me account Hme) as [Hnd Hex].
  replace (alter f me A) with (alter (λ _, f account) me A).
  - apply (contacts_wf_update A me account); try done.
    + destruct Hf as [-> | ->]; [constructor|done].
    + destruct Hf as [-> | ->]; [constructor|done].
  - by rewrite !(alter_known _ _ _ account).
Qed.

(** The registry after [delete_account], whatever the cascade through the
    channels does. *)
Lemma delete_account_registry name g :
  ACCOUNTS (delete_account name g).2
  = if account_exists (ACCOUNTS g) name
    then forget_contact name <$> delete name (ACCOUNTS g)
    else ACCOUNTS g.
Proof.
  unfold delete_account.
  destruct (account_exists (ACCOUNTS g) name);
    by destruct (clean_name_from_channels _ _ _).
Qed.

Lemma contacts_wf_absent A name k account :
  contacts_wf A → A !! name = None → A !! k = Some account →
  name ∉ Account.contacts account.
Proof.
  intros Hwf Hname Hk Hin. destruct (Hwf k account Hk) as [_ Hex].
  rewrite Forall_forall in Hex. apply Hex in Hin.
  rewrite Hname in Hin. by destruct Hin.
Qed.

Lemma contacts_wf_delete A name :
  contacts_wf A →
  contacts_wf (forget_contact name <$> delete name A).
Proof.
  intros Hwf k a'. rewrite lookup_fmap.
  destruct (decide (k = name)) as [->|Hne].
  { by rewrite lookup_delete_eq. }
  rewrite lookup_delete_ne by done.
  destruct (A !! k) as [a|] eqn:Hk; [|done]. intros [= <-].
  destruct (Hwf k a Hk) as [Hnd Hex]. rewrite Forall_forall in Hex.
  assert (NoDup (Account.contacts (forget_contact name a))
          ∧ (name ∉ Account.contacts (forget_contact name a))
          ∧ Account.contacts (forget_contact name a) ⊆ Account.contacts a)
    as (Hnd' & Hout & Hsub).
  { unfold forget_contact.
    destruct (py_in name (Account.contacts a)) eqn:Hin; simpl.
    - split_and!.
      + by apply list_remove_first_NoDup.
      + by apply list_remove_first_NoDup_notin.
      + apply list_remove_first_subseteq.
    - apply py_in_false in Hin. by split_and!. }
  split; [done|]. apply Forall_forall. intros x Hx.
  assert (x ≠ name) as Hxn by (by intros ->).
  rewrite lookup_fmap, lookup_delete_ne by done.
  destruct (Hex x (Hsub x Hx)) as [b ->]. by eexists.
Qed.
End contact_lists.

(** X9. The contact manager and the purge command keep the contact lists
    well formed: if every contact of every account is an existing account
    listed once, this still holds after [do_add], [do_remove] and the
    account options' [do_purge], whatever the arguments, the typed lines
    and the outcome. *)
Theorem contact_commands_keep_contacts (args : list string) (g : Globals)
    (c : Conn) :
  contacts_wf (ACCOUNTS g) →
  contacts_wf (ACCOUNTS (do_add args (g, c)).2.1)
  ∧ contacts_wf (ACCOUNTS (do_remove args (g, c)).2.1)
  ∧ contacts_wf (ACCOUNTS (AccountOptions_do_purge args (g, c)).2.1).
Proof.
  intros Hwf. destruct c as [id addr nm inc out cl]. split_and!.
  - unfold do_add, client_account, set_account.
    destruct args as [|a0 args]; run_steps.
    + destruct cl; run_steps; [done|].
      destruct inc as [|l1 inc]; run_steps; [done|].
      destruct nm as [me|]; run_steps; [|done].
      destruct (ACCOUNTS g !! me) as [account|] eqn:Hme; run_steps; [|done].
      destruct (add_contact (ACCOUNTS g) l1 account)
        as [[status|[]|] account'] eqn:Hadd; run_steps; try done.
      by destruct status; run_steps; eapply contacts_wf_add.
    + destruct nm as [me|]; run_steps; [|done].
      destruct (ACCOUNTS g !! me) as [account|] eqn:Hme; run_steps; [|done].
      destruct (add_contact (ACCOUNTS g) a0 account)
        as [[status|[]|] account'] eqn:Hadd; run_steps; try done;
        try (by destruct cl).
      by destruct status, cl; run_steps; eapply contacts_wf_add.
  - unfold do_remove, client_account, set_account.
    destruct args as [|a0 args]; run_steps.
    + destruct cl; run_steps; [done|].
      destruct inc as [|l1 inc]; run_steps; [done|].
      destruct nm as [me|]; run_steps; [|done].
      destruct (ACCOUNTS g !! me) as [account|] eqn:Hme; run_steps; [|done].
      pose proof (contacts_wf_remove _ me account l1 Hwf Hme) as Hrem.
      destruct (remove_contact l1 account) as [[] account'];
        by run_steps.
    + destruct nm as [me|]; run_steps; [|done].
      destruct (ACCOUNTS g !! me) as [account|] eqn:Hme; run_steps; [|done].
      pose proof (contacts_wf_remove _ me account a0 Hwf Hme) as Hrem.
      destruct (remove_contact a0 account) as [[] account'];
        by destruct cl; run_steps.
  - assert (∀ me account, ACCOUNTS g !! me = Some account →
              contacts_wf (alter purge_messages me (ACCOUNTS g))
              ∧ contacts_wf (alter purge_contacts me (ACCOUNTS g))
              ∧ contacts_wf
                  (alter purge_contacts me
                     (alter purge_messages me (ACCOUNTS g))))
      as Hpurge.
    { intros me account Hme. split_and!.
      - apply (contacts_wf_purge _ me account); auto.
      - apply (contacts_wf_purge _ me account); auto.
      - apply (contacts_wf_purge _ me (purge_messages account)); auto.
        + apply (contacts_wf_purge _ me account); auto.
        + by rewrite lookup_alter_eq, Hme. }
    unfold AccountOptions_do_purge, client_account, set_account.
    destruct args as [|a0 args]; run_steps.
    + destruct cl; run_steps; [done|].
      destruct inc as [|l1 inc]; run_steps; [done|].
      destruct nm as [me|]; [|by repeat (branch; run_steps)].
      destruct (ACCOUNTS g !! me) as [account|] eqn:Hme;
        [|by repeat (branch; run_steps; rewrite ?Hme; run_steps)].
      destruct (Hpurge me account Hme) as (? & ? & ?).
      by repeat (branch; run_steps; rewrite ?Hme; run_steps).
    + destruct nm as [me|]; [|by repeat (branch; run_steps); destruct cl].
      destruct (ACCOUNTS g !! me) as [account|] eqn:Hme;
        [|by repeat (branch; run_steps; rewrite ?Hme; run_steps);
             destruct cl].
      destruct (Hpurge me account Hme) as (? & ? & ?).
      by repeat (branch; run_steps; rewrite ?Hme; run_steps); destruct cl.
Qed.

Lemma contact_commands_keep_contacts_witness :
  contacts_wf (ACCOUNTS (do_add ["carol"] (demo_globals, demo_bob)).2.1)
  ∧ contacts_wf (ACCOUNTS (do_remove ["carol"] (demo_globals, demo_bob)).2.1)
  ∧ contacts_wf
      (ACCOUNTS (AccountOptions_do_purge ["carol"] (demo_globals, demo_bob)).2.1).
Proof.
  apply (contact_commands_keep_contacts ["carol"] demo_globals demo_bob).
  apply map_Forall_to_list. vm_compute.
  repeat constructor; try (by eexists); set_solver.
Defined.

(** X10. Deleting an account leaves no dangling contact.  If the contact
    lists are well formed, then after [delete_account], whether the walk
    through the channels returns or raises, the name is no account, no
    remaining account lists it as a contact, and the contact lists are
    still well formed. *)
Theorem delete_account_keeps_contacts (name : string) (g : Globals) :
  contacts_wf (ACCOUNTS g) →
  ACCOUNTS (delete_account name g).2 !! name = None
  ∧ (∀ other account,
       ACCOUNTS (delete_account name g).2 !! other = Some account →
       name ∉ Account.contacts account)
  ∧ contacts_wf (ACCOUNTS (delete_account name g).2).
Proof.
  intros Hwf.
  assert (ACCOUNTS (delete_account name g).2 !! name = None
          ∧ contacts_wf (ACCOUNTS (delete_account name g).2))
    as [Hgone Hwf'].
  { rewrite delete_account_registry. unfold account_exists.
    case_bool_decide as Hname.
    - split; [|by apply contacts_wf_delete].
      by rewrite lookup_fmap, lookup_delete_eq.
    - split; [|done]. by apply eq_None_not_Some. }
  split_and!; [done| |done].
  intros other account. by apply contacts_wf_absent.
Qed.

Lemma delete_account_keeps_contacts_witness :
  ACCOUNTS (delete_account "carol" demo_globals).2 !! "carol" = None
  ∧ (∀ other account,
       ACCOUNTS (delete_account "carol" demo_globals).2 !! other
       = Some account →
       "carol" ∉ Account.contacts account)
  ∧ contacts_wf (ACCOUNTS (delete_account "carol" demo_globals).2).
Proof.
  apply (delete_account_keeps_contacts "carol" demo_globals).
  apply map_Forall_to_list. vm_compute.
  repeat constructor; try (by eexists); set_solver.
Defined.

(** ** The channel registry *)

Section more_dict_facts.
Context {K V : Type} `{EqDecision K}.
Implicit Types (k : K) (v : V) (d : list (K * V)).

Lemma set_fresh k v d :
  PyDict.get k d = None → PyDict.set k v d = d ++ [(k, v)].
Proof.
  induction d as [|[k0 v0] d IH]; [done|]. simpl.
  case_decide; [done|]. intros Hd. by rewrite IH.
Qed.

Lemma del_sublist k d : PyDict.del k d `sublist_of` d.
Proof.
  induction d as [|[k0 v0] d IH]; [done|]. simpl.
  case_decide; [by apply sublist_cons|by apply sublist_skip].
Qed.

Lemma get_del_ne k k' d :
  k ≠ k' → PyDict.get k (PyDict.del k' d) = PyDict.get k d.
Proof.
  intros Hne. induction d as [|[k0 v0] d IH]; [done|]. simpl.
  destruct (decide (k' = k0)) as [->|Hk0].
  - by rewrite decide_False.
  - simpl. by rewrite IH.
Qed.

Lemma get_values k v d : PyDict.get k d = Some v → v ∈ PyDict.values d.
Proof.
  intros Hget%get_elem_of. unfold PyDict.values.
  apply list_elem_of_fmap. by exists (k, v).
Qed.

Lemma contains_get k d :
  PyDict.contains k d = bool_decide (is_Some (PyDict.get k d)).
Proof.
  unfold PyDict.contains. destruct (PyDict.get k d); symmetry.
  - by apply bool_decide_eq_true_2.
  - apply bool_decide_eq_false_2. by intros [? ?].
Qed.

Lemma values_del_NoDup k d :
  NoDup (PyDict.values d) → NoDup (PyDict.values (PyDict.del k d)).
Proof.
  intros Hnd. eapply sublist_NoDup; [done|]. unfold PyDict.values.
  apply fmap_sublist, del_sublist.
Qed.

Lemma get_del_values k v d :
  PyDict.wf d → NoDup (PyDict.values d) →
  PyDict.get k d = Some v →
  v ∉ PyDict.values (PyDict.del k d).
Proof.
  unfold PyDict.wf, PyDict.keys, PyDict.values.
  induction d as [|[k0 v0] d IH]; [done|]. simpl.
  intros [Hk0 Hkeys]%NoDup_cons [Hv0 Hvals]%NoDup_cons.
  destruct (decide (k = k0)) as [->|Hne].
  - by intros [= ->].
  - intros Hget. simpl. apply not_elem_of_cons. split.
    + intros ->. apply Hv0. by eapply get_values.
    + by apply IH.
Qed.
End more_dict_facts.

Section registry.
Implicit Types (g : Globals).

Lemma registry_wf_lookup g channel index :
  registry_wf g →
  PyDict.get channel (CHANNEL_NAMES g) = Some index →
  index < NEXT_CHANNEL g ∧ is_Some (CHANNELS g !! index).
Proof.
  intros (_ & _ & Hall & _) Hget.
  apply (Forall_get _ _ _ _ Hall Hget).
Qed.

Lemma registry_wf_next g :
  registry_wf g → CHANNELS g !! NEXT_CHANNEL g = None.
Proof.
  intros (_ & _ & _ & Hbound). apply eq_None_not_Some.
  intros Hnext%Hbound. lia.
Qed.

(** A new channel takes the index [NEXT_CHANNEL]. *)
Lemma registry_wf_create g channel ch :
  registry_wf g →
  PyDict.get channel (CHANNEL_NAMES g) = None →
  registry_wf
    (mkGlobals (ACCOUNTS g) (BLOCKED g) (NEXT_CHANNEL g + 1)
       (PyDict.set channel (NEXT_CHANNEL g) (CHANNEL_NAMES g))
       (<[NEXT_CHANNEL g := ch]> (CHANNELS g))).
Proof.
  intros (Hwf & Hnd & Hall & Hbound) Hfree.
  unfold registry_wf. simpl. split_and!.
  - by apply wf_set.
  - rewrite set_fresh by done. unfold PyDict.values in *.
    rewrite fmap_app. apply NoDup_app. split_and!; [done| |apply NoDup_singleton].
    intros index Hin ->%list_elem_of_singleton.
    apply list_elem_of_fmap in Hin as ([k v] & Heq & Hin).
    rewrite Forall_forall in Hall. apply Hall in Hin. simpl in Heq, Hin. lia.
  - apply Forall_set.
    + simpl. split; [lia|]. by rewrite lookup_insert_eq.
    + eapply Forall_impl; [done|]. intros [k v] [Hlt Hsome]. simpl in *.
      split; [lia|]. rewrite lookup_insert_ne by lia. done.
  - intros index. destruct (decide (index = NEXT_CHANNEL g)) as [->|Hne].
    + lia.
    + rewrite lookup_insert_ne by done. intros Hsome%Hbound. lia.
Qed.

(** Changing a channel object in place does not touch the registry. *)
Lemma registry_wf_alter g (f : ChannelServer.t → ChannelServer.t) index :
  registry_wf g →
  registry_wf (with_CHANNELS (alter f index (CHANNELS g)) g).
Proof.
  assert (∀ i, is_Some (alter f index (CHANNELS g) !! i)
               ↔ is_Some (CHANNELS g !! i)) as Hsame.
  { intros i. destruct (decide (i = index)) as [->|Hne].
    - rewrite lookup_alter_eq. by rewrite fmap_is_Some.
    - by rewrite lookup_alter_ne. }
  intros (Hwf & Hnd & Hall & Hbound). unfold registry_wf. simpl.
  split_and!; [done|done| |].
  - eapply Forall_impl; [done|]. intros [k v] [Hlt Hsome].
    split; [done|]. by apply Hsame.
  - intros i Hi%Hsame. by apply Hbound.
Qed.

Lemma registry_wf_delete g channel :
  registry_wf g →
  registry_wf
    (with_CHANNEL_NAMES (PyDict.del channel (CHANNEL_NAMES g)) g).
Proof.
  intros (Hwf & Hnd & Hall & Hbound). unfold registry_wf. simpl.
  split_and!; [by apply wf_del|by apply values_del_NoDup| |done].
  by apply Forall_del.
Qed.
End registry.

Lemma demo_globals_registry : registry_wf demo_globals.
Proof.
  unfold registry_wf. split_and!.
  - vm_compute. repeat constructor; set_solver.
  - vm_compute. repeat constructor; set_solver.
  - apply Forall_cons. split; [|constructor]. split; [done|].
    vm_compute. by eexists.
  - intros index [ch Hch]. simpl in Hch.
    apply lookup_singleton_Some in Hch as [<- _]. simpl. lia.
Qed.

Lemma do_channel_named (a0 : string) (g : Globals) (c : Conn)
    (user : string) :
  registry_wf g →
  name c = Some user →
  registry_wf (do_channel [a0] (g, c)).2.1
  ∧ (do_channel [a0] (g, c)).1 ≠ Raise AttributeError
  ∧ (∀ index ch,
       CHANNELS g !! index = Some ch →
       CHANNELS (do_channel [a0] (g, c)).2.1 !! index = Some ch
       ∨ CHANNELS (do_channel [a0] (g, c)).2.1 !! index
         = Some (connect (ident c) user ch))
  ∧ (∀ index,
       (do_channel [a0] (g, c)).1 = Return (Channel index) →
       ∃ channel ch,
         PyDict.get channel (CHANNEL_NAMES (do_channel [a0] (g, c)).2.1)
         = Some index
         ∧ CHANNELS (do_channel [a0] (g, c)).2.1 !! index = Some ch
         ∧ PyDict.get (ident c) (connected_clients ch) = Some user).
Proof.
  intros Hwf Hname. destruct c as [id addr nm inc out cl].
  simpl in Hname. subst nm. unfold do_channel. run_steps.
  branch.
  { destruct cl; run_steps; split_and!; (done || by left). }
  branch; run_steps.
  2:{ destruct cl; run_steps; split_and!; (done || by left). }
  destruct (PyDict.get a0 (CHANNEL_NAMES g)) as [index|] eqn:Hget.
  - destruct (registry_wf_lookup g a0 index Hwf Hget) as [Hlt [ch0 Hch0]].
    rewrite Hch0. run_steps. destruct cl; run_steps.
    { split_and!; (done || by left). }
    split_and!.
    + by apply registry_wf_alter.
    + done.
    + intros i ch Hi. destruct (decide (i = index)) as [->|Hne].
      * right. by rewrite lookup_alter_eq, Hi.
      * left. by rewrite lookup_alter_ne.
    + intros ? [= <-]. exists a0, (connect id user ch0). split_and!.
      * done.
      * by rewrite lookup_alter_eq, Hch0.
      * apply get_set_eq.
  - pose proof (registry_wf_next g Hwf) as Hnext.
    pose proof (registry_wf_create g a0 (new a0 user) Hwf Hget) as Hwf'.
    assert (∀ i ch, CHANNELS g !! i = Some ch → i ≠ NEXT_CHANNEL g)
      as Hold by (intros i ch Hi ->; by rewrite Hnext in Hi).
    run_steps. destruct cl; run_steps; split_and!.
    + done.
    + done.
    + intros i ch Hi. left.
      by rewrite lookup_insert_ne by (symmetry; by eapply Hold).
    + done.
    + by apply (registry_wf_alter _ (connect id user) (NEXT_CHANNEL g))
        in Hwf'.
    + done.
    + intros i ch Hi. left.
      rewrite lookup_alter_ne by (symmetry; by eapply Hold).
      by rewrite lookup_insert_ne by (symmetry; by eapply Hold).
    + intros ? [= <-]. exists a0, (connect id user (new a0 user)).
      split_and!.
      * apply get_set_eq.
      * by rewrite lookup_alter_eq, lookup_insert_eq.
      * apply get_set_eq.
Qed.

Lemma do_channel_prompt (g : Globals) (c : Conn) (line : string)
    (rest : list string) :
  closed c = false →
  incoming c = line :: rest →
  do_channel [] (g, c)
  = do_channel [line]
      (g, with_incoming rest
            (with_outgoing (outgoing c ++ ["Channel to open?"]) c)).
Proof.
  destruct c as [id addr nm inc out cl]. simpl. intros -> ->.
  unfold do_channel. by run_steps.
Qed.

(** X11. Opening a channel keeps the registry consistent.  For a logged-in
    client, [do_channel] never fails on a missing channel object, leaves
    every existing channel object in place (at most the client is connected
    to it), and when it returns a channel, that channel is registered under
    a name, has its object, and the client is connected to it. *)
Theorem do_channel_keeps_registry (args : list string) (g : Globals)
    (c : Conn) (user : string) :
  registry_wf g →
  name c = Some user →
  registry_wf (do_channel args (g, c)).2.1
  ∧ (do_channel args (g, c)).1 ≠ Raise AttributeError
  ∧ (∀ index ch,
       CHANNELS g !! index = Some ch →
       CHANNELS (do_channel args (g, c)).2.1 !! index = Some ch
       ∨ CHANNELS (do_channel args (g, c)).2.1 !! index
         = Some (connect (ident c) user ch))
  ∧ (∀ index,
       (do_channel args (g, c)).1 = Return (Channel index) →
       ∃ channel ch,
         PyDict.get channel (CHANNEL_NAMES (do_channel args (g, c)).2.1)
         = Some index
         ∧ CHANNELS (do_channel args (g, c)).2.1 !! index = Some ch
         ∧ PyDict.get (ident c) (connected_clients ch) = Some user).
Proof.
  intros Hwf Hname. destruct args as [|a0 [|a1 args]].
  - destruct (closed c) eqn:Hopen.
    { destruct c; simpl in *; subst. unfold do_channel. run_steps.
      split_and!; (done || by left). }
    destruct (incoming c) as [|line rest] eqn:Hin.
    { destruct c; simpl in *; subst. unfold do_channel. run_steps.
      split_and!; (done || by left). }
    rewrite (do_channel_prompt g c line rest) by done.
    exact (do_channel_named line g
             (with_incoming rest
                (with_outgoing (outgoing c ++ ["Channel to open?"]) c))
             user Hwf Hname).
  - by apply do_channel_named.
  - destruct c as [id addr nm inc out cl]. unfold do_channel. run_steps.
    destruct cl; run_steps; split_and!; (done || by left).
Qed.

Lemma do_channel_keeps_registry_witness :
  registry_wf (do_channel ["lobby"] (demo_globals, demo_bob)).2.1
  ∧ (do_channel ["lobby"] (demo_globals, demo_bob)).1
    ≠ Raise AttributeError
  ∧ (∀ index ch,
       CHANNELS demo_globals !! index = Some ch →
       CHANNELS (do_channel ["lobby"] (demo_globals, demo_bob)).2.1 !! index
       = Some ch
       ∨ CHANNELS (do_channel ["lobby"] (demo_globals, demo_bob)).2.1
         !! index
         = Some (connect (ident demo_bob) "bob" ch))
  ∧ (∀ index,
       (do_channel ["lobby"] (demo_globals, demo_bob)).1
       = Return (Channel index) →
       ∃ channel ch,
         PyDict.get channel
           (CHANNEL_NAMES (do_channel ["lobby"] (demo_globals, demo_bob)).2.1)
         = Some index
         ∧ CHANNELS (do_channel ["lobby"] (demo_globals, demo_bob)).2.1
           !! index = Some ch
         ∧ PyDict.get (ident demo_bob) (connected_clients ch) = Some "bob").
Proof.
  apply (do_channel_keeps_registry ["lobby"] demo_globals demo_bob "bob").
  - apply demo_globals_registry.
  - reflexivity.
Defined.



(** X13. A deleted channel keeps its object but loses its name, and the
    name starts afresh: after [delete_channel], opening the same name makes
    a new channel at the index [NEXT_CHANNEL], which differs from the old
    index; the old object is still in place, unchanged, and no longer
    reachable by name. *)
Theorem deleted_name_starts_afresh (channel user : string) (g : Globals)
    (c : Conn) (index : Z) :
  registry_wf g →
  name c = Some user →
  closed c = false →
  channel ≠ "" →
  (length (split channel) ≤ 1)%nat →
  PyDict.get channel (CHANNEL_NAMES g) = Some index →
  ∃ g1 g2 c',
    delete_channel channel g = (true, g1)
    ∧ do_channel [channel] (g1, c)
      = (Return (Channel (NEXT_CHANNEL g)), (g2, c'))
    ∧ NEXT_CHANNEL g ≠ index
    ∧ CHANNELS g2 !! index = CHANNELS g !! index
    ∧ is_Some (CHANNELS g !! index)
    ∧ PyDict.get channel (CHANNEL_NAMES g2) = Some (NEXT_CHANNEL g)
    ∧ (index ∉ PyDict.values (CHANNEL_NAMES g2))
    ∧ CHANNELS g2 !! NEXT_CHANNEL g
      = Some (connect (ident c) user (ChannelServer.new channel user)).
Proof.
  intros Hwf Hname Hopen Hne Hsplit Hget.
  pose proof Hwf as (Hkeys & Hnd & Hall & Hbound).
  destruct (registry_wf_lookup g channel index Hwf Hget) as [Hlt Hsome].
  destruct c as [id addr nm inc out cl]. simpl in Hname, Hopen. subst.
  unfold delete_channel, PyDict.contains. rewrite Hget.
  eexists _, _, _. split; [done|].
  assert (PyDict.get channel (PyDict.del channel (CHANNEL_NAMES g)) = None)
    as Hfree by (by apply get_del_eq).
  unfold do_channel. run_steps.
  rewrite bool_decide_eq_false_2 by lia.
  rewrite bool_decide_eq_true_2 by done. run_steps.
  rewrite Hfree. run_steps.
  split; [done|]. simpl. split_and!.
  - lia.
  - rewrite lookup_alter_ne, lookup_insert_ne by lia. done.
  - done.
  - apply get_set_eq.
  - rewrite set_fresh by done. unfold PyDict.values.
    rewrite fmap_app. apply not_elem_of_app. split.
    + by apply (get_del_values channel index (CHANNEL_NAMES g)).
    + simpl. intros ?%list_elem_of_singleton. lia.
  - by rewrite lookup_alter_eq, lookup_insert_eq.
Qed.

Lemma deleted_name_starts_afresh_witness :
  ∃ g1 g2 c',
    delete_channel "main" demo_globals = (true, g1)
    ∧ do_channel ["main"] (g1, demo_bob)
      = (Return (Channel (NEXT_CHANNEL demo_globals)), (g2, c'))
    ∧ NEXT_CHANNEL demo_globals ≠ 1
    ∧ CHANNELS g2 !! 1 = CHANNELS demo_globals !! 1
    ∧ is_Some (CHANNELS demo_globals !! 1)
    ∧ PyDict.get "main" (CHANNEL_NAMES g2)
      = Some (NEXT_CHANNEL demo_globals)
    ∧ (1 ∉ PyDict.values (CHANNEL_NAMES g2))
    ∧ CHANNELS g2 !! NEXT_CHANNEL demo_globals
      = Some (connect (ident demo_bob) "bob"
                (ChannelServer.new "main" "bob")).
Proof.
  apply (deleted_name_starts_afresh "main" "bob" demo_globals demo_bob 1).
  - apply demo_globals_registry.
  - reflexivity.
  - reflexivity.
  - done.
  - vm_compute. lia.
  - reflexivity.
Defined.

(** ** Entering a channel *)

(** X14. Who gets into a channel.  A logged-in client on an open transport
    is let in exactly when its name is not banned and the channel has no
    password, or the client is privileged (owner or administrator), or the
    line it types at the prompt is the password.  A ban therefore also
    keeps out the owner and administrators; the prompt is shown, and a
    line consumed, only for a client that is neither banned nor exempt. *)
Theorem run_channel_entry_decision (ch : ChannelServer.t) (g : Globals)
    (c : Conn) (user line : string) (rest : list string) :
  name c = Some user →
  closed c = false →
  incoming c = line :: rest →
  (run_channel_entry ch (g, c)).1
  = Return (bool_decide
              ((user ∉ banned ch)
               ∧ (password ch = ""
                  ∨ privileged (ACCOUNTS g) user ch = true
                  ∨ line = password ch)))
  ∧ (run_channel_entry ch (g, c)).2.1 = g
  ∧ incoming (run_channel_entry ch (g, c)).2.2
    = (if bool_decide (user ∈ banned ch ∨ password ch = ""
                       ∨ privileged (ACCOUNTS g) user ch = true)
       then line :: rest else rest).
Proof.
  destruct c as [id addr nm inc out cl]. simpl. intros -> -> ->.
  unfold run_channel_entry, authenticate, py_in. run_steps.
  destruct (decide (user ∈ banned ch)) as [Hban|Hban].
  { rewrite (bool_decide_eq_true_2 (user ∈ banned ch)) by done. run_steps.
    rewrite bool_decide_eq_false_2 by tauto.
    by rewrite bool_decide_eq_true_2 by tauto. }
  rewrite (bool_decide_eq_false_2 (user ∈ banned ch)) by done. run_steps.
  destruct (decide (password ch = "")) as [Hpw|Hpw].
  { rewrite (bool_decide_eq_true_2 (password ch = "")) by done. run_steps.
    rewrite bool_decide_eq_true_2 by tauto.
    by rewrite bool_decide_eq_true_2 by tauto. }
  rewrite (bool_decide_eq_false_2 (password ch = "")) by done. run_steps.
  destruct (privileged (ACCOUNTS g) user ch) eqn:Hpriv; run_steps.
  { rewrite bool_decide_eq_true_2 by tauto.
    by rewrite bool_decide_eq_true_2 by tauto. }
  destruct (decide (line = password ch)) as [Hline|Hline].
  - rewrite (bool_decide_eq_true_2 (line = password ch)) by done. run_steps.
    rewrite bool_decide_eq_true_2 by tauto.
    rewrite bool_decide_eq_false_2; [done|]. intros [?|[?|?]]; done.
  - rewrite (bool_decide_eq_false_2 (line = password ch)) by done. run_steps.
    rewrite bool_decide_eq_false_2 by (intros [? [?|[?|?]]]; done).
    rewrite bool_decide_eq_false_2; [done|]. intros [?|[?|?]]; done.
Qed.

Lemma run_channel_entry_decision_witness :
  (run_channel_entry demo_locked (demo_globals, demo_carol)).1
  = Return (bool_decide
              (("carol" ∉ banned demo_locked)
               ∧ (password demo_locked = ""
                  ∨ privileged (ACCOUNTS demo_globals) "carol" demo_locked
                    = true
                  ∨ "secret" = password demo_locked)))
  ∧ (run_channel_entry demo_locked (demo_globals, demo_carol)).2.1
    = demo_globals
  ∧ incoming (run_channel_entry demo_locked (demo_globals, demo_carol)).2.2
    = (if bool_decide ("carol" ∈ banned demo_locked
                       ∨ password demo_locked = ""
                       ∨ privileged (ACCOUNTS demo_globals) "carol"
                           demo_locked = true)
       then ["secret"; "hello"] else ["hello"]).
Proof.
  apply (run_channel_entry_decision demo_locked demo_globals demo_carol
           "carol" "secret" ["hello"]); reflexivity.
Defined.

(** ** Kicks and bans *)

Section generic_dict.
Context {K V : Type} `{EqDecision K}.

Lemma get_del_self (k : K) (d : list (K * V)) :
  PyDict.wf d → PyDict.get k (PyDict.del k d) = None.
Proof.
  unfold PyDict.wf, PyDict.keys.
  induction d as [|[k0 v0] d IH]; [done|]. simpl.
  intros [Hk0 Hd]%NoDup_cons. case_decide as Hk; [subst|].
  - by apply get_None_keys.
  - simpl. rewrite decide_False by done. by apply IH.
Qed.
End generic_dict.

(** X15. [do_kick] only ever adds the named user to the kick list, and
    only when the caller is privileged and the user is a connected account
    that is neither the owner nor an administrator; in every other case
    the channel is left exactly as it was. *)
Theorem do_kick_spares_the_protected (ACCOUNTS : gmap string Account.t)
    (caller name : string) (verbose : bool) (ch : ChannelServer.t) :
  (do_kick ACCOUNTS caller name verbose ch).1 = ch
  ∨ ((do_kick ACCOUNTS caller name verbose ch).1
     = with_kicked (kicked ch ++ [name]) ch
     ∧ privileged ACCOUNTS caller ch = true
     ∧ name ≠ ""
     ∧ name ≠ owner ch
     ∧ is_administrator ACCOUNTS name = Some false
     ∧ name ∈ PyDict.values (connected_clients ch)).
Proof.
  unfold do_kick, is_protected.
  destruct (privileged ACCOUNTS caller ch); [|by left].
  case_bool_decide as Hname; [by left|].
  case_bool_decide as Howner; [by left|].
  destruct (is_administrator ACCOUNTS name) as [[]|] eqn:Hadmin;
    simpl; [by left| |by left].
  destruct (py_in name (PyDict.values (connected_clients ch))) eqn:Hin;
    [|by left].
  right. apply py_in_true in Hin. by split_and!.
Qed.

(** X16. A kick ends the visit and nothing more.  Once a privileged caller
    has kicked a connected user who is neither owner nor administrator, the
    user's next line is not stored or broadcast but ends the message loop;
    on the way out the name is taken off the kick list and the connection
    is dropped, while buffer and ban list are as before the kick.  The
    user may come straight back: a fresh visit speaks as usual. *)
Theorem kick_ends_the_visit (ACCOUNTS : gmap string Account.t)
    (caller name line : string) (verbose : bool) (me : Z)
    (ch : ChannelServer.t) :
  privileged ACCOUNTS caller ch = true →
  name ≠ "" →
  name ≠ owner ch →
  is_administrator ACCOUNTS name = Some false →
  PyDict.wf (connected_clients ch) →
  PyDict.get me (connected_clients ch) = Some name →
  is_command line = false →
  ∃ ch1 ch2,
    (do_kick ACCOUNTS caller name verbose ch).1 = ch1
    ∧ message_loop_step ch1 me line = Some (ch1, Kicked)
    ∧ handle_finally me ch1 = Some ch2
    ∧ (name ∉ kicked ch2)
    ∧ PyDict.get me (connected_clients ch2) = None
    ∧ buffer ch2 = buffer ch
    ∧ banned ch2 = banned ch
    ∧ ∃ ch3 recipients,
        message_loop_step (connect me name ch2) me line
        = Some (ch3, Broadcast (ChannelLine.mk name line) recipients).
Proof.
  intros Hpriv Hname Howner Hadmin Hwf Hme Hline.
  assert (name ∈ PyDict.values (connected_clients ch)) as Hin
    by (by eapply get_values).
  eexists _, _. split; [done|].
  unfold do_kick, is_protected. rewrite Hpriv.
  rewrite (bool_decide_eq_false_2 (name = "")) by done.
  rewrite (bool_decide_eq_false_2 (owner ch = name)) by done.
  rewrite Hadmin. simpl.
  rewrite (proj2 (py_in_true _ _) Hin). simpl.
  unfold message_loop_step, handle_finally. simpl. rewrite Hme. simpl.
  rewrite (proj2 (py_in_true name (kicked ch ++ [name])))
    by (apply elem_of_app; right; by apply list_elem_of_singleton).
  split_and!; try done.
  - apply list_remove_all_notin.
  - by apply get_del_self.
  - rewrite get_set_eq. simpl.
    rewrite (proj2 (py_in_false name _)) by apply list_remove_all_notin.
    rewrite Hline.
    destruct (add_line name line _) as [ch3 channel_line] eqn:Hadd.
    assert (channel_line = ChannelLine.mk name line) as ->.
    { unfold add_line in Hadd. by case_bool_decide; injection Hadd. }
    assert (is_Some (PyDict.get me (connected_clients ch3))) as [? Hme3].
    { unfold add_line in Hadd.
      case_bool_decide; injection Hadd as <-; simpl;
        rewrite get_set_eq; by eexists. }
    unfold broadcast. rewrite Hme3. simpl. by eexists _, _.
Qed.

Lemma kick_ends_the_visit_witness :
  ∃ ch1 ch2,
    (do_kick demo_accounts "alice" "bob" true demo_channel).1 = ch1
    ∧ message_loop_step ch1 2 "hi" = Some (ch1, Kicked)
    ∧ handle_finally 2 ch1 = Some ch2
    ∧ ("bob" ∉ kicked ch2)
    ∧ PyDict.get 2 (connected_clients ch2) = None
    ∧ buffer ch2 = buffer demo_channel
    ∧ banned ch2 = banned demo_channel
    ∧ ∃ ch3 recipients,
        message_loop_step (connect 2 "bob" ch2) 2 "hi"
        = Some (ch3, Broadcast (ChannelLine.mk "bob" "hi") recipients).
Proof.
  apply (kick_ends_the_visit demo_accounts "alice" "bob" "hi" true 2
           demo_channel).
  - reflexivity.
  - done.
  - intros Heq. vm_compute in Heq. discriminate.
  - reflexivity.
  - unfold PyDict.wf. apply (bool_decide_unpack _). vm_compute. exact I.
  - reflexivity.
  - reflexivity.
Defined.

Ltac printed :=
  solve [repeat (rewrite elem_of_app || rewrite elem_of_cons); intuition].

(** X17. A ban binds the protected too.  For the owner or an administrator
    who is not yet banned, [add_ban] prints that the name cannot be banned,
    and then bans it all the same: the name is appended to the ban list and
    the ban is announced.  The protected user is not kicked, but at the
    next visit [run_channel] turns them away, password or not. *)
Theorem ban_binds_the_protected (ACCOUNTS : gmap string Account.t)
    (caller name : string) (ch : ChannelServer.t) (g : Globals) (c : Conn) :
  (is_protected ACCOUNTS name ch).1 = Some true →
  name ∉ banned ch →
  client_name c = Some name →
  closed c = false →
  banned (add_ban ACCOUNTS caller name ch).1 = banned ch ++ [name]
  ∧ kicked (add_ban ACCOUNTS caller name ch).1 = kicked ch
  ∧ name +:+ " cannot be banned." ∈ (add_ban ACCOUNTS caller name ch).2
  ∧ name +:+ " has been banned." ∈ (add_ban ACCOUNTS caller name ch).2
  ∧ run_channel_entry (add_ban ACCOUNTS caller name ch).1 (g, c)
    = (Return false,
       (g, with_outgoing
             (outgoing c ++ ["You have been banned from this channel."])
             c)).
Proof.
  intros Hprot Hfree Hname Hopen.
  assert (∃ ch' out,
            add_ban ACCOUNTS caller name ch = (ch', out)
            ∧ banned ch' = banned ch ++ [name]
            ∧ kicked ch' = kicked ch
            ∧ name +:+ " cannot be banned." ∈ out
            ∧ name +:+ " has been banned." ∈ out)
    as (ch' & out & -> & Hbanned & Hkicked & Hcannot & Hdone).
  { unfold add_ban.
    destruct (is_protected ACCOUNTS name ch) as [[[]|] out0] eqn:Hp;
      simpl in Hprot; try done.
    rewrite (proj2 (py_in_false _ _) Hfree).
    assert ((is_protected ACCOUNTS name (with_banned (banned ch ++ [name]) ch)).1
            = Some true) as Hp'.
    { change (is_protected ACCOUNTS name
                (with_banned (banned ch ++ [name]) ch))
        with (is_protected ACCOUNTS name ch).
      by rewrite Hp. }
    unfold do_kick.
    destruct (privileged ACCOUNTS caller _).
    - case_bool_decide.
      + eexists _, _. split; [done|]. simpl. split_and!; try done.
        * printed.
        * printed.
      + destruct (is_protected ACCOUNTS name _) as [[[]|] out1];
          simpl in Hp'; try done.
        eexists _, _. split; [done|]. simpl. split_and!; try done.
        * printed.
        * printed.
    - eexists _, _. split; [done|]. simpl. split_and!; try done.
      + printed.
      + printed. }
  simpl. split_and!; try done.
  destruct c as [id addr nm inc out' cl].
  unfold client_name in Hname. simpl in Hname, Hopen. subst.
  unfold run_channel_entry. run_steps.
  rewrite Hbanned.
  rewrite (proj2 (py_in_true name (banned ch ++ [name])))
    by (apply elem_of_app; right; by apply list_elem_of_singleton).
  by run_steps.
Qed.

Lemma ban_binds_the_protected_witness :
  banned (add_ban demo_accounts "alice" "alice" demo_channel).1
  = banned demo_channel ++ ["alice"]
  ∧ kicked (add_ban demo_accounts "alice" "alice" demo_channel).1
    = kicked demo_channel
  ∧ "alice" +:+ " cannot be banned."
    ∈ (add_ban demo_accounts "alice" "alice" demo_channel).2
  ∧ "alice" +:+ " has been banned."
    ∈ (add_ban demo_accounts "alice" "alice" demo_channel).2
  ∧ run_channel_entry
      (add_ban demo_accounts "alice" "alice" demo_channel).1
      (demo_globals, typed (Some "alice") [])
    = (Return false,
       (demo_globals,
        with_outgoing
          (outgoing (typed (Some "alice") [])
           ++ ["You have been banned from this channel."])
          (typed (Some "alice") []))).
Proof.
  apply (ban_binds_the_protected demo_accounts "alice" "alice" demo_channel
           demo_globals (typed (Some "alice") [])).
  - reflexivity.
  - vm_compute. apply not_elem_of_nil.
  - reflexivity.
  - reflexivity.
Defined.

(** ** Whispers and mute lists *)

Section filters.
Context {K V : Type} `{EqDecision K}.
Implicit Types (k : K) (v : V) (d : list (K * V)) (P : K * V → bool).

Lemma filter_nil_none {A} (Q : A → bool) (l : list A) (x : A) :
  List.filter Q l = [] → x ∈ l → Q x = false.
Proof.
  induction l as [|y l IH]; simpl.
  - by intros _ ?%elem_of_nil.
  - destruct (Q y) eqn:Hy; [done|].
    intros Hl [->|Hx]%elem_of_cons; auto.
Qed.

Lemma head_filter_Some {A} (Q : A → bool) (l : list A) (x : A) :
  head (List.filter Q l) = Some x → x ∈ l ∧ Q x = true.
Proof.
  induction l as [|y l IH]; simpl; [done|].
  destruct (Q y) eqn:Hy; simpl.
  - intros [= ->]. split; [left|done].
  - intros [Hx ?]%IH. split; [by right|done].
Qed.

Lemma filter_set_keys P k v d :
  (∀ v0, PyDict.get k d = Some v0 → P (k, v0) = P (k, v)) →
  (PyDict.get k d = None → P (k, v) = false) →
  (List.filter P (PyDict.set k v d)).*1 = (List.filter P d).*1.
Proof.
  induction d as [|[k0 v0] d IH]; simpl.
  - intros _ Hnew. by rewrite Hnew.
  - destruct (decide (k = k0)) as [->|Hne]; simpl.
    + intros Hsame _. rewrite <-(Hsame v0 eq_refl).
      by destruct (P (k0, v0)).
    + intros Hsame Hnew. specialize (IH Hsame Hnew).
      destruct (P (k0, v0)); simpl; [f_equal|]; exact IH.
Qed.

Lemma filter_del_keys P k d :
  (∀ v0, PyDict.get k d = Some v0 → P (k, v0) = false) →
  List.filter P (PyDict.del k d) = List.filter P d.
Proof.
  induction d as [|[k0 v0] d IH]; simpl; [done|].
  destruct (decide (k = k0)) as [->|Hne]; simpl.
  - intros Hdrop. by rewrite (Hdrop v0 eq_refl).
  - intros Hdrop. by rewrite (IH Hdrop).
Qed.
End filters.

Lemma list_remove_first_other `{EqDecision A} (x y : A) (l : list A) :
  y ≠ x → y ∈ list_remove_first x l ↔ y ∈ l.
Proof.
  intros Hne. induction l as [|z l IH]; [done|]. simpl.
  case_decide as Hz.
  - subst z. rewrite elem_of_cons. split; [by right|].
    by intros [?|?].
  - rewrite !elem_of_cons, IH. done.
Qed.

Lemma list_remove_first_nil `{EqDecision A} (x : A) (l : list A) :
  x ∈ l → list_remove_first x l = [] → l = [x].
Proof.
  destruct l as [|y l]; [by intros ?%elem_of_nil|]. simpl.
  case_decide; [by intros _ ->; subst|done].
Qed.

(** X18. A whisper to an existing account is never lost, and a mute only
    diverts it.  It is shown at once to the addressee when the addressee is
    connected to the channel and has not muted the sender (being kicked
    plays no part); otherwise it is stored, unread, at the end of the
    addressee's inbox, and the addressee is told of it when online.  No
    other account changes. *)
Theorem whisper_is_never_lost (sender name message : string)
    (ch : ChannelServer.t) (g : Globals) (account : Account.t) :
  ACCOUNTS g !! name = Some account →
  ∃ g' out,
    send_wisper sender name message ch g = (true, g', out)
    ∧ (((name ∉ muters_of sender ch)
        ∧ g' = g
        ∧ ∃ ident,
            (ident, name) ∈ connected_clients ch
            ∧ out = [(Worker ident,
                      "(" +:+ sender +:+ ") " +:+ message)])
       ∨ ((name ∈ muters_of sender ch
           ∨ name ∉ PyDict.values (connected_clients ch))
          ∧ ACCOUNTS g' !! name
            = Some (with_messages
                      (Account.messages account
                       ++ [Message.mk sender message true]) account)
          ∧ (∀ other, other ≠ name →
                      ACCOUNTS g' !! other = ACCOUNTS g !! other)
          ∧ out = if Account.online account
                  then [(Holder name,
                         "[EVENT] " +:+ sender
                         +:+ " has sent you a message.")]
                  else [])).
Proof.
  intros Hreg. unfold send_wisper, may_wisper, muters_of.
  assert (∃ g' out,
            deliver_message sender name message g = (true, g', out)
            ∧ ACCOUNTS g' !! name
              = Some (with_messages
                        (Account.messages account
                         ++ [Message.mk sender message true]) account)
            ∧ (∀ other, other ≠ name →
                        ACCOUNTS g' !! other = ACCOUNTS g !! other)
            ∧ out = if Account.online account
                    then [(Holder name,
                           "[EVENT] " +:+ sender
                           +:+ " has sent you a message.")]
                    else [])
    as (g' & out & Hdeliver & Hinbox & Hothers & Hout).
  { unfold deliver_message. rewrite Hreg. eexists _, _.
    split; [done|]. simpl. split_and!; [|intros other Hne|done].
    - by rewrite lookup_insert_eq.
    - by rewrite lookup_insert_ne. }
  destruct (py_in name (default [] (PyDict.get sender (muted_to_muter ch))))
    eqn:Hmuted.
  { apply py_in_true in Hmuted. exists g', out.
    split; [done|]. right. split_and!; auto. }
  apply py_in_false in Hmuted.
  destruct (head (List.filter _ (connected_clients ch)))
    as [[ident found]|] eqn:Hhead; simpl.
  - apply head_filter_Some in Hhead as [Hin Hfound].
    apply bool_decide_eq_true in Hfound. simpl in Hfound. subst found.
    eexists _, _. split; [done|]. left. split_and!; [done|done|].
    by exists ident.
  - exists g', out. split; [done|]. right. split_and!; auto.
    right. unfold PyDict.values.
    intros ([ident found] & Heq & Hin)%list_elem_of_fmap.
    simpl in Heq. subst found.
    destruct (List.filter _ (connected_clients ch)) as [|? ?] eqn:Hnone;
      [|done].
    pose proof (filter_nil_none _ _ (ident, name) Hnone Hin) as Hno.
    simpl in Hno. by apply bool_decide_eq_false in Hno.
Qed.

Lemma whisper_is_never_lost_witness :
  ∃ g' out,
    send_wisper "alice" "carol" "psst" demo_moderated demo_globals
    = (true, g', out)
    ∧ ((("carol" ∉ muters_of "alice" demo_moderated)
        ∧ g' = demo_globals
        ∧ ∃ ident,
            (ident, "carol") ∈ connected_clients demo_moderated
            ∧ out = [(Worker ident,
                      "(" +:+ "alice" +:+ ") " +:+ "psst")])
       ∨ (("carol" ∈ muters_of "alice" demo_moderated
           ∨ "carol" ∉ PyDict.values (connected_clients demo_moderated))
          ∧ ACCOUNTS g' !! "carol"
            = Some (with_messages
                      (Account.messages (Account.new false)
                       ++ [Message.mk "alice" "psst" true])
                      (Account.new false))
          ∧ (∀ other, other ≠ "carol" →
                      ACCOUNTS g' !! other = ACCOUNTS demo_globals !! other)
          ∧ out = if Account.online (Account.new false)
                  then [(Holder "carol",
                         "[EVENT] " +:+ "alice"
                         +:+ " has sent you a message.")]
                  else [])).
Proof.
  apply (whisper_is_never_lost "alice" "carol" "psst" demo_moderated
           demo_globals (Account.new false)).
  reflexivity.
Defined.

Section mute_privacy.
Context (ACCOUNTS : gmap string Account.t) (caller other : string).
Hypothesis Hother : other ≠ caller.

Lemma py_in_other_snoc (l : list string) :
  py_in other (l ++ [caller]) = py_in other l.
Proof.
  apply bool_decide_ext. rewrite elem_of_app, list_elem_of_singleton.
  split; [by intros [?|?]|by left].
Qed.

Lemma py_in_other_remove (l : list string) :
  py_in other (list_remove_first caller l) = py_in other l.
Proof. apply bool_decide_ext. by apply list_remove_first_other. Qed.

Lemma add_mute_muters muted source (ch : ChannelServer.t) :
  py_in other (muters_of source (add_mute ACCOUNTS muted caller ch).1)
  = py_in other (muters_of source ch).
Proof.
  unfold add_mute, muters_of.
  destruct (account_exists ACCOUNTS muted); [|by case_bool_decide].
  destruct (PyDict.get muted (muted_to_muter ch)) as [muters|] eqn:Hget.
  - destruct (py_in caller muters); [done|]. simpl.
    destruct (decide (source = muted)) as [->|Hne].
    + rewrite get_set_eq, Hget. simpl. apply py_in_other_snoc.
    + by rewrite get_set_ne.
  - simpl. destruct (decide (source = muted)) as [->|Hne].
    + rewrite get_set_eq, Hget. simpl.
      apply bool_decide_ext. rewrite list_elem_of_singleton.
      split; [done|by intros ?%elem_of_nil].
    + by rewrite get_set_ne.
Qed.

Lemma del_mute_muters muted source (ch : ChannelServer.t) :
  PyDict.wf (muted_to_muter ch) →
  py_in other (muters_of source (del_mute muted caller ch).1)
  = py_in other (muters_of source ch).
Proof.
  intros Hwf. unfold del_mute, muters_of.
  case_bool_decide; [|done].
  destruct (PyDict.get muted (muted_to_muter ch)) as [muters|] eqn:Hget;
    [|done].
  destruct (py_in caller muters) eqn:Hin; [|done]. simpl.
  apply py_in_true in Hin.
  destruct (list_remove_first caller muters) as [|m ms] eqn:Hrm.
  - apply list_remove_first_nil in Hrm; [|done]. subst muters.
    destruct (decide (source = muted)) as [->|Hne].
    + rewrite get_del_eq, Hget by done. simpl.
      apply bool_decide_ext. rewrite list_elem_of_singleton.
      split; [by intros ?%elem_of_nil|done].
    + by rewrite get_del_ne.
  - destruct (decide (source = muted)) as [->|Hne].
    + rewrite get_set_eq, Hget. simpl. rewrite <-Hrm.
      apply py_in_other_remove.
    + by rewrite get_set_ne.
Qed.

Lemma add_mute_list muted (ch : ChannelServer.t) :
  list_mute other (add_mute ACCOUNTS muted caller ch).1 = list_mute other ch.
Proof.
  unfold add_mute, list_mute.
  destruct (account_exists ACCOUNTS muted); [|by case_bool_decide].
  destruct (PyDict.get muted (muted_to_muter ch)) as [muters|] eqn:Hget.
  - destruct (py_in caller muters); [done|]. simpl.
    apply filter_set_keys.
    + intros v0. rewrite Hget. intros [= <-]. simpl.
      by rewrite py_in_other_snoc.
    + by rewrite Hget.
  - simpl. apply filter_set_keys.
    + by rewrite Hget.
    + intros _. simpl. apply bool_decide_eq_false_2.
      by intros ?%list_elem_of_singleton.
Qed.

Lemma del_mute_list muted (ch : ChannelServer.t) :
  list_mute other (del_mute muted caller ch).1 = list_mute other ch.
Proof.
  unfold del_mute, list_mute.
  case_bool_decide; [|done].
  destruct (PyDict.get muted (muted_to_muter ch)) as [muters|] eqn:Hget;
    [|done].
  destruct (py_in caller muters) eqn:Hin; [|done]. simpl.
  apply py_in_true in Hin.
  destruct (list_remove_first caller muters) as [|m ms] eqn:Hrm.
  - apply list_remove_first_nil in Hrm; [|done]. subst muters.
    rewrite filter_del_keys; [done|].
    intros v0. rewrite Hget. intros [= <-]. simpl.
    apply bool_decide_eq_false_2. by intros ?%list_elem_of_singleton.
  - apply filter_set_keys.
    + intros v0. rewrite Hget. intros [= <-]. simpl.
      by rewrite <-Hrm, py_in_other_remove.
    + by rewrite Hget.
Qed.
End mute_privacy.

(** X19. Mute lists are private.  What one user does with [mute add] and
    [mute del] never changes what another user has muted: the other user's
    [mute list] shows the same names in the same order, and for every
    source the other user is a recorded muter after the command exactly
    when they were before, so the lines they receive stay the same. *)
Theorem mute_commands_are_private (ACCOUNTS : gmap string Account.t)
    (caller other muted : string) (ch : ChannelServer.t) :
  other ≠ caller →
  PyDict.wf (muted_to_muter ch) →
  list_mute other (add_mute ACCOUNTS muted caller ch).1 = list_mute other ch
  ∧ list_mute other (del_mute muted caller ch).1 = list_mute other ch
  ∧ (∀ source,
       py_in other (muters_of source (add_mute ACCOUNTS muted caller ch).1)
       = py_in other (muters_of source ch))
  ∧ (∀ source,
       py_in other (muters_of source (del_mute muted caller ch).1)
       = py_in other (muters_of source ch)).
Proof.
  intros Hother Hwf. split_and!.
  - by apply add_mute_list.
  - by apply del_mute_list.
  - intros source. by apply add_mute_muters.
  - intros source. by apply del_mute_muters.
Qed.

Lemma mute_commands_are_private_witness :
  list_mute "carol" (add_mute demo_accounts "alice" "bob" demo_moderated).1
  = list_mute "carol" demo_moderated
  ∧ list_mute "carol" (del_mute "alice" "bob" demo_moderated).1
    = list_mute "carol" demo_moderated
  ∧ (∀ source,
       py_in "carol"
         (muters_of source
            (add_mute demo_accounts "alice" "bob" demo_moderated).1)
       = py_in "carol" (muters_of source demo_moderated))
  ∧ (∀ source,
       py_in "carol"
         (muters_of source (del_mute "alice" "bob" demo_moderated).1)
       = py_in "carol" (muters_of source demo_moderated)).
Proof.
  apply (mute_commands_are_private demo_accounts "bob" "carol" "alice"
           demo_moderated).
  - done.
  - unfold PyDict.wf. apply (bool_decide_unpack _). vm_compute. exact I.
Defined.

(** ** Resetting and finalizing a channel *)

(** X20. Reset and finalize clear the room.  After [do_reset] or
    [do_finalize] every connected user is on the kick list, so the next
    line of each ends their message loop.  A reset channel waits for the
    one who reset it: [dispatch] leaves it in [reset] for anyone else and
    takes it to [ready] for the new owner.  A finalized channel stays as it
    is whoever comes. *)
Theorem reset_clears_the_room (client_name other name line : string)
    (me : Z) (ch : ChannelServer.t) :
  PyDict.get me (connected_clients ch) = Some name →
  other ≠ client_name →
  message_loop_step (do_reset client_name ch) me line
  = Some (do_reset client_name ch, Kicked)
  ∧ message_loop_step (do_finalize client_name ch) me line
    = Some (do_finalize client_name ch, Kicked)
  ∧ status (dispatch other (do_reset client_name ch)) = state.reset
  ∧ status (dispatch client_name (do_reset client_name ch)) = state.ready
  ∧ owner (do_reset client_name ch) = client_name
  ∧ (∀ anyone,
       dispatch anyone (do_finalize client_name ch)
       = do_finalize client_name ch).
Proof.
  intros Hme Hother.
  assert (name ∈ kicked ch ++ PyDict.values (connected_clients ch)) as Hin.
  { apply elem_of_app. right. by eapply get_values. }
  unfold message_loop_step, do_reset, do_finalize, do_close, reset_channel,
    dispatch. simpl. rewrite Hme. simpl.
  rewrite (proj2 (py_in_true _ _) Hin).
  rewrite (bool_decide_eq_false_2 (other = client_name)) by done.
  rewrite (bool_decide_eq_true_2 (client_name = client_name)) by done.
  by split_and!.
Qed.

Lemma reset_clears_the_room_witness :
  message_loop_step (do_reset "alice" demo_channel) 2 "hi"
  = Some (do_reset "alice" demo_channel, Kicked)
  ∧ message_loop_step (do_finalize "alice" demo_channel) 2 "hi"
    = Some (do_finalize "alice" demo_channel, Kicked)
  ∧ status (dispatch "carol" (do_reset "alice" demo_channel)) = state.reset
  ∧ status (dispatch "alice" (do_reset "alice" demo_channel)) = state.ready
  ∧ owner (do_reset "alice" demo_channel) = "alice"
  ∧ (∀ anyone,
       dispatch anyone (do_finalize "alice" demo_channel)
       = do_finalize "alice" demo_channel).
Proof.
  apply (reset_clears_the_room "alice" "carol" "bob" "hi" 2 demo_channel).
  - reflexivity.
  - done.
Defined.

(** ** The address filter *)

Section address_filter.

Lemma close_open {A} (g : Globals) (c : Conn) :
  closed c = false →
  close (A:=A) (g, c) = (Raise SystemExit, (g, with_closed true c)).
Proof. intros Hopen. unfold close. run_steps. by rewrite Hopen. Qed.

(** The two loops of [BanFilter.handle] on an open transport. *)
Lemma screen_loop (f : string → string) (blocked : list string)
    (names : list string) (g : Globals) (c : Conn) :
  closed c = false →
  foldr (λ name rest,
           (if py_in (f name) blocked then close else ret ());; rest)
        (ret ()) names (g, c)
  = if existsb (λ name, py_in (f name) blocked) names
    then (Raise SystemExit, (g, with_closed true c))
    else (Return (), (g, c)).
Proof.
  intros Hopen. induction names as [|name names IH]; [done|].
  cbn [foldr existsb]. destruct (py_in (f name) blocked); simpl.
  - run_handler. by rewrite close_open.
  - run_handler. apply IH.
Qed.

Lemma bind_eq {A B} (m : M A) (k : A → M B) (s : Globals * Conn) :
  (m ≫= k) s
  = match m s with
    | (Return a, s) => k a s
    | (Raise e, s) => (Raise e, s)
    | (Blocked, s) => (Blocked, s)
    end.
Proof. reflexivity. Qed.

Lemma screen_decision (host : string) (alias ip : list string)
    (g : Globals) (c : Conn) :
  closed c = false →
  screen host alias ip (g, c)
  = if py_in (lower host) (BLOCKED g)
       || existsb (λ name, py_in (lower name) (BLOCKED g)) alias
       || existsb (λ addr, py_in addr (BLOCKED g)) ip
    then (Raise SystemExit, (g, with_closed true c))
    else (Return (), (g, c)).
Proof.
  intros Hopen. unfold screen. rewrite bind_eq. unfold globals.
  cbn beta iota. change ((g, c).1) with g. rewrite bind_eq.
  destruct (py_in (lower host) (BLOCKED g)).
  { by rewrite close_open. }
  unfold ret at 1. cbn beta iota. rewrite bind_eq.
  rewrite (screen_loop lower (BLOCKED g) alias g c Hopen).
  destruct (existsb _ alias); [done|].
  rewrite (screen_loop (λ addr, addr) (BLOCKED g) ip g c Hopen).
  by destruct (existsb _ ip).
Qed.

Lemma BanFilter_handle_decision
    (gethostbyaddr : string → option (string * list string * list string))
    (g : Globals) (c : Conn) :
  closed c = false →
  BanFilter_handle gethostbyaddr false (g, c)
  = match gethostbyaddr (address c) with
    | None => (Raise herror, (g, c))
    | Some (host, alias, ip) =>
        if py_in (lower host) (BLOCKED g)
           || existsb (λ name, py_in (lower name) (BLOCKED g)) alias
           || existsb (λ addr, py_in addr (BLOCKED g)) ip
        then (Raise SystemExit, (g, with_closed true c))
        else (Return true, (g, c))
    end.
Proof.
  intros Hopen. unfold BanFilter_handle. run_handler.
  destruct (gethostbyaddr (address c)) as [[[host alias] ip]|]; [|done].
  run_handler. rewrite screen_decision by done.
  by destruct (_ || _ || _).
Qed.

Lemma lower_char_not_upper (c : ascii) : is_upper (lower_char c) = false.
Proof.
  unfold lower_char. destruct (is_upper c) eqn:Hc; [|done].
  unfold is_upper in *. apply bool_decide_eq_true in Hc.
  apply bool_decide_eq_false.
  rewrite nat_ascii_embedding by lia. lia.
Qed.

Lemma lower_has_no_upper (s : string) : has_upper (lower s) = false.
Proof.
  unfold has_upper. induction s as [|c s IH]; [done|]. simpl.
  by rewrite lower_char_not_upper.
Qed.

Lemma list_remove_first_keeps_copy `{EqDecision A} (x : A) (l : list A) :
  x ∈ l → x ∈ list_remove_first x (l ++ [x]).
Proof.
  induction l as [|y l IH]; [by intros ?%elem_of_nil|]. simpl.
  case_decide as Hy.
  - intros _. apply elem_of_app. right. by apply list_elem_of_singleton.
  - intros [->|Hx]%elem_of_cons; [done|]. right. by apply IH.
Qed.
End address_filter.

(** X21. Whom the address filter drops.  [handle] first asks the resolver
    for the client's address.  When the address has no reverse entry the
    call raises [herror] and so does [handle], before the block list is
    read: the client is neither passed on nor closed, and nothing is
    printed, whether its address is listed or not.  When the resolver
    answers, a client on an open transport is passed on to the outside menu
    with nothing printed and nothing changed, unless the lower-cased host
    name, a lower-cased alias, or one of the addresses as it stands is on
    the block list; then the transport is closed without a word.  A client
    that comes back to the filter after leaving the outside menu is told
    [Disconnecting ...] and closed. *)
Theorem ban_filter_decision
    (gethostbyaddr : string → option (string * list string * list string))
    (g : Globals) (c : Conn) :
  closed c = false →
  BanFilter_handle gethostbyaddr false (g, c)
  = match gethostbyaddr (address c) with
    | None => (Raise herror, (g, c))
    | Some (host, alias, ip) =>
        if py_in (lower host) (BLOCKED g)
           || existsb (λ name, py_in (lower name) (BLOCKED g)) alias
           || existsb (λ addr, py_in addr (BLOCKED g)) ip
        then (Raise SystemExit, (g, with_closed true c))
        else (Return true, (g, c))
    end
  ∧ BanFilter_handle gethostbyaddr true (g, c)
    = (Raise SystemExit,
       (g, with_closed true
             (with_outgoing (outgoing c ++ ["Disconnecting ..."]) c))).
Proof.
  intros Hopen. split.
  - by apply BanFilter_handle_decision.
  - unfold BanFilter_handle, print. run_handler. rewrite Hopen. simpl.
    by rewrite close_open.
Qed.

Lemma ban_filter_decision_witness :
  BanFilter_handle demo_resolver false (blocked_globals, demo_conn)
  = (Raise SystemExit, (blocked_globals, with_closed true demo_conn))
  ∧ BanFilter_handle demo_resolver true (blocked_globals, demo_conn)
    = (Raise SystemExit,
       (blocked_globals,
        with_closed true
          (with_outgoing (outgoing demo_conn ++ ["Disconnecting ..."])
             demo_conn))).
Proof.
  apply (ban_filter_decision demo_resolver blocked_globals demo_conn).
  reflexivity.
Defined.

(** The address [192.0.2.1] is on the block list but has no reverse entry:
    the filter does not get as far as the block list. *)
Example unresolved_address_is_not_screened :
  "192.0.2.1" ∈ BLOCKED blocked_globals
  ∧ BanFilter_handle demo_resolver false (blocked_globals, blocked_conn)
    = (Raise herror, (blocked_globals, blocked_conn)).
Proof. split; [vm_compute; right; left|reflexivity]. Qed.

(** X22. A block-list entry with an upper-case letter matches no host name.
    [ban_add] stores the address as typed while the filter compares
    lower-cased names.  So on a server whose block list was empty, after
    [ban add] of a name with an upper-case letter, what the filter does
    with a client does not depend on the host name and the aliases the
    resolver returns: the client is dropped only when the entry is, as it
    stands, among the returned addresses, and passes otherwise; without a
    reverse entry [handle] raises [herror]. *)
Theorem uppercase_ban_blocks_no_name
    (gethostbyaddr : string → option (string * list string * list string))
    (addr : string) (g : Globals) (admin c : Conn) :
  BLOCKED g = [] →
  has_upper addr = true →
  closed c = false →
  let g' := (ban_add [addr] (g, admin)).2.1 in
  BLOCKED g' = [addr]
  ∧ BanFilter_handle gethostbyaddr false (g', c)
    = match gethostbyaddr (address c) with
      | None => (Raise herror, (g', c))
      | Some (host, alias, ip) =>
          if py_in addr ip
          then (Raise SystemExit, (g', with_closed true c))
          else (Return true, (g', c))
      end.
Proof.
  intros Hempty Hupper Hopen g'.
  assert (addr ≠ "") as Hne by (by intros ->).
  assert (BLOCKED g' = [addr]) as Hlist.
  { subst g'. destruct admin as [id a nm inc out cl].
    unfold ban_add, py_in. run_steps.
    rewrite bool_decide_eq_true_2 by done. run_steps.
    rewrite Hempty. rewrite bool_decide_eq_false_2 by apply not_elem_of_nil.
    run_steps. destruct cl; simpl; by rewrite Hempty. }
  split; [done|].
  assert (∀ name, py_in (lower name) [addr] = false) as Hnames.
  { intros name. apply py_in_false. intros Heq%list_elem_of_singleton.
    by rewrite <-Heq, lower_has_no_upper in Hupper. }
  rewrite BanFilter_handle_decision by done.
  destruct (gethostbyaddr (address c)) as [[[host alias] ip]|]; [|done].
  rewrite Hlist, Hnames. simpl.
  replace (existsb _ alias) with false; simpl.
  - replace (existsb _ ip) with (py_in addr ip); [done|].
    apply eq_true_iff_eq. rewrite py_in_true, existsb_exists. split.
    + intros Hin. exists addr. split; [by apply list_elem_of_In|].
      apply py_in_true, list_elem_of_singleton. done.
    + intros (i & Hi & Hin). apply py_in_true in Hin.
      apply list_elem_of_singleton in Hin as ->. by apply list_elem_of_In.
  - symmetry. apply not_true_iff_false.
    intros (a & _ & Hin)%existsb_exists. by rewrite Hnames in Hin.
Qed.

Lemma uppercase_ban_blocks_no_name_witness :
  let g' := (ban_add ["Host.Example"] (fresh_globals, demo_conn)).2.1 in
  BLOCKED g' = ["Host.Example"]
  ∧ BanFilter_handle demo_resolver false (g', demo_conn)
    = (Return true, (g', demo_conn)).
Proof.
  apply (uppercase_ban_blocks_no_name demo_resolver "Host.Example"
           fresh_globals demo_conn demo_conn).
  - reflexivity.
  - reflexivity.
  - reflexivity.
Defined.

Section block_list.
Context (int : string → option Z).

Lemma ban_add_blocked (addr : string) (g : Globals) (c : Conn) :
  BLOCKED (ban_add [addr] (g, c)).2.1
  = if bool_decide (addr ≠ "") && negb (py_in addr (BLOCKED g))
    then BLOCKED g ++ [addr] else BLOCKED g.
Proof.
  destruct c as [id a nm inc out cl]. unfold ban_add. run_steps.
  case_bool_decide; run_steps; [|by destruct cl].
  destruct (py_in addr (BLOCKED g)); run_steps; by destruct cl.
Qed.

Lemma ban_remove_blocked (addr : string) (g : Globals) (c : Conn) :
  BLOCKED (ban_remove int [addr] (g, c)).2.1
  = list_remove_first addr (BLOCKED g).
Proof.
  destruct c as [id a nm inc out cl]. unfold ban_remove. run_steps.
  destruct (py_in addr (BLOCKED g)) eqn:Hin; run_steps.
  - by destruct cl.
  - apply py_in_false in Hin. rewrite list_remove_first_notin by done.
    by destruct cl.
Qed.
End block_list.

(** X23. The block list under [ban add] and [ban remove <address>].
    [ban_add] never stores the empty address or a second copy, so a list
    without them stays so; after it a non-empty address is on the list.
    On such a list [ban remove] with the address as argument takes the
    address off, and undoes a [ban add] of an address that was not
    listed. *)
Theorem ban_add_remove_round_trip (int : string → option Z)
    (addr : string) (g : Globals) (c c' : Conn) :
  NoDup (BLOCKED g) →
  "" ∉ BLOCKED g →
  NoDup (BLOCKED (ban_add [addr] (g, c)).2.1)
  ∧ ("" ∉ BLOCKED (ban_add [addr] (g, c)).2.1)
  ∧ (addr ≠ "" → addr ∈ BLOCKED (ban_add [addr] (g, c)).2.1)
  ∧ NoDup
      (BLOCKED (ban_remove int [addr] ((ban_add [addr] (g, c)).2.1, c')).2.1)
  ∧ (addr ∉
       BLOCKED (ban_remove int [addr] ((ban_add [addr] (g, c)).2.1, c')).2.1)
  ∧ (addr ∉ BLOCKED g →
     BLOCKED (ban_remove int [addr] ((ban_add [addr] (g, c)).2.1, c')).2.1
     = BLOCKED g).
Proof.
  intros Hnd Hempty. rewrite ban_remove_blocked, ban_add_blocked.
  assert (NoDup (if bool_decide (addr ≠ "") && negb (py_in addr (BLOCKED g))
                 then BLOCKED g ++ [addr] else BLOCKED g)) as Hnd'.
  { case_bool_decide; simpl; [|done].
    destruct (py_in addr (BLOCKED g)) eqn:Hin; simpl; [done|].
    apply py_in_false in Hin.
    apply NoDup_app. split_and!; [done| |apply NoDup_singleton].
    by intros x Hx ->%list_elem_of_singleton. }
  split_and!.
  - done.
  - case_bool_decide; simpl; [|done].
    destruct (py_in addr (BLOCKED g)); simpl; [done|].
    intros [?|?%list_elem_of_singleton]%elem_of_app; done.
  - intros Hne. rewrite bool_decide_eq_true_2 by done. simpl.
    destruct (py_in addr (BLOCKED g)) eqn:Hin; simpl.
    + by apply py_in_true.
    + apply elem_of_app. right. by apply list_elem_of_singleton.
  - by apply list_remove_first_NoDup.
  - by apply list_remove_first_NoDup_notin.
  - intros Hfree. rewrite (proj2 (py_in_false _ _) Hfree).
    case_bool_decide; simpl.
    + by apply list_remove_first_app_last.
    + by apply list_remove_first_notin.
Qed.

Lemma ban_add_remove_round_trip_witness :
  NoDup (BLOCKED (ban_add ["203.0.113.7"] (blocked_globals, demo_conn)).2.1)
  ∧ ("" ∉ BLOCKED (ban_add ["203.0.113.7"] (blocked_globals, demo_conn)).2.1)
  ∧ ("203.0.113.7" ≠ "" →
     "203.0.113.7"
     ∈ BLOCKED (ban_add ["203.0.113.7"] (blocked_globals, demo_conn)).2.1)
  ∧ NoDup
      (BLOCKED
         (ban_remove (λ _, None) ["203.0.113.7"]
            ((ban_add ["203.0.113.7"] (blocked_globals, demo_conn)).2.1,
             demo_conn)).2.1)
  ∧ ("203.0.113.7" ∉
       BLOCKED
         (ban_remove (λ _, None) ["203.0.113.7"]
            ((ban_add ["203.0.113.7"] (blocked_globals, demo_conn)).2.1,
             demo_conn)).2.1)
  ∧ ("203.0.113.7" ∉ BLOCKED blocked_globals →
     BLOCKED
       (ban_remove (λ _, None) ["203.0.113.7"]
          ((ban_add ["203.0.113.7"] (blocked_globals, demo_conn)).2.1,
           demo_conn)).2.1
     = BLOCKED blocked_globals).
Proof.
  apply (ban_add_remove_round_trip (λ _, None) "203.0.113.7"
           blocked_globals demo_conn demo_conn).
  - apply (bool_decide_unpack _). vm_compute. exact I.
  - apply (bool_decide_unpack _). vm_compute. exact I.
Defined.

(** X24. One [ban remove <address>] does not lift a ban that was recorded
    twice.  The [admin] trap appends the client's address to the block list
    without looking; when the address was already listed, [ban remove]
    with the address as argument removes one copy only and the address is
    still on the list.  A visitor from that address is still not let in:
    when the resolver answers, its reply listing the address asked for, the
    filter closes the transport; when the address has no reverse entry
    [handle] raises [herror]. *)
Theorem trapped_twice_stays_blocked (int : string → option Z)
    (gethostbyaddr : string → option (string * list string * list string))
    (g : Globals) (c admin visitor : Conn) (user : string)
    (account : Account.t) :
  name c = Some user →
  ACCOUNTS g !! user = Some account →
  Account.administrator account = false →
  Account.forgiven account >= MAX_FORGIVENESS →
  closed c = false →
  address c ∈ BLOCKED g →
  address visitor = address c →
  closed visitor = false →
  (∀ host alias ip,
     gethostbyaddr (address c) = Some (host, alias, ip) → address c ∈ ip) →
  let g' :=
    (ban_remove int [address c] ((do_admin [] (g, c)).2.1, admin)).2.1 in
  address c ∈ BLOCKED g'
  ∧ BanFilter_handle gethostbyaddr false (g', visitor)
    = match gethostbyaddr (address c) with
      | None => (Raise herror, (g', visitor))
      | Some _ => (Raise SystemExit, (g', with_closed true visitor))
      end.
Proof.
  intros Hname Hreg Hplain Hge Hopen Hlisted Hfrom Hvisitor Hreply g'.
  subst g'.
  destruct (do_admin_trap g c user account Hname Hreg Hplain Hge Hopen)
    as (r & g' & c' & Hrun & _ & Hblocked & _).
  rewrite Hrun. change ((r, (g', c')).2.1) with g'.
  assert (address c
          ∈ BLOCKED (ban_remove int [address c] (g', admin)).2.1) as Hin.
  { rewrite ban_remove_blocked, Hblocked.
    by apply list_remove_first_keeps_copy. }
  split; [done|].
  rewrite BanFilter_handle_decision, Hfrom by done.
  destruct (gethostbyaddr (address c)) as [[[host alias] ip]|] eqn:Hlookup;
    [|done].
  replace (existsb _ ip) with true.
  - by rewrite orb_true_r.
  - symmetry. apply existsb_exists. exists (address c). split.
    + by apply list_elem_of_In, (Hreply host alias).
    + by apply py_in_true.
Qed.

Lemma trapped_twice_stays_blocked_witness :
  let g' :=
    (ban_remove (λ _, None) [address trapped_conn]
       ((do_admin [] (trapped_globals, trapped_conn)).2.1, demo_conn)).2.1 in
  address trapped_conn ∈ BLOCKED g'
  ∧ BanFilter_handle demo_resolver false (g', demo_conn)
    = (Raise SystemExit, (g', with_closed true demo_conn)).
Proof.
  apply (trapped_twice_stays_blocked (λ _, None) demo_resolver
           trapped_globals trapped_conn demo_conn demo_conn "carol"
           (Account.mk false true "pw3" [] [] 2)).
  - reflexivity.
  - reflexivity.
  - reflexivity.
  - unfold MAX_FORGIVENESS. simpl. lia.
  - reflexivity.
  - apply (bool_decide_unpack _). vm_compute. exact I.
  - reflexivity.
  - reflexivity.
  - intros host alias ip [= <- <- <-]. vm_compute. left.
Defined.

(** ** When the deletion cascade completes *)

Section cascade_completes.
Context (name : string).

Lemma clean_name_from_channels_complete (indices : list Z)
    (channels : gmap Z ChannelServer.t) :
  NoDup indices →
  (∀ index ch,
     index ∈ indices → channels !! index = Some ch →
     channel_wf ch
     ∧ Forall (λ entry : string * list string, entry.2 ≠ [name])
              (muted_to_muter ch)) →
  ∃ channels',
    clean_name_from_channels name indices channels = (Return (), channels')
    ∧ (∀ index, index ∉ indices → channels' !! index = channels !! index)
    ∧ (∀ index ch,
         index ∈ indices → channels !! index = Some ch →
         ∃ ch', channels' !! index = Some ch'
                ∧ clean_name_from_channel name ch = (Return (), ch')).
Proof.
  revert channels.
  induction indices as [|index indices IH]; intros channels Hnd Hok.
  { exists channels. split; [done|]. split; [done|].
    by intros ? ? ?%elem_of_nil. }
  apply NoDup_cons in Hnd as [Hfresh Hnd]. cbn [clean_name_from_channels].
  destruct (channels !! index) as [ch|] eqn:Hch.
  - destruct (Hok index ch) as [Hwf Hne]; [left|done|].
    destruct (clean_name_from_channel_complete name ch Hwf Hne)
      as (ch' & Hclean & _).
    rewrite Hclean.
    destruct (IH (<[index := ch']> channels) Hnd)
      as (channels' & Hrun & Hout & Hin).
    { intros i c Hi. rewrite lookup_insert_ne by (by intros ->).
      apply Hok. by right. }
    exists channels'. split; [done|]. split.
    + intros i [Hne' Hi]%not_elem_of_cons.
      by rewrite Hout, lookup_insert_ne.
    + intros i c [->|Hi]%elem_of_cons Hic.
      * rewrite Hout by done. rewrite lookup_insert_eq.
        exists ch'. split; [done|]. rewrite Hch in Hic.
        by injection Hic as <-.
      * apply Hin; [done|]. by rewrite lookup_insert_ne by (by intros ->).
  - destruct (IH channels Hnd) as (channels' & Hrun & Hout & Hin).
    { intros i c Hi. apply Hok. by right. }
    exists channels'. split; [done|]. split.
    + intros i [Hne' Hi]%not_elem_of_cons. by apply Hout.
    + intros i c [->|Hi]%elem_of_cons Hic; [congruence|by apply Hin].
Qed.
End cascade_completes.

(** X25. When the deletion cascade completes.  If no two channel names
    share an index and in every channel the ban list and mute lists are
    free of duplicates and nobody is muted by the deleted user alone, then
    [delete_account] returns normally; the account is gone, and in every
    registered channel the name is neither banned, nor a muted key, nor a
    muter of anyone, while the kick list is as it was. *)
Theorem delete_account_completes (name : string) (g : Globals) :
  NoDup (PyDict.values (CHANNEL_NAMES g)) →
  (∀ index ch,
     CHANNELS g !! index = Some ch →
     channel_wf ch
     ∧ Forall (λ entry : string * list string, entry.2 ≠ [name])
              (muted_to_muter ch)) →
  ∃ g',
    delete_account name g = (Return (), g')
    ∧ ACCOUNTS g' !! name = None
    ∧ CHANNEL_NAMES g' = CHANNEL_NAMES g
    ∧ ∀ channel index ch,
        PyDict.get channel (CHANNEL_NAMES g) = Some index →
        CHANNELS g !! index = Some ch →
        ∃ ch',
          CHANNELS g' !! index = Some ch'
          ∧ (name ∉ banned ch')
          ∧ (name ∉ PyDict.keys (muted_to_muter ch'))
          ∧ (∀ muted, name ∉ muters_of muted ch')
          ∧ kicked ch' = kicked ch.
Proof.
  intros Hnd Hok.
  assert (NoDup (get_channels g)) as Hnd'.
  { unfold get_channels.
    by apply NoDup_ListNoDup, List.NoDup_filter, NoDup_ListNoDup. }
  destruct (clean_name_from_channels_complete name (get_channels g)
              (CHANNELS g) Hnd' (λ index ch _ Hch, Hok index ch Hch))
    as (channels' & Hrun & _ & Hin).
  unfold delete_account.
  set (g0 := if account_exists (ACCOUNTS g) name
             then with_ACCOUNTS
                    (forget_contact name <$> delete name (ACCOUNTS g)) g
             else g).
  assert (get_channels g0 = get_channels g
          ∧ CHANNELS g0 = CHANNELS g
          ∧ CHANNEL_NAMES g0 = CHANNEL_NAMES g) as (Hsame & Hobjects & Hnames)
    by (subst g0; by destruct (account_exists _ _)).
  assert (ACCOUNTS g0 !! name = None) as Hgone.
  { subst g0. unfold account_exists. case_bool_decide as Hname; simpl.
    - by rewrite lookup_fmap, lookup_delete_eq.
    - by apply eq_None_not_Some. }
  rewrite Hsame, Hobjects, Hrun. eexists. split; [done|]. simpl.
  split; [done|]. split; [done|].
  intros channel index ch Hget Hch.
  destruct (Hin index ch) as (ch' & Hch' & Hclean); [|done|].
  { unfold get_channels. apply list_elem_of_In, filter_In. split.
    - apply list_elem_of_In. by eapply get_values.
    - apply bool_decide_eq_true. by rewrite Hch. }
  destruct (Hok index ch Hch) as [Hwf Hne].
  destruct (clean_name_from_channel_complete name ch Hwf Hne)
    as (ch'' & Hclean' & Hprops).
  rewrite Hclean in Hclean'. injection Hclean' as <-.
  exists ch'. by split.
Qed.

Lemma delete_account_completes_witness :
  ∃ g',
    delete_account "bob" demo_globals = (Return (), g')
    ∧ ACCOUNTS g' !! "bob" = None
    ∧ CHANNEL_NAMES g' = CHANNEL_NAMES demo_globals
    ∧ ∀ channel index ch,
        PyDict.get channel (CHANNEL_NAMES demo_globals) = Some index →
        CHANNELS demo_globals !! index = Some ch →
        ∃ ch',
          CHANNELS g' !! index = Some ch'
          ∧ ("bob" ∉ banned ch')
          ∧ ("bob" ∉ PyDict.keys (muted_to_muter ch'))
          ∧ (∀ muted, "bob" ∉ muters_of muted ch')
          ∧ kicked ch' = kicked ch.
Proof.
  apply (delete_account_completes "bob" demo_globals).
  - apply (bool_decide_unpack _). vm_compute. exact I.
  - intros index ch Hch. simpl in Hch.
    apply lookup_singleton_Some in Hch as [_ <-]. split; [split|].
    + apply (bool_decide_unpack _). vm_compute. exact I.
    + unfold PyDict.wf. apply (bool_decide_unpack _). vm_compute. exact I.
    + apply (bool_decide_unpack _). vm_compute. exact I.
    + apply (bool_decide_unpack _). vm_compute. exact I.
Defined.

(** ** Composing and sending messages *)

Section composing.
Implicit Types (lines body rest : list string).

Lemma double_blank_cons2 (a b : string) lines :
  double_blank (a :: b :: lines)
  = (bool_decide (a = "") && bool_decide (b = ""))
    || double_blank (b :: lines).
Proof. reflexivity. Qed.

Lemma double_blank_end lines : double_blank (lines ++ [""; ""]) = true.
Proof.
  induction lines as [|a lines IH]; [done|].
  destruct lines as [|b lines].
  - change ([a] ++ [""; ""]) with (a :: "" :: [""]).
    rewrite double_blank_cons2. apply orb_true_r.
  - change ((a :: b :: lines) ++ [""; ""])
      with (a :: b :: (lines ++ [""; ""])).
    rewrite double_blank_cons2.
    change (b :: lines ++ [""; ""]) with ((b :: lines) ++ [""; ""]).
    rewrite IH. apply orb_true_r.
Qed.

Lemma double_blank_app lines rest :
  double_blank lines = true → double_blank (lines ++ rest) = true.
Proof.
  induction lines as [|a lines IH]; [done|].
  destruct lines as [|b lines]; [done|].
  change ((a :: b :: lines) ++ rest) with (a :: b :: (lines ++ rest)).
  rewrite !double_blank_cons2.
  intros [Hab|Hrest]%orb_true_iff.
  - by rewrite Hab.
  - change (b :: lines ++ rest) with ((b :: lines) ++ rest).
    rewrite IH by done. apply orb_true_r.
Qed.

Lemma last_two_double_blank lines :
  last_two lines = [""; ""] → double_blank lines = true.
Proof.
  unfold last_two. intros Hlast.
  rewrite <-(take_drop (length lines - 2) lines), Hlast.
  apply double_blank_end.
Qed.

Lemma last_two_end lines : last_two (lines ++ [""; ""]) = [""; ""].
Proof.
  unfold last_two. rewrite length_app. simpl.
  replace (length lines + 2 - 2)%nat with (length lines) by lia.
  by rewrite drop_app_length.
Qed.

Lemma but_last_two_end lines (a b : string) :
  but_last_two (lines ++ [a; b]) = lines.
Proof.
  unfold but_last_two. rewrite length_app. simpl.
  replace (length lines + 2 - 2)%nat with (length lines) by lia.
  by rewrite take_app_length.
Qed.

(** The loop reads up to the first two blank lines in a row. *)
Lemma compose_terminator lines body rest :
  double_blank (lines ++ body ++ [""]) = false →
  compose lines (body ++ [""; ""] ++ rest)
  = Some (lines ++ body ++ [""; ""], rest).
Proof.
  assert (∀ l, double_blank l = false → last_two l ≠ [""; ""]) as Hstep.
  { intros l Hl Hlast%last_two_double_blank. congruence. }
  assert (∀ l t, double_blank (l ++ t) = false → double_blank l = false)
    as Hprefix.
  { intros l t Hlt. destruct (double_blank l) eqn:Hl; [|done].
    by rewrite (double_blank_app l t Hl) in Hlt. }
  revert lines. induction body as [|b body IH]; intros lines Hfree.
  - simpl in *.
    rewrite bool_decide_eq_false_2 by (by eapply Hstep, Hprefix).
    simpl. rewrite bool_decide_eq_false_2 by (by apply Hstep).
    simpl. rewrite <-app_assoc. simpl.
    destruct rest; simpl;
      by rewrite bool_decide_eq_true_2 by apply last_two_end.
  - simpl.
    rewrite bool_decide_eq_false_2 by (by eapply Hstep, Hprefix).
    specialize (IH (lines ++ [b])). simpl in IH.
    rewrite IH by (by rewrite <-app_assoc).
    by rewrite <-app_assoc.
Qed.

Lemma strip_blank_body body :
  body ≠ [] →
  double_blank (body ++ [""]) = false →
  but_last_two (strip_blank (body ++ [""; ""])) = strip_blank body
  ∧ String.concat newline (strip_blank body) ≠ "".
Proof.
  assert (∀ (b : string) l, b ≠ "" →
            but_last_two (strip_blank ((b :: l) ++ [""; ""]))
            = strip_blank (b :: l)
            ∧ String.concat newline (strip_blank (b :: l)) ≠ "") as Hhead.
  { intros b l Hb. destruct b as [|ch b]; [done|]. split.
    - simpl. change (String ch b :: l ++ [""; ""])
        with ((String ch b :: l) ++ [""; ""]).
      apply but_last_two_end.
    - simpl. by destruct l. }
  destruct body as [|b body]; [done|]. intros _ Hfree.
  destruct (decide (b = "")) as [->|Hb]; [|by apply Hhead].
  destruct body as [|b' body]; [done|].
  destruct (decide (b' = "")) as [->|Hb']; [done|].
  change (strip_blank (("" :: b' :: body) ++ [""; ""]))
    with (strip_blank ((b' :: body) ++ [""; ""])).
  change (strip_blank ("" :: b' :: body)) with (strip_blank (b' :: body)).
  by apply Hhead.
Qed.
End composing.

(** X26. What [do_send] delivers.  A logged-in client on an open transport
    names another, existing account and then types a body and two blank
    lines; the body is not empty, holds no two blank lines in a row and
    does not end with one.  Then the addressee's inbox gains, at its end
    and unread, one message from the client whose text is the body joined
    by line breaks, a leading blank line dropped; no other account
    changes, the addressee is told when online, and the lines typed after
    the two blank lines are still unread. *)
Theorem do_send_delivers_the_body (dest me : string)
    (body rest : list string) (g : Globals) (c : Conn)
    (account : Account.t) :
  closed c = false →
  name c = Some me →
  dest ≠ me →
  ACCOUNTS g !! dest = Some account →
  incoming c = body ++ [""; ""] ++ rest →
  body ≠ [] →
  double_blank (body ++ [""]) = false →
  ∃ g' c',
    do_send [dest] (g, c)
    = (Return (PyNone,
               if Account.online account
               then [(Holder dest,
                      "[EVENT] " +:+ me +:+ " has sent you a message.")]
               else []),
       (g', c'))
    ∧ ACCOUNTS g'
      = <[dest := with_messages
                    (Account.messages account
                     ++ [Message.mk me
                           (String.concat newline (strip_blank body)) true])
                    account]> (ACCOUNTS g)
    ∧ incoming c' = rest
    ∧ last (outgoing c') = Some "Message has been delivered.".
Proof.
  intros Hopen Hname Hne Hreg Hin Hbody Hfree.
  destruct c as [id addr nm inc out cl]. simpl in Hopen, Hname, Hin. subst.
  pose proof (compose_terminator [] body rest Hfree) as Hcompose.
  destruct (strip_blank_body body Hbody Hfree) as [Hstrip Htext].
  unfold do_send, get_message, account_exists. run_steps.
  rewrite bool_decide_eq_false_2 by done. run_steps.
  rewrite bool_decide_eq_true_2 by done. run_steps.
  simpl in Hcompose. rewrite Hcompose. run_steps.
  rewrite Hstrip. rewrite bool_decide_eq_false_2 by done. run_steps.
  unfold deliver_message. rewrite Hreg. run_steps.
  eexists _, _. split; [done|]. simpl. split_and!; [done|done|].
  by rewrite last_snoc.
Qed.

Lemma do_send_delivers_the_body_witness :
  ∃ g' c',
    do_send ["carol"]
      (demo_globals,
       mkConn 2 "203.0.113.9" (Some "bob")
         (["Hi carol,"; ""; "see you"] ++ [""; ""] ++ ["exit"]) [] false)
    = (Return (PyNone,
               if Account.online (Account.new false)
               then [(Holder "carol",
                      "[EVENT] " +:+ "bob" +:+ " has sent you a message.")]
               else []),
       (g', c'))
    ∧ ACCOUNTS g'
      = <["carol" := with_messages
                       (Account.messages (Account.new false)
                        ++ [Message.mk "bob"
                              (String.concat newline
                                 (strip_blank ["Hi carol,"; ""; "see you"]))
                              true])
                       (Account.new false)]> (ACCOUNTS demo_globals)
    ∧ incoming c' = ["exit"]
    ∧ last (outgoing c') = Some "Message has been delivered.".
Proof.
  apply (do_send_delivers_the_body "carol" "bob"
           ["Hi carol,"; ""; "see you"] ["exit"] demo_globals
           (mkConn 2 "203.0.113.9" (Some "bob")
              (["Hi carol,"; ""; "see you"] ++ [""; ""] ++ ["exit"])
              [] false)
           (Account.new false)); try reflexivity; done.
Defined.

(** ** Channel summaries *)

Section markov.
Implicit Types (arrays : list (list string)) (sentence key : list string).
Implicit Types (chains : list (list string * list string)).

Lemma links_sound sentence key value :
  (key, value) ∈ links sentence →
  ∃ before after,
    sentence = before ++ key ++ value :: after ∧ length key = 2%nat.
Proof.
  unfold links, markov_chain_length. case_bool_decide as Hlen;
    [|by intros ?%elem_of_nil].
  intros (index & [= -> ->] & Hindex)%list_elem_of_fmap.
  apply elem_of_seq in Hindex.
  replace (index + 2 - index)%nat with 2%nat by lia.
  destruct (lookup_lt_is_Some_2 sentence (index + 2)) as [v Hv]; [lia|].
  rewrite Hv. simpl.
  exists (take index sentence), (drop (S (index + 2)) sentence).
  split.
  - rewrite <-(drop_S _ _ _ Hv).
    rewrite <-drop_drop. by rewrite !take_drop.
  - rewrite length_take, length_drop. lia.
Qed.

Lemma links_complete sentence before after (a b value : string) :
  sentence = before ++ [a; b] ++ value :: after →
  ([a; b], value) ∈ links sentence.
Proof.
  intros ->. unfold links, markov_chain_length.
  rewrite bool_decide_eq_true_2
    by (rewrite !length_app; simpl; lia).
  apply list_elem_of_fmap. exists (length before). split.
  - replace (length before + (3 - 1) - length before)%nat with 2%nat by lia.
    rewrite drop_app_length. simpl. f_equal.
    replace (length before + (3 - 1))%nat with (length before + 2)%nat
      by lia.
    by rewrite lookup_app_r, Nat.add_comm, Nat.add_sub by lia.
  - apply elem_of_seq. rewrite !length_app. simpl. lia.
Qed.

Lemma get_add_link chains key link :
  PyDict.get key (add_link chains link)
  = if decide (key = link.1)
    then Some (default [] (PyDict.get link.1 chains) ++ [link.2])
    else PyDict.get key chains.
Proof.
  unfold add_link. destruct link as [k v]. simpl.
  destruct (decide (key = k)) as [->|Hne].
  - destruct (PyDict.get k chains); by rewrite get_set_eq.
  - destruct (PyDict.get k chains); by rewrite get_set_ne.
Qed.

(** Every follower recorded for a key was put there by a link. *)
Lemma chains_sound (ls : list (list string * string)) chains key values
    value :
  PyDict.get key (foldl add_link chains ls) = Some values →
  value ∈ values →
  (key, value) ∈ ls
  ∨ ∃ old, PyDict.get key chains = Some old ∧ value ∈ old.
Proof.
  revert chains. induction ls as [|[k v] ls IH]; intros chains; simpl.
  { intros Hget Hin. right. by exists values. }
  intros Hget Hin.
  destruct (IH _ Hget Hin) as [Hls|(old & Hold & Hvalue)].
  { left. by right. }
  rewrite get_add_link in Hold. simpl in Hold.
  destruct (decide (key = k)) as [->|Hne]; [|right; by exists old].
  injection Hold as <-.
  apply elem_of_app in Hvalue as [Hvalue|Hvalue].
  2:{ apply list_elem_of_singleton in Hvalue as ->. left. left. }
  destruct (PyDict.get k chains) as [old|]; simpl in *.
  - right. by exists old.
  - by apply elem_of_nil in Hvalue.
Qed.

(** Every link is recorded, and nothing recorded is lost. *)
Lemma chains_complete (ls : list (list string * string)) chains key value :
  (key, value) ∈ ls
  ∨ (∃ old, PyDict.get key chains = Some old ∧ value ∈ old) →
  ∃ values,
    PyDict.get key (foldl add_link chains ls) = Some values
    ∧ value ∈ values.
Proof.
  revert chains. induction ls as [|[k v] ls IH]; intros chains; simpl.
  { intros [?%elem_of_nil|(old & ? & ?)]; [done|by exists old]. }
  intros Hcase. apply IH.
  destruct Hcase as [[[= -> ->]|Hin]%elem_of_cons|(old & Hold & Hvalue)].
  - right. rewrite get_add_link. simpl. rewrite decide_True by done.
    eexists. split; [done|]. apply elem_of_app. right. left.
  - by left.
  - right. rewrite get_add_link. simpl.
    destruct (decide (key = k)) as [->|Hne].
    + eexists. split; [done|]. rewrite Hold. simpl.
      apply elem_of_app. by left.
    + by exists old.
Qed.

Lemma choice_elem_of {A} (k : nat) (l : list A) (x : A) :
  choice k l = Some x → x ∈ l.
Proof. unfold choice. apply list_elem_of_lookup_2. Qed.

Lemma choice_is_Some {A} (k : nat) (l : list A) :
  l ≠ [] → is_Some (choice k l).
Proof.
  intros Hl. unfold choice. apply lookup_lt_is_Some_2.
  apply Nat.mod_upper_bound. by destruct l.
Qed.

Lemma last_n_app_all {A} (before run : list A) :
  last_n (Z.of_nat (length run)) (before ++ run) = run.
Proof.
  unfold last_n. rewrite length_app.
  replace (Z.to_nat
             (Z.max (Z.of_nat (length before + length run)
                     - Z.of_nat (length run)) 0))
    with (length before) by lia.
  by rewrite drop_app_length.
Qed.

Lemma triples_cons3 (a b c : string) (l : list string) :
  triples (a :: b :: c :: l) = [a; b; c] :: triples (b :: c :: l).
Proof. reflexivity. Qed.

Lemma triples_snoc (before : list string) (a b x : string) :
  triples (before ++ [a; b] ++ [x])
  = triples (before ++ [a; b]) ++ [[a; b; x]].
Proof.
  induction before as [|c before IH]; [done|].
  destruct before as [|d before].
  - reflexivity.
  - destruct before as [|e before].
    + reflexivity.
    + change ((c :: d :: e :: before) ++ [a; b] ++ [x])
        with (c :: d :: e :: (before ++ [a; b] ++ [x])).
      change ((c :: d :: e :: before) ++ [a; b])
        with (c :: d :: e :: (before ++ [a; b])).
      rewrite !triples_cons3.
      change (d :: e :: before ++ [a; b] ++ [x])
        with ((d :: e :: before) ++ [a; b] ++ [x]).
      rewrite IH. reflexivity.
Qed.
Lemma elem_of_concat {A} (x : A) (ls : list (list A)) :
  x ∈ concat ls ↔ ∃ l, x ∈ l ∧ l ∈ ls.
Proof.
  rewrite list_elem_of_In, in_concat. split.
  - intros (l & Hl & Hx). exists l. by rewrite !list_elem_of_In.
  - intros (l & Hx & Hl). exists l. by rewrite <-!list_elem_of_In.
Qed.

Lemma links_recorded arrays (a b value : string) :
  (∃ sentence before after,
     sentence ∈ arrays ∧ sentence = before ++ [a; b] ++ value :: after) →
  ∃ values,
    PyDict.get [a; b] (create_chains arrays) = Some values
    ∧ value ∈ values.
Proof.
  intros (sentence & before & after & Hin & Heq).
  apply chains_complete. left.
  apply elem_of_concat. exists (links sentence). split.
  - by eapply links_complete.
  - apply list_elem_of_fmap. by exists sentence.
Qed.

Lemma recorded_links arrays key values value :
  PyDict.get key (create_chains arrays) = Some values →
  value ∈ values →
  ∃ sentence before after,
    sentence ∈ arrays
    ∧ sentence = before ++ key ++ value :: after
    ∧ length key = 2%nat.
Proof.
  intros Hget Hin.
  destruct (chains_sound _ _ _ _ _ Hget Hin) as [Hls|(old & Hold & _)];
    [|done].
  apply elem_of_concat in Hls as (ls & Hlink & Hls).
  apply list_elem_of_fmap in Hls as (sentence & -> & Hsentence).
  apply links_sound in Hlink as (before & after & Heq & Hlen).
  by exists sentence, before, after.
Qed.

(** The loop invariant of [create_sentence]: the last two words have a
    follower in the text. *)
Lemma sentence_loop_follows arrays (oracle : list nat)
    (before : list string) (a b : string) :
  (∃ sentence p value q,
     sentence ∈ arrays ∧ sentence = p ++ [a; b] ++ value :: q) →
  Forall (occurs arrays) (triples (before ++ [a; b])) →
  match sentence_loop oracle (create_chains arrays) (stop_of arrays)
          (before ++ [a; b]) [a; b] with
  | Done words =>
      Forall (occurs arrays) (triples words)
      ∧ last_n (Z.of_nat markov_chain_length) words ∈ stop_of arrays
      ∧ take (length (before ++ [a; b])) words = before ++ [a; b]
  | NoKey | NoChoice => False
  | Unfinished => True
  end.
Proof.
  revert before a b.
  induction oracle as [|k oracle IH]; intros before a b Hfollow Hruns;
    [done|].
  destruct Hfollow as (s0 & p0 & v0 & q0 & Hs0 & Heq0).
  destruct (links_recorded arrays a b v0) as (values & Hget & Hv0).
  { by exists s0, p0, q0. }
  cbn [sentence_loop]. rewrite Hget.
  destruct (choice_is_Some k values) as [word Hword].
  { intros ->. by apply elem_of_nil in Hv0. }
  rewrite Hword. apply choice_elem_of in Hword.
  destruct (recorded_links arrays [a; b] values word Hget Hword)
    as (s1 & p1 & q1 & Hs1 & Heq1 & _).
  assert (last_n (Z.of_nat markov_chain_length)
            ((before ++ [a; b]) ++ [word]) = [a; b; word]) as Hlast.
  { rewrite <-app_assoc.
    apply (last_n_app_all before [a; b; word]). }
  assert (Forall (occurs arrays) (triples ((before ++ [a; b]) ++ [word])))
    as Hruns'.
  { rewrite <-app_assoc, triples_snoc. apply Forall_app. split; [done|].
    apply Forall_singleton. exists s1, p1, q1. split; [done|].
    by rewrite Heq1. }
  rewrite Hlast.
  destruct (py_in [a; b; word] (stop_of arrays)) eqn:Hstop.
  - apply py_in_true in Hstop. split_and!; [done|by rewrite Hlast|].
    by rewrite take_app_length.
  - apply py_in_false in Hstop.
    assert (last_n (Z.of_nat markov_chain_length - 1)
              ((before ++ [a; b]) ++ [word]) = [b; word]) as Hkey.
    { replace ((before ++ [a; b]) ++ [word])
        with ((before ++ [a]) ++ [b; word]) by (by rewrite <-!app_assoc).
      apply (last_n_app_all (before ++ [a]) [b; word]). }
    rewrite Hkey.
    replace ((before ++ [a; b]) ++ [word])
      with ((before ++ [a]) ++ [b; word]) in * by (by rewrite <-!app_assoc).
    destruct q1 as [|v1 q1].
    { destruct Hstop. unfold stop_of. apply list_elem_of_fmap.
      exists s1. split; [|done]. rewrite Heq1.
      symmetry. apply (last_n_app_all p1 [a; b; word]). }
    specialize (IH (before ++ [a]) b word).
    destruct (sentence_loop oracle _ _ _ _) as [words| | |]; try done.
    + destruct IH as (Hwords & Hend & Hprefix); [|done|].
      { exists s1, (p1 ++ [a]), v1, q1. split; [done|].
        by rewrite Heq1, <-!app_assoc. }
      split_and!; [done|done|].
      rewrite <-(take_drop (length ((before ++ [a]) ++ [b; word])) words),
        Hprefix.
      replace ((before ++ [a]) ++ [b; word])
        with ((before ++ [a; b]) ++ [word]) by (by rewrite <-!app_assoc).
      by rewrite <-app_assoc, take_app_length.
    + apply IH; [|done].
      exists s1, (p1 ++ [a]), v1, q1. split; [done|].
      by rewrite Heq1, <-!app_assoc.
    + apply IH; [|done].
      exists s1, (p1 ++ [a]), v1, q1. split; [done|].
      by rewrite Heq1, <-!app_assoc.
Qed.

Lemma create_sentence_follows arrays (oracle : list nat) :
  Forall (λ sentence, markov_chain_length ≤ length sentence)%nat arrays →
  match create_sentence oracle (start_of arrays) (stop_of arrays)
          (create_chains arrays) with
  | Done words =>
      Forall (occurs arrays) (triples words)
      ∧ take (markov_chain_length - 1) words ∈ start_of arrays
      ∧ last_n (Z.of_nat markov_chain_length) words ∈ stop_of arrays
  | NoKey => False
  | NoChoice => arrays = []
  | Unfinished => True
  end.
Proof.
  intros Hlong. destruct oracle as [|k oracle]; [done|].
  cbn [create_sentence].
  destruct (choice k (start_of arrays)) as [key|] eqn:Hkey.
  2:{ destruct arrays as [|s arrays]; [done|].
      destruct (choice_is_Some k (start_of (s :: arrays))) as [? Hsome];
        [done|congruence]. }
  pose proof (choice_elem_of _ _ _ Hkey) as Hstart.
  unfold start_of in Hstart.
  apply list_elem_of_fmap in Hstart as (s & -> & Hs).
  rewrite Forall_forall in Hlong. pose proof (Hlong s Hs) as Hlen.
  destruct s as [|a [|b [|v q]]]; simpl in Hlen;
    unfold markov_chain_length in Hlen; try lia.
  change (take (markov_chain_length - 1) (a :: b :: v :: q)) with [a; b].
  pose proof (sentence_loop_follows arrays oracle [] a b) as Hloop.
  simpl in Hloop.
  destruct (sentence_loop oracle _ _ _ _) as [words| | |]; try done.
  - destruct Hloop as (Hwords & Hend & Hprefix); [|done|].
    { by exists (a :: b :: v :: q), [], v, q. }
    split_and!; [done| |done].
    change (markov_chain_length - 1)%nat with 2%nat. rewrite Hprefix.
    unfold start_of. apply list_elem_of_fmap.
    by exists (a :: b :: v :: q).
  - apply Hloop; [|done]. by exists (a :: b :: v :: q), [], v, q.
  - exfalso. apply Hloop; [|done]. by exists (a :: b :: v :: q), [], v, q.
Qed.
End markov.

(** X27. A summary sentence follows the text.  Whatever the random choices,
    [create_sentence] on the chains built from the buffered lines never
    looks up a missing key, and it finds nothing to choose from only when
    no line has three words.  When it returns, every three words in a row
    of the sentence stand in a row in one of the lines, the sentence begins
    with the first two words of a line and ends with the last three words
    of a line. *)
Theorem summary_sentence_follows_the_text (buffer : list ChannelLine.t)
    (oracle : list nat) :
  match create_sentence oracle (start_of (prepare buffer))
          (stop_of (prepare buffer)) (create_chains (prepare buffer)) with
  | Done words =>
      Forall (occurs (prepare buffer)) (triples words)
      ∧ take (markov_chain_length - 1) words ∈ start_of (prepare buffer)
      ∧ last_n (Z.of_nat markov_chain_length) words
        ∈ stop_of (prepare buffer)
  | NoKey => False
  | NoChoice => prepare buffer = []
  | Unfinished => True
  end.
Proof.
  apply create_sentence_follows. unfold prepare.
  apply Forall_forall. intros words Hwords.
  apply list_elem_of_In, filter_In in Hwords as [_ Hlong].
  by apply bool_decide_eq_true in Hlong.
Qed.

Example summary_sentence_run :
  create_sentence [1; 0; 0; 1]%nat
    (start_of (prepare [ChannelLine.mk "alice" "the cat sat down";
                        ChannelLine.mk "bob" "hi";
                        ChannelLine.mk "bob" "a cat sat up"]))
    (stop_of (prepare [ChannelLine.mk "alice" "the cat sat down";
                       ChannelLine.mk "bob" "hi";
                       ChannelLine.mk "bob" "a cat sat up"]))
    (create_chains (prepare [ChannelLine.mk "alice" "the cat sat down";
                             ChannelLine.mk "bob" "hi";
                             ChannelLine.mk "bob" "a cat sat up"]))
  = Done ["a"; "cat"; "sat"; "down"].
Proof. vm_compute. reflexivity. Qed.

(** ** Account options *)

(** X28. Deleting one's own account is final, declining changes nothing.
    With [force] a logged-in client on an open transport loses the account
    whatever the walk through the channels does and whatever it has typed
    ahead, if anything; the command never returns to its command loop,
    [Cancelling ...] is not printed, and when the walk returns the
    transport is closed.  A client that answers the question with anything
    but yes, true or 1 keeps everything and is told [Cancelling ...]. *)
Theorem do_delete_account_is_final (g : Globals) (c : Conn)
    (user answer : string) (rest : list string) (account : Account.t) :
  closed c = false →
  (name c = Some user →
   ACCOUNTS g !! user = Some account →
   ∃ r g' c',
     do_delete_account ["force"] (g, c) = (r, (g', c'))
     ∧ (∀ v, r ≠ Return v)
     ∧ ACCOUNTS g' !! user = None
     ∧ incoming c' = incoming c
     ∧ outgoing c'
       = outgoing c ++ ["Your account and connection are being closed."]
     ∧ ((clean_name_from_channels user (get_channels g) (CHANNELS g)).1
          ≠ Return ()
        ∨ r = Raise SystemExit ∧ closed c' = true))
  ∧ (incoming c = answer :: rest →
     affirmative answer = false →
     do_delete_account [] (g, c)
     = (Return PyNone,
        (g, with_outgoing (outgoing c ++ ["Seriously?"; "Cancelling ..."])
              (with_incoming rest c)))).
Proof.
  intros Hopen.
  destruct c as [id addr nm inc out cl]. simpl in Hopen. subst.
  split.
  - simpl. intros -> Hreg.
    unfold do_delete_account. run_steps.
    unfold delete_account, account_exists. simpl.
    rewrite bool_decide_eq_true_2 by (by rewrite Hreg). simpl.
    change (get_channels (with_ACCOUNTS _ g)) with (get_channels g).
    destruct (clean_name_from_channels user (get_channels g) (CHANNELS g))
      as [[[]|e|] channels]; simpl.
    + eexists _, _, _. split; [done|]. simpl.
      split_and!; [done| |done|done|by right].
      by rewrite lookup_fmap, lookup_delete_eq.
    + eexists _, _, _. split; [done|]. simpl.
      split_and!; [done| |done|done|by left].
      by rewrite lookup_fmap, lookup_delete_eq.
    + eexists _, _, _. split; [done|]. simpl.
      split_and!; [done| |done|done|by left].
      by rewrite lookup_fmap, lookup_delete_eq.
  - simpl. intros -> Hno.
    unfold do_delete_account. run_steps. rewrite Hno. run_steps.
    by rewrite <-app_assoc.
Qed.

Lemma do_delete_account_is_final_witness :
  (∃ r g' c',
     do_delete_account ["force"] (demo_globals, demo_bob) = (r, (g', c'))
     ∧ (∀ v, r ≠ Return v)
     ∧ ACCOUNTS g' !! "bob" = None
     ∧ incoming c' = incoming demo_bob
     ∧ outgoing c'
       = outgoing demo_bob
         ++ ["Your account and connection are being closed."]
     ∧ ((clean_name_from_channels "bob" (get_channels demo_globals)
           (CHANNELS demo_globals)).1 ≠ Return ()
        ∨ r = Raise SystemExit ∧ closed c' = true))
  ∧ do_delete_account []
      (demo_globals, with_incoming ["no"; "exit"] demo_bob)
    = (Return PyNone,
       (demo_globals,
        with_outgoing
          (outgoing (with_incoming ["no"; "exit"] demo_bob)
           ++ ["Seriously?"; "Cancelling ..."])
          (with_incoming ["exit"]
             (with_incoming ["no"; "exit"] demo_bob)))).
Proof.
  split.
  - apply (do_delete_account_is_final demo_globals demo_bob "bob" "" []
             (Account.mk false true "pw2" ["carol"] [] 0));
      reflexivity.
  - apply (do_delete_account_is_final demo_globals
             (with_incoming ["no"; "exit"] demo_bob) "bob" "no" ["exit"]
             (Account.mk false true "pw2" ["carol"] [] 0));
      reflexivity.
Defined.




(** ** Categories *)

Section categories.
Import CATServer.

Lemma forget_spec (items : list string) (idx : gmap string string) :
  NoDup items →
  (∀ item, item ∈ items → is_Some (idx !! item)) →
  ∃ idx',
    forget items idx = (Return (), idx')
    ∧ ∀ item, idx' !! item = if decide (item ∈ items) then None
                             else idx !! item.
Proof.
  revert idx. induction items as [|i items IH]; intros idx Hnd Hall.
  { exists idx. split; [done|]. intros item.
    rewrite decide_False; [done|]. apply not_elem_of_nil. }
  apply NoDup_cons in Hnd as [Hi Hnd]. cbn [forget].
  destruct (Hall i) as [v Hv]; [left|]. rewrite Hv.
  destruct (IH (delete i idx) Hnd) as (idx' & Hrun & Hlookup).
  { intros item Hitem. rewrite lookup_delete_ne by (by intros ->).
    apply Hall. by right. }
  exists idx'. split; [done|]. intros item. rewrite Hlookup.
  destruct (decide (item = i)) as [->|Hne].
  - rewrite decide_False by done. rewrite decide_True by left.
    by apply lookup_delete_eq.
  - rewrite lookup_delete_ne by done.
    destruct (decide (item ∈ items)) as [Hin|Hout].
    + by rewrite decide_True by (by right).
    + rewrite decide_False; [done|].
      by intros [?|?]%elem_of_cons.
Qed.

Lemma cat_new_wf : wf new.
Proof.
  intros item value. simpl. rewrite lookup_empty. split; [done|].
  intros (items & Hitems & _). by rewrite lookup_empty in Hitems.
Qed.

Lemma getitem_wf value item s : wf s → wf (getitem value item s).2.
Proof.
  intros Hwf. unfold getitem. case_bool_decide as Hnew; [done|].
  apply eq_None_not_Some in Hnew. simpl. intros i v. simpl.
  assert (∀ v', ¬ ∃ items, group s !! v' = Some items ∧ item ∈ items)
    as Hfresh.
  { intros v' Hex. apply Hwf in Hex. congruence. }
  destruct (decide (i = item)) as [->|Hi].
  - rewrite lookup_insert_eq. split.
    + intros [= <-].
      destruct (group s !! value) as [items|]; eexists;
        (split; [by rewrite lookup_insert_eq|]).
      * apply elem_of_union. right. by apply elem_of_singleton.
      * by apply elem_of_singleton.
    + intros (items & Hitems & Hin).
      destruct (decide (v = value)) as [->|Hv]; [done|].
      destruct (Hfresh v). exists items. split; [|done].
      by destruct (group s !! value); rewrite lookup_insert_ne in Hitems.
  - rewrite lookup_insert_ne by done. rewrite (Hwf i v).
    destruct (decide (v = value)) as [->|Hv].
    + destruct (group s !! value) as [items0|] eqn:Hgroup;
        rewrite lookup_insert_eq; split.
      * intros (items & [= <-] & Hin). eexists. split; [done|].
        apply elem_of_union. by left.
      * intros (items & [= <-] & [Hin|Hin%elem_of_singleton]%elem_of_union);
          [by exists items0|done].
      * by intros (items & ? & _).
      * by intros (items & [= <-] & Hin%elem_of_singleton).
    + by destruct (group s !! value); rewrite lookup_insert_ne.
Qed.

Lemma delitem_wf value item s :
  wf s →
  wf (delitem value item s).2 ∧ (delitem value item s).1 ≠ Raise KeyError.
Proof.
  intros Hwf. unfold delitem. case_bool_decide as Hhere; [|done].
  destruct (proj1 (Hwf item value) Hhere) as (items & Hitems & Hin).
  rewrite Hitems, bool_decide_eq_true_2 by done. simpl.
  split; [|done]. intros i v. simpl.
  destruct (decide (i = item)) as [->|Hi].
  - rewrite lookup_delete_eq. split; [done|].
    intros (items' & Hitems' & Hin').
    destruct (decide (v = value)) as [->|Hv].
    + rewrite lookup_insert_eq in Hitems'. injection Hitems' as <-.
      apply elem_of_difference in Hin' as [_ Hout].
      destruct Hout. by apply elem_of_singleton.
    + rewrite lookup_insert_ne in Hitems' by done.
      assert (index s !! item = Some v) as Hv' by (apply Hwf; eauto).
      congruence.
  - rewrite lookup_delete_ne by done. rewrite (Hwf i v).
    destruct (decide (v = value)) as [->|Hv].
    + rewrite lookup_insert_eq, Hitems. split.
      * intros (? & [= <-] & Hin'). eexists. split; [done|].
        apply elem_of_difference. split; [done|].
        by intros ?%elem_of_singleton.
      * intros (? & [= <-] & [Hin' _]%elem_of_difference).
        by exists items.
    + by rewrite lookup_insert_ne.
Qed.

Lemma delattr_wf value name s :
  wf s →
  wf (delattr value name s).2
  ∧ (delattr value name s).1 = Return ()
  ∧ group (delattr value name s).2 !! subcategory value name = None
  ∧ ∀ item, index (delattr value name s).2 !! item
            ≠ Some (subcategory value name).
Proof.
  intros Hwf. unfold delattr.
  set (v0 := subcategory value name).
  destruct (group s !! v0) as [items|] eqn:Hgroup.
  2:{ split_and!; [done|done|done|]. intros item Hitem.
      apply Hwf in Hitem as (items & Hitems & _). congruence. }
  destruct (forget_spec (elements items) (index s)) as (idx' & Hrun & Hidx).
  { apply NoDup_elements. }
  { intros item Hitem%elem_of_elements. exists v0. apply Hwf. eauto. }
  rewrite Hrun. simpl. split_and!; [|done|apply lookup_delete_eq|].
  - intros i v. simpl. rewrite Hidx.
    destruct (decide (i ∈ elements items)) as [Hin%elem_of_elements|Hout].
    + split; [done|]. intros (items' & Hitems' & Hin').
      destruct (decide (v = v0)) as [->|Hv].
      * by rewrite lookup_delete_eq in Hitems'.
      * rewrite lookup_delete_ne in Hitems' by done.
        assert (index s !! i = Some v) as Hv1 by (apply Hwf; eauto).
        assert (index s !! i = Some v0) as Hv2 by (apply Hwf; eauto).
        congruence.
    + rewrite (Hwf i v).
      destruct (decide (v = v0)) as [->|Hv].
      * rewrite lookup_delete_eq, Hgroup. split.
        -- intros (? & [= <-] & Hin). by apply elem_of_elements in Hin.
        -- by intros (? & ? & _).
      * by rewrite lookup_delete_ne.
  - intros item. simpl. rewrite Hidx.
    destruct (decide (item ∈ elements items)) as [Hin|Hout]; [done|].
    intros Hitem. apply Hwf in Hitem as (items' & Hitems' & Hin').
    rewrite Hgroup in Hitems'. injection Hitems' as <-.
    by apply elem_of_elements in Hin'.
Qed.
End categories.

(** X30. The two dictionaries of a [CATServer] stay in step.  If an item is
    indexed under a category exactly when it is among that category's
    items, this still holds after storing an item, deleting an item and
    deleting a subcategory, whatever the outcome; deleting never fails on
    a missing key; a stored item is in its category and in no other; and
    a deleted subcategory is empty.  Membership and iteration agree. *)
Theorem CATServer_dictionaries_agree (value name item : string)
    (s : CATServer.t) :
  CATServer.wf s →
  CATServer.wf (CATServer.getitem value item s).2
  ∧ CATServer.wf (CATServer.delitem value item s).2
  ∧ CATServer.wf (CATServer.delattr value name s).2
  ∧ (CATServer.delitem value item s).1 ≠ Raise KeyError
  ∧ (CATServer.delattr value name s).1 = Return ()
  ∧ ((CATServer.getitem value item s).1 = Return item →
     ∀ other,
       CATServer.contains other item (CATServer.getitem value item s).2
       = bool_decide (other = value))
  ∧ (∀ anything,
       CATServer.contains (CATServer.subcategory value name) anything
         (CATServer.delattr value name s).2 = false)
  ∧ CATServer.len (CATServer.subcategory value name)
      (CATServer.delattr value name s).2 = 0%nat
  ∧ (∀ category anything,
       CATServer.contains category anything s
       = bool_decide (anything ∈ CATServer.iter category s)).
Proof.
  intros Hwf.
  destruct (delitem_wf value item s Hwf) as [Hdel Hkey].
  destruct (delattr_wf value name s Hwf) as (Hattr & Hret & Hgone & Hnone).
  split_and!; [by apply getitem_wf|done..| | | |].
  - unfold CATServer.getitem, CATServer.contains.
    case_bool_decide; [done|]. simpl. intros _ other.
    rewrite lookup_insert_eq. apply bool_decide_ext.
    split; [by intros [= ->]|by intros ->].
  - intros anything. unfold CATServer.contains.
    by apply bool_decide_eq_false_2.
  - unfold CATServer.len. by rewrite Hgone.
  - intros category anything. unfold CATServer.contains, CATServer.iter.
    apply bool_decide_ext. rewrite (Hwf anything category). split.
    + by intros (items & -> & Hin).
    + destruct (CATServer.group s !! category) as [items|]; simpl.
      * intros Hin. by exists items.
      * by intros ?%elem_of_empty.
Qed.

Lemma CATServer_dictionaries_agree_witness :
  CATServer.wf demo_cat
  ∧ (CATServer.wf (CATServer.getitem "pets" "felix" demo_cat).2
     ∧ CATServer.wf (CATServer.delitem "pets" "bello" demo_cat).2
     ∧ CATServer.wf (CATServer.delattr "pets" "dogs" demo_cat).2)
  ∧ ((CATServer.delitem "pets" "bello" demo_cat).1 ≠ Raise KeyError
     ∧ (CATServer.delattr "pets" "dogs" demo_cat).1 = Return ())
  ∧ (∀ other,
       CATServer.contains other "felix"
         (CATServer.getitem "pets" "felix" demo_cat).2
       = bool_decide (other = "pets"))
  ∧ (∀ anything,
       CATServer.contains "pets.dogs" anything
         (CATServer.delattr "pets" "dogs" demo_cat).2 = false)
  ∧ CATServer.len "pets.dogs" (CATServer.delattr "pets" "dogs" demo_cat).2
    = 0%nat
  ∧ (∀ category anything,
       CATServer.contains category anything demo_cat
       = bool_decide (anything ∈ CATServer.iter category demo_cat)).
Proof.
  assert (CATServer.wf demo_cat) as Hwf.
  { unfold demo_cat. do 4 apply getitem_wf. apply cat_new_wf. }
  destruct (CATServer_dictionaries_agree "pets" "dogs" "felix" demo_cat Hwf)
    as (Hget & _ & Hattr & _ & Hret & Hstored & Hgone & Hlen & Hiter).
  destruct (CATServer_dictionaries_agree "pets" "dogs" "bello" demo_cat Hwf)
    as (_ & Hdel & _ & Hkey & _).
  split_and!; [exact Hwf|exact Hget|exact Hdel|exact Hattr|exact Hkey
              |exact Hret| |exact Hgone|exact Hlen|exact Hiter].
  apply Hstored. reflexivity.
Defined.

(** On that server the store, both deletions and the counts come out as
    follows: no branch of the three operations is idle. *)
Example demo_cat_run :
  (CATServer.getitem "pets" "felix" demo_cat).1 = Return "felix"
  ∧ (CATServer.getitem "pets" "bello" demo_cat).1 = Raise AssertionError
  ∧ (CATServer.delitem "pets" "bello" demo_cat).1 = Return ()
  ∧ (CATServer.delitem "pets" "rex" demo_cat).1 = Raise AssertionError
  ∧ (CATServer.delattr "pets" "dogs" demo_cat).1 = Return ()
  ∧ CATServer.len "pets.dogs" demo_cat = 2%nat
  ∧ CATServer.len "pets" (CATServer.getitem "pets" "felix" demo_cat).2
    = 2%nat
  ∧ CATServer.len "pets" (CATServer.delitem "pets" "bello" demo_cat).2
    = 0%nat
  ∧ CATServer.contains "pets.dogs" "rex" demo_cat = true
  ∧ CATServer.contains "pets.cats" "tom"
      (CATServer.delattr "pets" "dogs" demo_cat).2 = true.
Proof. vm_compute. by split_and!. Qed.
